(** * Catipedia automation scripts: build, deploy and setup

    A shallow embedding of the build script (class [BuildManager]), of
    [scripts/deploy.js] (class [DeploymentManager]) and of the setup
    script (class [SetupManager]), together with the properties their
    specification states about them and further properties of what
    their runs do and leave.

    Conventions of the embedding:
    - a [throw] is the [inl] branch of a result, a [try]/[catch] is
      [try_catch]; [process.exit] ends the run with the given code;
    - everything a script sends to the outside (child processes, console
      streams, file-system mutations) is recorded, in order, in a trace;
    - what the outside answers (exit status of a child process, presence
      of a file) is read from an explicit world or file-system value. *)

From stdpp Require Import base option list sets strings pretty.
From Stdlib Require Import ZArith NArith Ascii.
From Stdlib.Strings Require Import Byte.
From Equations Require Import Equations.

(** ** Text helpers shared by the scripts *)

(** [s.endsWith(suffix)] on byte strings. *)
Definition endsWith (s suffix : string) : bool :=
  let n := String.length s in
  let k := String.length suffix in
  if (k <=? n)%nat then String.eqb (String.substring (n - k) k s) suffix else false.

(** ASCII white space, the part of JavaScript's [WhiteSpace] and
    [LineTerminator] that a byte string can hold in one byte. *)
Definition is_space_ascii (a : ascii) : bool :=
  let n := nat_of_ascii a in
  ((9 <=? n)%nat && (n <=? 13)%nat) || (n =? 32)%nat.

Fixpoint trim_left (s : string) : string :=
  match s with
  | String a t => if is_space_ascii a then trim_left t else s
  | EmptyString => EmptyString
  end.

Fixpoint trim_right (s : string) : string :=
  match s with
  | String a t =>
      match trim_right t with
      | EmptyString => if is_space_ascii a then EmptyString else String a EmptyString
      | t' => String a t'
      end
  | EmptyString => EmptyString
  end.

(** [s.trim()] *)
Definition trim (s : string) : string := trim_right (trim_left s).

(** * The deploy script *)
Module Deploy.

(** One entry of [CONFIG]. *)
Record env_config := {
  buildDir : string;
  deployTarget : string;
  branch : string
}.

(** [const CONFIG = { development: ..., staging: ..., production: ... }] *)
Definition CONFIG : list (string * env_config) :=
  [ ("development",
      {| buildDir := "./dist"; deployTarget := "dev.catipedia.com"; branch := "develop" |});
    ("staging",
      {| buildDir := "./dist"; deployTarget := "staging.catipedia.com"; branch := "staging" |});
    ("production",
      {| buildDir := "./dist"; deployTarget := "catipedia.com"; branch := "main" |}) ].

(** [CONFIG] is an object literal, so its prototype is [Object.prototype]
    and a property read that misses the three own keys continues there.
    These are the properties of [Object.prototype]; each holds a
    function, or for [__proto__] an object: all of them are truthy. *)
Definition Object_prototype : list string :=
  [ "constructor"; "__defineGetter__"; "__defineSetter__"; "hasOwnProperty";
    "__lookupGetter__"; "__lookupSetter__"; "isPrototypeOf";
    "propertyIsEnumerable"; "toString"; "valueOf"; "__proto__";
    "toLocaleString" ].

(** The value of [CONFIG[environment]]. *)
Inductive config_value :=
| Own (c : env_config)          (* one of the three records *)
| Inherited (name : string)     (* a member of [Object.prototype] *)
| Undefined.

Fixpoint assoc {A} (k : string) (l : list (string * A)) : option A :=
  match l with
  | [] => None
  | (k', v) :: l' => if String.eqb k k' then Some v else assoc k l'
  end.

Definition member (k : string) (l : list string) : bool :=
  existsb (String.eqb k) l.

(** [CONFIG[key]] *)
Definition CONFIG_get (key : string) : config_value :=
  match assoc key CONFIG with
  | Some c => Own c
  | None => if member key Object_prototype then Inherited key else Undefined
  end.

(** [!value] *)
Definition falsy (v : config_value) : bool :=
  match v with Undefined => true | _ => false end.

(** [this.config.<field>]: [None] is [undefined], which is what a read
    of [branch], [buildDir] or [deployTarget] gives on a member of
    [Object.prototype]. *)
Definition field (f : env_config -> string) (v : config_value) : option string :=
  match v with Own c => Some (f c) | _ => None end.

(** A value inside a template literal. *)
Definition show (v : option string) : string :=
  match v with Some s => s | None => "undefined" end.

(** What the run does to the outside, in order.  Console messages are
    kept without their leading line break and pictograph. *)
Inductive event :=
| Call (method : string)     (* a step of [run] is entered: [await this.method()] *)
| Exec (cmd : string)        (* execSync(cmd): a child process is started *)
| Log (msg : string)         (* console.log *)
| Warn (msg : string)        (* console.warn *)
| Err (msg : string).        (* console.error *)

(** What the outside answers during one run.  Every command is started
    at most once and every path is probed at most once in a run, so one
    answer per command and per path describes the run. *)
Record world := {
  exec : string -> option string;   (* stdout, or [None]: non-zero exit *)
  exists_ : string -> bool          (* fs.existsSync(path) *)
}.

(** A computation: the events it emits, and either the message of the
    [Error] it throws or its value. *)
Definition M (A : Type) : Type := list event * (string + A).

Definition ret {A} (a : A) : M A := ([], inr a).

Definition bind {A B} (m : M A) (f : A -> M B) : M B :=
  match m with
  | (t, inl e) => (t, inl e)
  | (t, inr a) => let '(t', r) := f a in (t ++ t', r)
  end.

Definition throw {A} (msg : string) : M A := ([], inl msg).

Definition emit (e : event) : M unit := ([e], inr tt).

(** [try { m } catch (error) { h error.message }] *)
Definition try_catch {A} (m : M A) (h : string -> M A) : M A :=
  match m with
  | (t, inl e) => let '(t', r) := h e in (t ++ t', r)
  | ok => ok
  end.

#[export] Instance M_ret : MRet M := @ret.
#[export] Instance M_bind : MBind M := fun A B f m => bind m f.

Section Run.

Variable w : world.

(** [execSync(cmd, ...)]: starts the command and throws when it exits
    with a non-zero status. *)
Definition execSync (cmd : string) : M string :=
  emit (Exec cmd) ;;
  match exec w cmd with
  | Some out => ret out
  | None => throw ("Command failed: " +:+ cmd)
  end.

(** [fs.existsSync(path)]; [fs.existsSync(undefined)] is [false]. *)
Definition existsSync (p : option string) : bool :=
  match p with Some p => exists_ w p | None => false end.

(** The state of a [DeploymentManager]. *)
Record manager := {
  environment : string;
  config : config_value
}.

(** [constructor(environment = 'development')] *)
Definition new_DeploymentManager (environment : string) : M manager :=
  let config := CONFIG_get environment in
  if falsy config then throw ("Invalid environment: " +:+ environment)
  else
    emit (Log ("Initializing deployment for " +:+ environment +:+ " environment")) ;;
    ret {| environment := environment; config := config |}.

Variable this : manager.

Definition preDeploymentChecks : M unit :=
  emit (Call "preDeploymentChecks") ;;
  emit (Log "Running pre-deployment checks...") ;;
  try_catch
    (out ← execSync "git branch --show-current";
     let currentBranch := trim out in
     if decide (Some currentBranch = field branch (config this)) then ret tt
     else emit (Warn ("Warning: Current branch '" +:+ currentBranch +:+
                      "' doesn't match target branch '" +:+
                      show (field branch (config this)) +:+ "'")))
    (fun msg => emit (Err ("Failed to check git branch: " +:+ msg))) ;;
  try_catch
    (status ← execSync "git status --porcelain";
     if decide (trim status = "") then ret tt
     else emit (Warn "Warning: You have uncommitted changes") ;;
          emit (Log status))
    (fun msg => emit (Err ("Failed to check git status: " +:+ msg))) ;;
  (if exists_ w "./package.json" then ret tt
   else throw "package.json not found in current directory") ;;
  emit (Log "Pre-deployment checks completed").

Definition buildProject : M unit :=
  emit (Call "buildProject") ;;
  emit (Log "Building project...") ;;
  try_catch
    (emit (Log "Installing dependencies...") ;;
     execSync "npm ci" ;;
     emit (Log "Building project...") ;;
     execSync "npm run build" ;;
     (if existsSync (field buildDir (config this)) then ret tt
      else throw ("Build directory " +:+ show (field buildDir (config this)) +:+
                  " not found")) ;;
     emit (Log "Build completed successfully"))
    (fun msg => throw ("Build failed: " +:+ msg)).

Definition runTests : M unit :=
  emit (Call "runTests") ;;
  emit (Log "Running tests...") ;;
  try_catch
    (execSync "npm test" ;;
     emit (Log "All tests passed"))
    (fun msg =>
       if decide (environment this = "production")
       then throw ("Tests failed: " +:+ msg)
       else emit (Warn "Tests failed, but continuing deployment for non-production environment")).

Definition deployCommand : string :=
  if decide (environment this = "production")
  then "npx wrangler pages deploy ./dist --project-name=catipedia"
  else "npx wrangler pages deploy ./dist --project-name=catipedia-" +:+ environment this.

Definition deploy : M unit :=
  emit (Call "deploy") ;;
  emit (Log ("Deploying to " +:+ environment this +:+ " environment...")) ;;
  try_catch
    ((if exists_ w "./wrangler.toml" then
        emit (Log "Deploying with Wrangler...") ;;
        execSync deployCommand ;;
        ret tt
      else
        emit (Log "Deploying files...") ;;
        emit (Log ("Target: " +:+ show (field deployTarget (config this))))) ;;
     emit (Log ("Deployment to " +:+ environment this +:+ " completed successfully")))
    (fun msg => throw ("Deployment failed: " +:+ msg)).

Definition postDeployment : M unit :=
  emit (Call "postDeployment") ;;
  emit (Log "Running post-deployment tasks...") ;;
  try_catch
    (emit (Log "Warming up deployment...") ;;
     emit (Log "Post-deployment tasks completed"))
    (fun msg => emit (Warn ("Post-deployment tasks failed: " +:+ msg))).

(** The body of [run]'s [try] block.  The elapsed time that the success
    message prints is left out of the message. *)
Definition steps : M unit :=
  preDeploymentChecks ;;
  buildProject ;;
  runTests ;;
  deploy ;;
  postDeployment ;;
  emit (Log "Deployment completed successfully") ;;
  emit (Log ("Environment: " +:+ environment this)) ;;
  emit (Log ("Target: " +:+ show (field deployTarget (config this)))).

End Run.

(** How a process ends: what it did, and its exit status. *)
Record outcome := {
  trace : list event;
  exit_code : nat
}.

(** [async run()]: the [catch] prints the message and calls
    [process.exit(1)]; otherwise the process ends normally. *)
Definition run (w : world) (this : manager) : outcome :=
  match steps w this with
  | (t, inr _) => {| trace := t; exit_code := 0 |}
  | (t, inl msg) =>
      {| trace := t ++ [Err ("Deployment failed: " +:+ msg)]; exit_code := 1 |}
  end.

(** [args[0] || 'development']: a missing or empty first argument gives
    the default. *)
Definition environment_of (args : list string) : string :=
  match args with
  | [] => "development"
  | a :: _ => if decide (a = "") then "development" else a
  end.

(** The CLI block.  [new DeploymentManager] is outside every [try], so
    an [Error] thrown by the constructor is an uncaught exception: Node
    prints it and the process ends with status 1. *)
Definition main (w : world) (args : list string) : outcome :=
  let environment := environment_of args in
  let banner := [Log "Catipedia Deployment Manager";
                 Log "================================"] in
  match new_DeploymentManager environment with
  | (t, inl msg) =>
      {| trace := banner ++ t ++ [Err ("Uncaught Error: " +:+ msg)]; exit_code := 1 |}
  | (t, inr deployment) =>
      let o := run w deployment in
      {| trace := banner ++ t ++ trace o; exit_code := exit_code o |}
  end.

(** The commands a run has started. *)
Definition commands (t : list event) : list string :=
  omap (fun e => match e with Exec c => Some c | _ => None end) t.

(** The steps a run has entered. *)
Definition calls (t : list event) : list string :=
  omap (fun e => match e with Call m => Some m | _ => None end) t.

End Deploy.

(** * JavaScript strings and the patterns of the build script *)
Module JsString.

(** A JavaScript string is a sequence of UTF-16 code units. *)
Abbreviation code_unit := N (only parsing).
Abbreviation jsstring := (list N) (only parsing).

Definition SPACE : N := 32.
Definition STAR : N := 42.
Definition SLASH : N := 47.
Definition SEMICOLON : N := 59.
Definition LBRACE : N := 123.
Definition RBRACE : N := 125.

(** [LineTerminator]: LF, CR, LS, PS. *)
Definition isLineTerminator (c : N) : bool :=
  ((c =? 10) || (c =? 13) || (c =? 8232) || (c =? 8233))%N.

(** The class [\s]: [WhiteSpace] and [LineTerminator]. *)
Definition isWhiteSpace (c : N) : bool :=
  (((9 <=? c) && (c <=? 13)) || (c =? 32) || (c =? 160) || (c =? 5760) ||
   ((8192 <=? c) && (c <=? 8202)) || (c =? 8232) || (c =? 8233) ||
   (c =? 8239) || (c =? 8287) || (c =? 12288) || (c =? 65279))%N.

(** Number of leading code units in the class [p]: what a greedy [p*]
    consumes. *)
Fixpoint span (p : N -> bool) (s : list N) : nat :=
  match s with
  | c :: t => if p c then S (span p t) else 0
  | [] => 0
  end.

(** A compiled pattern: given the text from the current position on, the
    length of the match that starts there, if there is one.  None of the
    patterns of the build script looks behind the current position. *)
Definition matcher := list N -> option nat.

(** [text.replace(/pattern/g, replacement)] for a replacement without
    [$]: the leftmost match is replaced and the search resumes behind
    it; behind an empty match one code unit is copied. *)
Equations? replace_g (m : matcher) (replacement : list N) (s : list N) : list N
  by wf (length s) lt :=
  replace_g m replacement [] with m [] => {
    | Some _ := replacement;
    | None := [] };
  replace_g m replacement (c :: t) with m (c :: t) => {
    | Some 0 := replacement ++ c :: replace_g m replacement t;
    | Some (S n) := replacement ++ replace_g m replacement (drop n t);
    | None := c :: replace_g m replacement t }.
Proof. all: simpl; rewrite ?length_drop; lia. Qed.

(** ** Patterns

    The fragment of regular expressions the build script uses: literal
    code units, classes, a greedy or lazy star on a class, [$] under
    the [m] flag, and sequences. *)
Inductive regex :=
| Char (c : N)
| Class (p : N -> bool)
| Star (p : N -> bool)          (* [p*] *)
| Lazy (p : N -> bool)          (* [p*?] *)
| EndOfLine                     (* [$] with the [m] flag *)
| Seq (r1 r2 : regex).

Infix "·" := Seq (at level 40, left associativity).

(** Backtracking as the specification of [RegExp] orders it: [k] is
    what has to match behind; a greedy star first tries one more code
    unit, a lazy star first tries to stop.  The result is the text
    behind the whole match. *)
Fixpoint greedy (p : N -> bool) (k : list N -> option (list N)) (s : list N)
  : option (list N) :=
  match s with
  | c :: t =>
      if p c then
        match greedy p k t with
        | Some rest => Some rest
        | None => k s
        end
      else k s
  | [] => k s
  end.

Fixpoint lazy (p : N -> bool) (k : list N -> option (list N)) (s : list N)
  : option (list N) :=
  match k s with
  | Some rest => Some rest
  | None =>
      match s with
      | c :: t => if p c then lazy p k t else None
      | [] => None
      end
  end.

Fixpoint backtrack (r : regex) (k : list N -> option (list N)) (s : list N)
  : option (list N) :=
  match r with
  | Char c =>
      match s with
      | x :: t => if (x =? c)%N then k t else None
      | [] => None
      end
  | Class p =>
      match s with
      | x :: t => if p x then k t else None
      | [] => None
      end
  | Star p => greedy p k s
  | Lazy p => lazy p k s
  | EndOfLine =>
      match s with
      | x :: _ => if isLineTerminator x then k s else None
      | [] => k s
      end
  | Seq r1 r2 => backtrack r1 (backtrack r2 k) s
  end.

(** The pattern as a matcher: the length of its match at the start of
    the text. *)
Definition compile (r : regex) : matcher := fun s =>
  (fun rest => length s - length rest) <$> backtrack r Some s.

Definition any : N -> bool := fun _ => true.
Definition notLineTerminator : N -> bool := fun c => negb (isLineTerminator c).

(** [/\/\*[\s\S]*?\*\//] *)
Definition re_block_comment : matcher :=
  compile (Char SLASH · Char STAR · Lazy any · Char STAR · Char SLASH).

(** [/\/\/.*$/m]: [.] is any code unit but a line terminator. *)
Definition re_line_comment : matcher :=
  compile (Char SLASH · Char SLASH · Star notLineTerminator · EndOfLine).

(** [/\s+/] *)
Definition re_whitespace : matcher :=
  compile (Class isWhiteSpace · Star isWhiteSpace).

(** [/;\s*}/] *)
Definition re_semicolon_brace : matcher :=
  compile (Char SEMICOLON · Star isWhiteSpace · Char RBRACE).

(** [/\s*{\s*/] *)
Definition re_open_brace : matcher :=
  compile (Star isWhiteSpace · Char LBRACE · Star isWhiteSpace).

(** [/;\s*/] *)
Definition re_semicolon : matcher :=
  compile (Char SEMICOLON · Star isWhiteSpace).

(** ** What each pattern matches, read off the text directly *)

(** Length up to and including the first [*/]. *)
Fixpoint comment_end (s : list N) : option nat :=
  match s with
  | [] => None
  | c :: t =>
      match t with
      | d :: _ =>
          if ((c =? STAR) && (d =? SLASH))%N then Some 2
          else S <$> comment_end t
      | [] => None
      end
  end.

(** A block comment: the lazy body stops at the first [*/]. *)
Definition scan_block_comment : matcher := fun s =>
  match s with
  | c :: d :: t =>
      if ((c =? SLASH) && (d =? STAR))%N then (fun n => 2 + n) <$> comment_end t
      else None
  | _ => None
  end.

(** A line comment: [$] holds at the end of the text and before a line
    terminator, which is where the greedy [.*] stops. *)
Definition scan_line_comment : matcher := fun s =>
  match s with
  | c :: d :: t =>
      if ((c =? SLASH) && (d =? SLASH))%N
      then Some (2 + span notLineTerminator t)
      else None
  | _ => None
  end.

(** A run of white space. *)
Definition scan_whitespace : matcher := fun s =>
  match span isWhiteSpace s with
  | 0 => None
  | n => Some n
  end.

(** A semicolon, white space and a closing brace. *)
Definition scan_semicolon_brace : matcher := fun s =>
  match s with
  | c :: t =>
      if (c =? SEMICOLON)%N then
        let n := span isWhiteSpace t in
        match drop n t with
        | d :: _ => if (d =? RBRACE)%N then Some (1 + n + 1) else None
        | [] => None
        end
      else None
  | [] => None
  end.

(** An opening brace with the white space around it. *)
Definition scan_open_brace : matcher := fun s =>
  let n := span isWhiteSpace s in
  match drop n s with
  | d :: t => if (d =? LBRACE)%N then Some (n + 1 + span isWhiteSpace t) else None
  | [] => None
  end.

(** A semicolon with the white space behind it. *)
Definition scan_semicolon : matcher := fun s =>
  match s with
  | c :: t => if (c =? SEMICOLON)%N then Some (1 + span isWhiteSpace t) else None
  | [] => None
  end.

(** [s.trimStart()], [s.trimEnd()] and [s.trim()]: they strip
    [WhiteSpace] and [LineTerminator], the same class as [\s]. *)
Definition trimStart (s : list N) : list N := drop (span isWhiteSpace s) s.

Fixpoint trimEnd (s : list N) : list N :=
  match s with
  | [] => []
  | c :: t =>
      match trimEnd t with
      | [] => if isWhiteSpace c then [] else [c]
      | t' => c :: t'
      end
  end.

Definition trim (s : list N) : list N := trimEnd (trimStart s).

(** A pattern whose matches lie inside the text and have at least [k]
    code units. *)
Definition bounded (k : nat) (m : matcher) : Prop :=
  forall s n, m s = Some n -> k <= n <= length s.

(** Text in which white space only occurs as single [SPACE]s;
    [after_space] tells that the code unit before [s] is white space. *)
Fixpoint squeezed_from (after_space : bool) (s : list N) : bool :=
  match s with
  | [] => true
  | c :: t =>
      if isWhiteSpace c
      then (c =? SPACE)%N && negb after_space && squeezed_from true t
      else squeezed_from false t
  end.

Definition squeezed (s : list N) : Prop := squeezed_from false s = true.

(** The code units of an ASCII literal. *)
Definition lit (s : string) : list N :=
  (fun a => N_of_ascii a) <$> String.list_ascii_of_string s.

End JsString.

(** * The content digest: [crypto.createHash('md5')...digest('hex')] *)
Module Digest.

Local Open Scope Z_scope.

(** Arithmetic on 32-bit words, kept in [0, 2^32). *)
Definition w32 (x : Z) : Z := x mod 2 ^ 32.
Definition add32 (x y : Z) : Z := w32 (x + y).
Definition not32 (x : Z) : Z := Z.lxor x 0xffffffff.
Definition rotl32 (x c : Z) : Z :=
  w32 (Z.lor (Z.shiftl x c) (Z.shiftr x (32 - c))).

(** The tables of RFC 1321: [T i] is the integer part of
    [2^32 * abs (sin (i + 1))], [S i] the rotation of step [i]. *)
Definition T : list Z :=
  [ 0xd76aa478; 0xe8c7b756; 0x242070db; 0xc1bdceee;
    0xf57c0faf; 0x4787c62a; 0xa8304613; 0xfd469501;
    0x698098d8; 0x8b44f7af; 0xffff5bb1; 0x895cd7be;
    0x6b901122; 0xfd987193; 0xa679438e; 0x49b40821;
    0xf61e2562; 0xc040b340; 0x265e5a51; 0xe9b6c7aa;
    0xd62f105d; 0x02441453; 0xd8a1e681; 0xe7d3fbc8;
    0x21e1cde6; 0xc33707d6; 0xf4d50d87; 0x455a14ed;
    0xa9e3e905; 0xfcefa3f8; 0x676f02d9; 0x8d2a4c8a;
    0xfffa3942; 0x8771f681; 0x6d9d6122; 0xfde5380c;
    0xa4beea44; 0x4bdecfa9; 0xf6bb4b60; 0xbebfbc70;
    0x289b7ec6; 0xeaa127fa; 0xd4ef3085; 0x04881d05;
    0xd9d4d039; 0xe6db99e5; 0x1fa27cf8; 0xc4ac5665;
    0xf4292244; 0x432aff97; 0xab9423a7; 0xfc93a039;
    0x655b59c3; 0x8f0ccc92; 0xffeff47d; 0x85845dd1;
    0x6fa87e4f; 0xfe2ce6e0; 0xa3014314; 0x4e0811a1;
    0xf7537e82; 0xbd3af235; 0x2ad7d2bb; 0xeb86d391 ].

Definition S : list Z :=
  [ 7; 12; 17; 22; 7; 12; 17; 22; 7; 12; 17; 22; 7; 12; 17; 22;
    5;  9; 14; 20; 5;  9; 14; 20; 5;  9; 14; 20; 5;  9; 14; 20;
    4; 11; 16; 23; 4; 11; 16; 23; 4; 11; 16; 23; 4; 11; 16; 23;
    6; 10; 15; 21; 6; 10; 15; 21; 6; 10; 15; 21; 6; 10; 15; 21 ].

(** The four chaining words A, B, C, D. *)
Record state := { wA : Z; wB : Z; wC : Z; wD : Z }.

Definition initial : state :=
  {| wA := 0x67452301; wB := 0xefcdab89; wC := 0x98badcfe; wD := 0x10325476 |}.

(** The auxiliary function of step [i] and the index of the message word
    it reads. *)
Definition aux (i : nat) (b c d : Z) : Z :=
  if (i <? 16)%nat then Z.lor (Z.land b c) (Z.land (not32 b) d)
  else if (i <? 32)%nat then Z.lor (Z.land d b) (Z.land (not32 d) c)
  else if (i <? 48)%nat then Z.lxor (Z.lxor b c) d
  else Z.lxor c (Z.lor b (not32 d)).

Definition word_index (i : nat) : nat :=
  if (i <? 16)%nat then i
  else if (i <? 32)%nat then ((5 * i + 1) mod 16)%nat
  else if (i <? 48)%nat then ((3 * i + 5) mod 16)%nat
  else ((7 * i) mod 16)%nat.

Definition step (X : list Z) (st : state) (i : nat) : state :=
  let f := add32 (add32 (add32 (aux i (wB st) (wC st) (wD st)) (wA st))
                        (nth i T 0))
                 (nth (word_index i) X 0) in
  {| wA := wD st;
     wB := add32 (wB st) (rotl32 f (nth i S 0));
     wC := wB st;
     wD := wC st |}.

(** A 32-bit word from, and to, four bytes, low-order byte first. *)
Definition word_of_bytes (bs : list Z) : Z :=
  nth 0 bs 0 + 2 ^ 8 * nth 1 bs 0 + 2 ^ 16 * nth 2 bs 0 + 2 ^ 24 * nth 3 bs 0.

Definition bytes_of_word (x : Z) : list Z :=
  [ x mod 256; (x / 2 ^ 8) mod 256; (x / 2 ^ 16) mod 256; (x / 2 ^ 24) mod 256 ].

(** The sixteen words of a 64-byte block. *)
Definition words (block : list Z) : list Z :=
  (fun k => word_of_bytes (take 4 (drop (4 * k)%nat block))) <$> seq 0 16.

Definition process_block (st : state) (block : list Z) : state :=
  let r := foldl (step (words block)) st (seq 0 64) in
  {| wA := add32 (wA st) (wA r); wB := add32 (wB st) (wB r);
     wC := add32 (wC st) (wC r); wD := add32 (wD st) (wD r) |}.

(** Padding: a 1 bit, zeros up to 56 modulo 64 bytes, then the length in
    bits as a 64-bit number, low-order byte first. *)
Definition padding (len : nat) : list Z :=
  let zeros := ((64 + 55 - len mod 64) mod 64)%nat in
  let bits := (8 * Z.of_nat len) mod 2 ^ 64 in
  [128] ++ replicate zeros 0 ++
  ((fun k => (bits / 2 ^ (8 * Z.of_nat k)) mod 256) <$> seq 0 8).

Definition blocks (bs : list Z) : list (list Z) :=
  (fun k => take 64 (drop (64 * k)%nat bs)) <$> seq 0 (length bs / 64)%nat.

(** The 16 bytes of the MD5 digest of a byte sequence. *)
Definition md5 (content : list byte) : list Z :=
  let bs := (fun b => Z.of_N (Byte.to_N b)) <$> content in
  let st := foldl process_block initial (blocks (bs ++ padding (length bs))) in
  bytes_of_word (wA st) ++ bytes_of_word (wB st) ++
  bytes_of_word (wC st) ++ bytes_of_word (wD st).

(** [digest('hex')]: two lower-case hexadecimal digits per byte. *)
Definition hex_digit (n : Z) : ascii :=
  if n <? 10 then ascii_of_N (Z.to_N (48 + n)) else ascii_of_N (Z.to_N (87 + n)).

Fixpoint hex (bs : list Z) : string :=
  match bs with
  | [] => EmptyString
  | b :: bs' => String (hex_digit (b / 16)) (String (hex_digit (b mod 16)) (hex bs'))
  end.

(** [crypto.createHash('md5').update(content).digest('hex').substring(0, 8)] *)
Definition content_hash (content : list byte) : string :=
  String.substring 0 8 (hex (md5 content)).

(** The bytes of a literal, and the characters 0-9 and a-f. *)
Definition bytes_of_string (s : string) : list byte :=
  byte_of_ascii <$> String.list_ascii_of_string s.

Definition is_lower_hex (a : ascii) : bool :=
  let n := N_of_ascii a in
  (((48 <=? n) && (n <=? 57)) || ((97 <=? n) && (n <=? 102)))%N.

(** The test suite of RFC 1321, appendix A.5: messages and the 32
    hexadecimal digits of their MD5 digests.  The last two messages
    take two blocks. *)
Definition test_suite : list (string * string) :=
  [ (EmptyString, "d41d8cd98f00b204e9800998ecf8427e");
    ("a", "0cc175b9c0f1b6a831c399e269772661");
    ("abc", "900150983cd24fb0d6963f7d28e17f72");
    ("message digest", "f96b697d7cb7938d525a2f31aaf161d0");
    ("abcdefghijklmnopqrstuvwxyz", "c3fcd3d76192e4007dfb496cca67e13b");
    ("ABCDEFGHIJKLMNOPQRSTUVWXYZabcdefghijklmnopqrstuvwxyz0123456789",
     "d174ab98d277d9f5a5611c2c9f419d9f");
    ("12345678901234567890123456789012345678901234567890123456789012345678901234567890",
     "57edf4a22be3c955ac49da2e2107b67a") ].

End Digest.

(** * A file-system tree *)
Module FS.

(** A directory entry is a regular file with its bytes or a directory
    with its entries, in the order [readdirSync] lists them.  Symbolic
    links and special files are outside the model. *)
#[local] Unset Elimination Schemes.
Inductive node :=
| File (content : list byte)
| Dir (entries : list (string * node)).
#[local] Set Elimination Schemes.

(** A path is its list of components below the working directory:
    ['./dist'] is [["dist"]] and [path.join(p, name)] is [p ++ [name]]. *)
Abbreviation path := (list string) (only parsing).
Abbreviation entries := (list (string * node)) (only parsing).

Fixpoint entry (name : string) (es : list (string * node)) : option node :=
  match es with
  | [] => None
  | (k, n) :: es' => if String.eqb k name then Some n else entry name es'
  end.

(** Replace the entry of that name, or add it at the end. *)
Fixpoint set_entry (name : string) (n : node) (es : list (string * node))
  : list (string * node) :=
  match es with
  | [] => [(name, n)]
  | (k, m) :: es' =>
      if String.eqb k name then (name, n) :: es'
      else (k, m) :: set_entry name n es'
  end.

Fixpoint remove_entry (name : string) (es : list (string * node))
  : list (string * node) :=
  match es with
  | [] => []
  | (k, n) :: es' =>
      if String.eqb k name then remove_entry name es'
      else (k, n) :: remove_entry name es'
  end.

(** The node at a path below the directory with entries [es]; the empty
    path is that directory itself. *)
Fixpoint lookup (p : list string) (es : list (string * node)) : option node :=
  match p with
  | [] => Some (Dir es)
  | x :: p' =>
      match entry x es with
      | Some (Dir sub) => lookup p' sub
      | Some (File c) => match p' with [] => Some (File c) | _ => None end
      | None => None
      end
  end.

(** Put a node at a path whose parent is an existing directory. *)
Fixpoint put (p : list string) (n : node) (es : list (string * node))
  : option (list (string * node)) :=
  match p with
  | [] => None
  | x :: p' =>
      match p' with
      | [] => Some (set_entry x n es)
      | _ =>
          match entry x es with
          | Some (Dir sub) =>
              match put p' n sub with
              | Some sub' => Some (set_entry x (Dir sub') es)
              | None => None
              end
          | _ => None
          end
      end
  end.

(** Remove what is at a path, if anything is. *)
Fixpoint remove (p : list string) (es : list (string * node))
  : list (string * node) :=
  match p with
  | [] => es
  | x :: p' =>
      match p' with
      | [] => remove_entry x es
      | _ =>
          match entry x es with
          | Some (Dir sub) => set_entry x (Dir (remove p' sub)) es
          | _ => es
          end
      end
  end.

(** Make the directory at a path and the missing ones above it;
    [None] when a component is a regular file. *)
Fixpoint mkdirp (p : list string) (es : list (string * node))
  : option (list (string * node)) :=
  match p with
  | [] => Some es
  | x :: p' =>
      match entry x es with
      | Some (File _) => None
      | Some (Dir sub) =>
          match mkdirp p' sub with
          | Some sub' => Some (set_entry x (Dir sub') es)
          | None => None
          end
      | None =>
          match mkdirp p' [] with
          | Some sub' => Some (set_entry x (Dir sub') es)
          | None => None
          end
      end
  end.

(** Well-formed trees: names are unique in a directory and hold no [/]. *)
Definition has_slash (s : string) : bool :=
  existsb (fun a => Ascii.eqb a "/"%char) (String.list_ascii_of_string s).

Fixpoint wf_node (n : node) : bool :=
  match n with
  | File _ => true
  | Dir es =>
      bool_decide (NoDup (fst <$> es)) &&
      forallb (fun e => negb (has_slash (fst e)) && wf_node (snd e)) es
  end.

Definition wf (es : list (string * node)) : Prop := wf_node (Dir es) = true.

End FS.

(** * The build script *)
Module Build.
Import FS JsString.

(** [const BUILD_CONFIG = {...}]: the directories the script reads and
    writes. *)
Definition srcDir : list string := ["src"].
Definition distDir : list string := ["dist"].
Definition cssDir : list string := ["css"].
Definition jsDir : list string := ["js"].

(** What the Node runtime supplies and the script only calls: the UTF-8
    codec behind [readFileSync(p, 'utf8')] and [writeFileSync(p, text)],
    and [JSON.stringify(object, null, 2)] on an object given by its
    properties in insertion order. *)
Class Runtime := {
  utf8_decode : list byte -> list N;
  utf8_encode : list N -> list byte;
  JSON_stringify : list (string * string) -> list byte
}.

(** What a run does to the file system, and the steps it enters. *)
Inductive op :=
| Call (method : string)
| Removed (p : list string)
| MadeDir (p : list string)
| Wrote (p : list string) (content : list byte).

Record state := {
  tree : list (string * node);   (* the working directory *)
  ops : list op
}.

(** A computation reads and changes the state and either throws an
    [Error] with a message or returns a value.  The console output of
    [this.log] is not part of the model. *)
Definition M (A : Type) : Type := state -> (string + A) * state.

Definition ret {A} (a : A) : M A := fun st => (inr a, st).

Definition bind {A B} (m : M A) (f : A -> M B) : M B := fun st =>
  match m st with
  | (inl e, st') => (inl e, st')
  | (inr a, st') => f a st'
  end.

Definition throw {A} (msg : string) : M A := fun st => (inl msg, st).

#[export] Instance M_ret : MRet M := @ret.
#[export] Instance M_bind : MBind M := fun A B f m => bind m f.

(** [try { m } catch (error) { throw new Error(`${prefix}: ${error.message}`) }] *)
Definition rethrow {A} (prefix : string) (m : M A) : M A := fun st =>
  match m st with
  | (inl e, st') => (inl (prefix +:+ ": " +:+ e), st')
  | ok => ok
  end.

(** [for (const x of xs) { body x }] *)
Definition for_each {A} (xs : list A) (body : A -> M unit) : M unit :=
  (fix loop (xs : list A) : M unit :=
     match xs with
     | [] => ret tt
     | x :: xs' => body x ;; loop xs'
     end) xs.

Definition record (o : op) : M unit := fun st =>
  (inr tt, {| tree := tree st; ops := ops st ++ [o] |}).

(** ** The calls into [fs] *)

Definition existsSync (p : list string) : M bool := fun st =>
  (inr (bool_decide (is_Some (lookup p (tree st)))), st).

(** [fs.rmSync(p, { recursive: true, force: true })] *)
Definition rmSync (p : list string) : M unit := fun st =>
  (inr tt, {| tree := remove p (tree st); ops := ops st ++ [Removed p] |}).

(** [fs.mkdirSync(p, { recursive: true })] *)
Definition mkdirSync (p : list string) : M unit := fun st =>
  match mkdirp p (tree st) with
  | Some t => (inr tt, {| tree := t; ops := ops st ++ [MadeDir p] |})
  | None => (inl "EEXIST: file already exists", st)
  end.

(** [fs.readFileSync(p)] *)
Definition readFileSync (p : list string) : M (list byte) := fun st =>
  match lookup p (tree st) with
  | Some (File c) => (inr c, st)
  | Some (Dir _) => (inl "EISDIR: illegal operation on a directory", st)
  | None => (inl "ENOENT: no such file or directory", st)
  end.

(** [fs.writeFileSync(p, content)] *)
Definition writeFileSync (p : list string) (content : list byte) : M unit := fun st =>
  match lookup p (tree st) with
  | Some (Dir _) => (inl "EISDIR: illegal operation on a directory", st)
  | _ =>
      match put p (File content) (tree st) with
      | Some t => (inr tt, {| tree := t; ops := ops st ++ [Wrote p content] |})
      | None => (inl "ENOENT: no such file or directory", st)
      end
  end.

(** [fs.copyFileSync(src, dest)] *)
Definition copyFileSync (src dest : list string) : M unit :=
  content ← readFileSync src; writeFileSync dest content.

(** [fs.readdirSync(p, { withFileTypes: true })] *)
Definition readdirSync (p : list string) : M (list (string * node)) := fun st =>
  match lookup p (tree st) with
  | Some (Dir es) => (inr es, st)
  | Some (File _) => (inl "ENOTDIR: not a directory", st)
  | None => (inl "ENOENT: no such file or directory", st)
  end.

(** ** [class BuildManager] *)

Record options := {
  production : bool;
  verbose_opt : bool;
  clean_opt : bool
}.

Record manager := {
  isProduction : bool;
  verbose : bool;
  clean : bool
}.

(** [constructor(options = {})]; [NODE_ENV] is [process.env.NODE_ENV]. *)
Definition new_BuildManager (o : options) (NODE_ENV : option string) : manager :=
  {| isProduction := production o || bool_decide (NODE_ENV = Some "production");
     verbose := verbose_opt o;
     clean := clean_opt o |}.

(** The options the CLI block reads from [process.argv.slice(2)]. *)
Definition options_of (args : list string) : options :=
  {| production := bool_decide ("--production" ∈ args) || bool_decide ("-p" ∈ args);
     verbose_opt := bool_decide ("--verbose" ∈ args) || bool_decide ("-v" ∈ args);
     clean_opt := negb (bool_decide ("--no-clean" ∈ args)) |}.

Definition minifyCSS (css : list N) : list N :=
  trim
    (replace_g re_semicolon [SEMICOLON]
      (replace_g re_open_brace [LBRACE]
        (replace_g re_semicolon_brace [RBRACE]
          (replace_g re_whitespace [SPACE]
            (replace_g re_block_comment [] css))))).

Definition minifyJS (js : list N) : list N :=
  trim
    (replace_g re_semicolon_brace [RBRACE]
      (replace_g re_whitespace [SPACE]
        (replace_g re_line_comment []
          (replace_g re_block_comment [] js)))).

(** The [{ src, dest }] pairs of [copyStaticFiles]. *)
Definition staticFiles : list (list string * string) :=
  [ (["index.html"], "index.html");
    (["article.html"], "article.html");
    (["compare.html"], "compare.html");
    (["favicon.svg"], "favicon.svg");
    (["manifest.json"], "manifest.json");
    (["robots.txt"], "robots.txt");
    (["sitemap.xml"], "sitemap.xml") ].

(** [path.relative(distDir, fullPath)] for a path below [distDir], given
    by its components below it. *)
Definition relative (rel : list string) : string := String.concat "/" rel.

(** [hashMap[key] = value] on the properties of an object. *)
Fixpoint obj_set (key value : string) (o : list (string * string))
  : list (string * string) :=
  match o with
  | [] => [(key, value)]
  | (k, v) :: o' =>
      if String.eqb k key then (k, value) :: o'
      else (k, v) :: obj_set key value o'
  end.

Definition is_asset (name : string) : bool :=
  endsWith name ".css" || endsWith name ".js".

(** The closure [hashFiles(dir)]: [rel] is [dir] below [distDir], [n]
    the node at [dir]; the walk only reads the tree. *)
Fixpoint hashFiles (rel : list string) (n : node) (hashMap : list (string * string))
  : list (string * string) :=
  match n with
  | File _ => hashMap
  | Dir files =>
      foldl (fun hashMap file =>
               match snd file with
               | Dir _ => hashFiles (rel ++ [fst file]) (snd file) hashMap
               | File content =>
                   if is_asset (fst file)
                   then obj_set (relative (rel ++ [fst file]))
                                (Digest.content_hash content) hashMap
                   else hashMap
               end) hashMap files
  end.

(** The regular files at or below a directory whose name ends in [.css]
    or [.js], each with its path ([rel] is the path of the directory)
    and its bytes. *)
Fixpoint asset_files (rel : list string) (n : node)
  : list (list string * list byte) :=
  match n with
  | File _ => []
  | Dir files =>
      files ≫= fun file =>
        match snd file with
        | Dir _ => asset_files (rel ++ [fst file]) (snd file)
        | File content =>
            if is_asset (fst file) then [(rel ++ [fst file], content)] else []
        end
  end.

(** The property of [hashMap] that [hashFiles] adds for a file. *)
Definition hash_entry (file : list string * list byte) : string * string :=
  (relative (fst file), Digest.content_hash (snd file)).

Section Manager.

Context `{Runtime}.
Variable this : manager.

Definition cleanBuild : M unit :=
  record (Call "cleanBuild") ;;
  if negb (clean this) then ret tt
  else
    rethrow "Failed to clean build directory"
      (found ← existsSync distDir;
       (if found : bool then rmSync distDir else ret tt) ;;
       mkdirSync distDir).

(** The loop of [copyStaticFiles] over its pairs. *)
Definition copy_existing (files : list (list string * string)) : M unit :=
  for_each files (fun file =>
    found ← existsSync (fst file);
    if found : bool then copyFileSync (fst file) (distDir ++ [snd file])
    else ret tt).

Definition copyStaticFiles : M unit :=
  record (Call "copyStaticFiles") ;;
  rethrow "Failed to copy static files" (copy_existing staticFiles).

(** The common shape of [processCSS] and [processJS]. *)
Definition process_text (sourceDir : list string) (sub ext : string)
    (minify : list N -> list N) : M unit :=
  found ← existsSync sourceDir;
  if negb found then ret tt
  else
    let destDir := distDir ++ [sub] in
    mkdirSync destDir ;;
    listing ← readdirSync sourceDir;
    let names := filter (fun name => endsWith name ext = true) (fst <$> listing) in
    for_each names (fun name =>
      bytes ← readFileSync (sourceDir ++ [name]);
      let text := utf8_decode bytes in
      let text := if isProduction this then minify text else text in
      writeFileSync (destDir ++ [name]) (utf8_encode text)).

Definition processCSS : M unit :=
  record (Call "processCSS") ;;
  rethrow "Failed to process CSS" (process_text cssDir "css" ".css" minifyCSS).

Definition processJS : M unit :=
  record (Call "processJS") ;;
  rethrow "Failed to process JavaScript" (process_text jsDir "js" ".js" minifyJS).

(** [copyDirectory(src, dest)] for an existing [src] that holds the node
    [n].  The copy writes below [dest] only, which is not below [src]
    where the script calls it, so reading [src] before the copy or
    during it gives the same. *)
Fixpoint copyDirectory (n : node) (dest : list string) {struct n} : M unit :=
  mkdirSync dest ;;
  match n with
  | File _ => throw "ENOTDIR: not a directory"
  | Dir files =>
      for_each files (fun file =>
        match snd file with
        | Dir _ => copyDirectory (snd file) (dest ++ [fst file])
        | File content => writeFileSync (dest ++ [fst file]) content
        end)
  end.

Definition processSrcFiles : M unit :=
  record (Call "processSrcFiles") ;;
  rethrow "Failed to process source files"
    (fun st =>
       match lookup srcDir (tree st) with
       | None => ret tt st
       | Some n => copyDirectory n (distDir ++ ["src"]) st
       end).

Definition hashesPath : list string := distDir ++ ["hashes.json"].

Definition generateHashes : M unit :=
  record (Call "generateHashes") ;;
  if negb (isProduction this) then ret tt
  else
    rethrow "Failed to generate hashes"
      (hashMap ← (fun st =>
                    match lookup distDir (tree st) with
                    | None => ret [] st
                    | Some (File _) => throw "ENOTDIR: not a directory" st
                    | Some n => ret (hashFiles [] n []) st
                    end);
       writeFileSync hashesPath (JSON_stringify hashMap)).

Definition validateBuild : M unit :=
  record (Call "validateBuild") ;;
  rethrow "Build validation failed"
    (found ← existsSync (distDir ++ ["index.html"]);
     (if found : bool then ret tt
      else throw "Missing required files: index.html") ;;
     distContents ← readdirSync distDir;
     match distContents with
     | [] => throw "Build directory is empty"
     | _ => ret tt
     end).

(** The body of the [try] block of [build]. *)
Definition steps : M unit :=
  cleanBuild ;;
  copyStaticFiles ;;
  processCSS ;;
  processJS ;;
  processSrcFiles ;;
  generateHashes ;;
  validateBuild.

End Manager.

(** How a build ends: the exit status of the process, the file system
    it leaves and what it did. *)
Record outcome := {
  exit_code : nat;
  final : list (string * node);
  log : list op
}.

(** [async build()]: the [catch] calls [process.exit(1)]. *)
Definition build `{Runtime} (this : manager) (fs : list (string * node)) : outcome :=
  match steps this {| tree := fs; ops := [] |} with
  | (inr _, st) => {| exit_code := 0; final := tree st; log := ops st |}
  | (inl _, st) => {| exit_code := 1; final := tree st; log := ops st |}
  end.

(** The CLI block. *)
Definition main `{Runtime} (args : list string) (NODE_ENV : option string)
    (fs : list (string * node)) : outcome :=
  build (new_BuildManager (options_of args) NODE_ENV) fs.

(** Whether a run wrote the file at [p]. *)
Definition wrote (p : list string) (l : list op) : Prop :=
  exists content, Wrote p content ∈ l.

(** The steps a run entered. *)
Definition calls (l : list op) : list string :=
  omap (fun o => match o with Call m => Some m | _ => None end) l.

(** What holds of the state until hash generation starts: the tree is
    well formed, [hashes.json] has not been written and validation has
    not been entered. *)
Definition quiet (o : op) : Prop :=
  o <> Call "validateBuild" /\ forall content, o <> Wrote (distDir ++ ["hashes.json"]) content.

Definition invariant (st : state) : Prop :=
  wf (tree st) /\ Forall quiet (ops st).

Definition keeps {A} (m : M A) : Prop :=
  forall st, invariant st -> invariant (snd (m st)).

End Build.

(** * Vocabulary for the properties of a deploy run *)
Module DeployRun.
Import Deploy.

(** The five steps of [run], in the order it awaits them. *)
Definition all_steps : list string :=
  ["preDeploymentChecks"; "buildProject"; "runTests"; "deploy"; "postDeployment"].

(** Every command a deploy run can start, in the order it starts them. *)
Definition all_commands (this : manager) : list string :=
  ["git branch --show-current"; "git status --porcelain"; "npm ci";
   "npm run build"; "npm test"; deployCommand this].

(** [console.warn] and [console.error] lines. *)
Definition is_diagnostic (e : event) : bool :=
  match e with Warn _ | Err _ => true | _ => false end.

(** What has to hold of the outside for a deploy run to go through. *)
Definition goes_through (w : world) (this : manager) : Prop :=
  exists_ w "./package.json" = true ∧
  is_Some (exec w "npm ci") ∧
  is_Some (exec w "npm run build") ∧
  existsSync w (field buildDir (config this)) = true ∧
  (environment this = "production" → is_Some (exec w "npm test")) ∧
  (exists_ w "./wrangler.toml" = true → is_Some (exec w (deployCommand this))).

End DeployRun.

(** * Changing one directory of a tree *)
Module Surgery.
Import FS.

(** Apply [f] to the entries of the directory at path [p]; a tree that
    has no directory there is left as it is. *)
Fixpoint update (p : list string)
    (f : list (string * node) -> list (string * node))
    (es : list (string * node)) : list (string * node) :=
  match p with
  | [] => f es
  | x :: p' =>
      match entry x es with
      | Some (Dir sub) => set_entry x (Dir (update p' f sub)) es
      | _ => es
      end
  end.

(** Two paths part ways: at some depth their components differ, so
    neither leads to a place at or below the other. *)
Fixpoint diverge (p q : list string) : bool :=
  match p, q with
  | x :: p', y :: q' => if String.eqb x y then diverge p' q' else true
  | _, _ => false
  end.

End Surgery.

(** * Vocabulary for the properties of a build run *)
Module BuildSpec.
Import FS Build.

(** A computation keeps a property of the state, whether it returns or
    throws. *)
Definition preserves {A} (I : state -> Prop) (m : M A) : Prop :=
  forall st, I st -> I (snd (m st)).

(** A mutation of the file system at a path in the output directory;
    entering a step mutates nothing. *)
Definition under_dist (o : op) : Prop :=
  match o with
  | Call _ => True
  | Removed p | MadeDir p | Wrote p _ => exists q, p = "dist" :: q
  end.

(** Everything outside the output directory is as in [fs], and every
    mutation so far was in the output directory. *)
Definition outside (fs : list (string * node)) (st : state) : Prop :=
  (forall z q, z <> "dist" -> lookup (z :: q) (tree st) = lookup (z :: q) fs) /\
  Forall under_dist (ops st).

(** The output directory holds no [index.html], and the one of the
    project is as in [fs]. *)
Definition no_index (fs : list (string * node)) (st : state) : Prop :=
  lookup (distDir ++ ["index.html"]) (tree st) = None /\
  lookup ["index.html"] (tree st) = lookup ["index.html"] fs.

(** The output directory holds exactly the entries [d], and everything
    outside it is as in [fs]. *)
Definition dist_is (fs d : list (string * node)) (st : state) : Prop :=
  lookup distDir (tree st) = Some (Dir d) /\
  forall z q, z <> "dist" -> lookup (z :: q) (tree st) = lookup (z :: q) fs.

Definition is_file (n : option node) : bool :=
  match n with Some (File _) => true | _ => false end.

Definition is_dir (n : option node) : bool :=
  match n with Some (Dir _) => true | _ => false end.

(** What a path holds, apart from the order in which a directory lists
    its entries: nothing, a directory, or a regular file and its bytes. *)
Definition view (n : option node) : option (option (list byte)) :=
  match n with
  | None => None
  | Some (Dir _) => Some None
  | Some (File bytes) => Some (Some bytes)
  end.

(** Entries written one after the other into a directory that holds
    [old]: a later one replaces an earlier one of its name. *)
Definition merge_entries (new old : list (string * node)) : list (string * node) :=
  foldl (fun acc e => set_entry (fst e) (snd e) acc) old new.

(** What a successful clean build leaves in the output directory, read
    off the project [fs] it starts from. *)
Section Expected.
Context `{Runtime}.
Variable this : manager.
Variable fs : list (string * node).

(** The copies of those of the given files that exist. *)
Definition copies (files : list (list string * string)) : list (string * node) :=
  omap (fun file =>
          match lookup (fst file) fs with
          | Some (File c) => Some (snd file, File c)
          | _ => None
          end) files.

(** The bytes [processCSS] and [processJS] write for the bytes they
    read: decoded, minified in production, encoded. *)
Definition processed (minify : list N -> list N) (bytes : list byte) : list byte :=
  let text := utf8_decode bytes in
  utf8_encode (if isProduction this then minify text else text).

(** The processed form of a directory entry: of a regular file whose
    name ends in [ext]. *)
Definition text_entry (ext : string) (minify : list N -> list N)
    (e : string * node) : option (string * node) :=
  if endsWith (fst e) ext then
    match snd e with
    | File bytes => Some (fst e, File (processed minify bytes))
    | Dir _ => None
    end
  else None.

Definition text_part (sourceDir : list string) (sub ext : string)
    (minify : list N -> list N) : list (string * node) :=
  match lookup sourceDir fs with
  | Some (Dir listing) => [(sub, Dir (omap (text_entry ext minify) listing))]
  | _ => []
  end.

Definition src_part : list (string * node) :=
  match lookup srcDir fs with
  | Some (Dir files) => [("src", Dir files)]
  | _ => []
  end.

Definition assets : list (string * node) :=
  copies staticFiles ++
  text_part cssDir "css" ".css" minifyCSS ++
  text_part jsDir "js" ".js" minifyJS ++
  src_part.

Definition hashes_part : list (string * node) :=
  if isProduction this
  then [("hashes.json",
         File (JSON_stringify (hash_entry <$> asset_files [] (Dir assets))))]
  else [].

Definition expected_dist : list (string * node) := assets ++ hashes_part.

(** A source directory of text files is missing, or it is a directory
    in which no name ending in [ext] is itself a directory. *)
Definition text_source_ok (sourceDir : list string) (ext : string) : bool :=
  match lookup sourceDir fs with
  | Some (File _) => false
  | Some (Dir listing) =>
      forallb (fun e => negb (endsWith (fst e) ext && is_dir (Some (snd e)))) listing
  | None => true
  end.

(** The project can be built: [index.html] is a regular file, no static
    file is a directory, [css] and [js] are in order, and [src] is no
    regular file. *)
Definition buildable : bool :=
  is_file (lookup ["index.html"] fs) &&
  forallb (fun file => negb (is_dir (lookup (fst file) fs))) staticFiles &&
  text_source_ok cssDir ".css" &&
  text_source_ok jsDir ".js" &&
  negb (is_file (lookup srcDir fs)).

End Expected.

End BuildSpec.

(** * Vocabulary for the properties of minified text *)
Module TextSpec.
Import JsString.

(** No two adjacent code units of [s] are in the relation [bad]. *)
Fixpoint no_pair (bad : N -> N -> bool) (s : list N) : bool :=
  match s with
  | a :: t => negb (match t with b :: _ => bad a b | [] => false end) && no_pair bad t
  | [] => true
  end.

(** The first, and the last, code unit of [s] is in the class [p]. *)
Definition starts_with (p : N -> bool) (s : list N) : bool :=
  match s with c :: _ => p c | [] => false end.

Definition ends_with (p : N -> bool) (s : list N) : bool :=
  match last s with Some c => p c | None => false end.

(** The pairs [//], [/*] and [*/]. *)
Definition double_slash (a b : N) : bool := ((a =? SLASH) && (b =? SLASH))%N.
Definition comment_open (a b : N) : bool := ((a =? SLASH) && (b =? STAR))%N.
Definition comment_shut (a b : N) : bool := ((a =? STAR) && (b =? SLASH))%N.

(** White space before or after an opening brace, and after a
    semicolon. *)
Definition space_before_brace (a b : N) : bool := isWhiteSpace a && (b =? LBRACE)%N.
Definition space_after_brace (a b : N) : bool := (a =? LBRACE)%N && isWhiteSpace b.
Definition space_after_semicolon (a b : N) : bool := (a =? SEMICOLON)%N && isWhiteSpace b.

End TextSpec.

(** * The setup script *)
Module Setup.
Import FS.

(** The levels of [log]. *)
Inductive level := Info | Success | Warning | Error | Verbose.

(** What a setup run does, in order.  Console lines are kept without
    their pictograph or bullet and without a leading line break. *)
Inductive event :=
| Call (method : string)                      (* a step of [setup] is entered *)
| Exec (cmd : string)                         (* execSync(cmd) *)
| Print (line : string)                       (* console.log *)
| Say (l : level) (message : string)          (* this.log, when it prints *)
| MadeDir (p : list string)                   (* fs.mkdirSync *)
| Wrote (p : list string) (content : string)  (* fs.writeFileSync *)
| Chmod (p : list string) (mode : string).    (* fs.chmodSync *)

(** What the outside answers.  A command prints its output or exits
    with a non-zero status ([None]); either way it may change the
    working directory. *)
Record world := {
  command : string -> list (string * node) -> option string * list (string * node);
  version : string;                           (* process.version *)
  platform : string;                          (* os.platform() *)
  arch : string                               (* os.arch() *)
}.

(** What [JSON.parse] makes of [package.json], as far as the script
    looks at it: a syntax error, [null], or a value with the
    truthiness of the three properties that are read (a value that is
    no object has none of them). *)
Inductive package_json :=
| SyntaxError (message : string)
| Null
| Value (scripts dependencies devDependencies : bool).

(** What the Node runtime supplies and the script only calls. *)
Class Runtime := {
  JSON_parse : list byte -> package_json;     (* on the bytes of the file *)
  Number_toString : Z -> string               (* a number in a template literal *)
}.

Record state := {
  tree : list (string * node);                (* the working directory *)
  trace : list event
}.

Definition M (A : Type) : Type := state -> (string + A) * state.

Definition ret {A} (a : A) : M A := fun st => (inr a, st).

Definition bind {A B} (m : M A) (f : A -> M B) : M B := fun st =>
  match m st with
  | (inl e, st') => (inl e, st')
  | (inr a, st') => f a st'
  end.

Definition throw {A} (msg : string) : M A := fun st => (inl msg, st).

#[export] Instance M_ret : MRet M := @ret.
#[export] Instance M_bind : MBind M := fun A B f m => bind m f.

(** [try { m } catch (error) { h error.message }] *)
Definition try_catch {A} (m : M A) (h : string -> M A) : M A := fun st =>
  match m st with
  | (inl e, st') => h e st'
  | ok => ok
  end.

(** [for (const x of xs) { body x }] *)
Definition for_each {A} (xs : list A) (body : A -> M unit) : M unit :=
  (fix loop (xs : list A) : M unit :=
     match xs with
     | [] => ret tt
     | x :: xs' => body x ;; loop xs'
     end) xs.

Definition emit (e : event) : M unit := fun st =>
  (inr tt, {| tree := tree st; trace := trace st ++ [e] |}).

(** ** Strings *)

Definition LF : string := String "010" "".
Definition TAB : string := String "009" "".
Definition QUOTE : string := String (ascii_of_nat 34) "".

(** The lines of a template literal, each closed by a line break. *)
Definition lines (ls : list string) : string :=
  String.concat "" ((fun l => l +:+ LF) <$> ls).

(** [s] between double quotes. *)
Definition quoted (s : string) : string := QUOTE +:+ s +:+ QUOTE.

(** [s.slice(1)] *)
Definition slice1 (s : string) : string :=
  match s with String _ t => t | EmptyString => EmptyString end.

(** [s.split('.')[0]]: what stands before the first dot. *)
Fixpoint before_dot (s : string) : string :=
  match s with
  | String a t => if Ascii.eqb a "." then EmptyString else String a (before_dot t)
  | EmptyString => EmptyString
  end.

(** The value of a digit below the radix. *)
Definition digit_value (radix : Z) (a : ascii) : option Z :=
  let n := Z.of_nat (nat_of_ascii a) in
  let v := if (48 <=? n)%Z && (n <=? 57)%Z then Some (n - 48)%Z
           else if (97 <=? n)%Z && (n <=? 122)%Z then Some (n - 87)%Z
           else if (65 <=? n)%Z && (n <=? 90)%Z then Some (n - 55)%Z
           else None in
  match v with
  | Some d => if (d <? radix)%Z then Some d else None
  | None => None
  end.

(** The value of the longest prefix of digits; [acc] is the value so
    far, [None] as long as no digit was read. *)
Fixpoint digits (radix : Z) (s : string) (acc : option Z) : option Z :=
  match s with
  | String a t =>
      match digit_value radix a with
      | Some d => digits radix t (Some (radix * default 0 acc + d)%Z)
      | None => acc
      end
  | EmptyString => acc
  end.

(** [parseInt(s)] without a radix, on an ASCII string: leading white
    space, a sign, [0x] or [0X] for radix 16, then digits; [None] is
    [NaN].  The value is kept exact; the script only compares it with
    16. *)
Definition parseInt (s : string) : option Z :=
  let s := trim_left s in
  let '(sign, s) :=
    match s with
    | String "-" t => ((-1)%Z, t)
    | String "+" t => (1%Z, t)
    | _ => (1%Z, s)
    end in
  let '(radix, s) :=
    match s with
    | String "0" (String "x" t) | String "0" (String "X" t) => (16%Z, t)
    | _ => (10%Z, s)
    end in
  (fun v => (sign * v)%Z) <$> digits radix s None.

(** ** The texts the script writes *)

(** [const preCommitHook = `...`] *)
Definition preCommitHook : string :=
  lines [ "#!/bin/sh";
          "# Catipedia pre-commit hook";
          "echo " +:+ quoted "Running pre-commit checks...";
          "";
          "# Check if package.json exists and run lint if available";
          "if [ -f " +:+ quoted "package.json" +:+
            " ] && npm run lint --silent 2>/dev/null; then";
          "  echo " +:+ quoted "Running linter...";
          "  npm run lint";
          "fi";
          "";
          "echo " +:+ quoted "Pre-commit checks completed" ].

(** [const envExample = `...`] *)
Definition envExample : string :=
  lines [ "# Catipedia Environment Variables";
          "NODE_ENV=development";
          "PORT=3000";
          "API_BASE_URL=https://api.catipedia.com";
          "ENABLE_DEBUG=true" ].

(** [const makefileContent = `...`] *)
Definition makefileContent : string :=
  lines [ "# Catipedia Makefile";
          ".PHONY: help build deploy test clean setup";
          "";
          "help:";
          TAB +:+ "@echo " +:+ quoted "Available commands:";
          TAB +:+ "@echo " +:+ quoted "  make setup    - Run setup script";
          TAB +:+ "@echo " +:+ quoted "  make build    - Build the project";
          TAB +:+ "@echo " +:+ quoted "  make deploy   - Deploy the project";
          TAB +:+ "@echo " +:+ quoted "  make test     - Run tests";
          TAB +:+ "@echo " +:+ quoted "  make clean    - Clean build files";
          "";
          "setup:";
          TAB +:+ "node scripts/setup.js --dev";
          "";
          "build:";
          TAB +:+ "node scripts/build.js";
          "";
          "deploy:";
          TAB +:+ "node scripts/deploy.js";
          "";
          "test:";
          TAB +:+ "npm test";
          "";
          "clean:";
          TAB +:+ "rm -rf dist temp logs" ].

(** ** The calls into [fs] *)

(** A regular file stands where the path needs a directory. *)
Fixpoint file_on_path (p : list string) (es : list (string * node)) : bool :=
  match p with
  | [] => false
  | x :: p' =>
      match entry x es with
      | Some (File _) => match p' with [] => false | _ => true end
      | Some (Dir sub) => file_on_path p' sub
      | None => false
      end
  end.

Definition missing (p : list string) (es : list (string * node)) : string :=
  if file_on_path p es then "ENOTDIR: not a directory"
  else "ENOENT: no such file or directory".

Definition existsSync (p : list string) : M bool := fun st =>
  (inr (bool_decide (is_Some (lookup p (tree st)))), st).

(** [fs.mkdirSync(p, { recursive: true })] *)
Definition mkdirSync (p : list string) : M unit := fun st =>
  match mkdirp p (tree st) with
  | Some t => (inr tt, {| tree := t; trace := trace st ++ [MadeDir p] |})
  | None =>
      (inl match lookup p (tree st) with
           | Some (File _) => "EEXIST: file already exists"
           | _ => "ENOTDIR: not a directory"
           end, st)
  end.

(** [fs.writeFileSync(p, content)] for a text of ASCII characters. *)
Definition writeFileSync (p : list string) (content : string) : M unit := fun st =>
  match lookup p (tree st) with
  | Some (Dir _) => (inl "EISDIR: illegal operation on a directory", st)
  | _ =>
      match put p (File (Digest.bytes_of_string content)) (tree st) with
      | Some t => (inr tt, {| tree := t; trace := trace st ++ [Wrote p content] |})
      | None => (inl (missing p (tree st)), st)
      end
  end.

(** [fs.readFileSync(p)] *)
Definition readFileSync (p : list string) : M (list byte) := fun st =>
  match lookup p (tree st) with
  | Some (File c) => (inr c, st)
  | Some (Dir _) => (inl "EISDIR: illegal operation on a directory", st)
  | None => (inl (missing p (tree st)), st)
  end.

(** [fs.chmodSync(p, mode)]; the tree keeps no modes. *)
Definition chmodSync (p : list string) (mode : string) : M unit := fun st =>
  match lookup p (tree st) with
  | Some _ => (inr tt, {| tree := tree st; trace := trace st ++ [Chmod p mode] |})
  | None => (inl (missing p (tree st)), st)
  end.

(** ** [class SetupManager] *)

Record options := {
  verbose_opt : bool;
  skipInstall_opt : bool;
  dev_opt : bool
}.

Record manager := {
  verbose : bool;
  skipInstall : bool;
  dev : bool
}.

(** The options the CLI block reads from [process.argv.slice(2)]. *)
Definition options_of (args : list string) : options :=
  {| verbose_opt := bool_decide ("--verbose" ∈ args) || bool_decide ("-v" ∈ args);
     skipInstall_opt := bool_decide ("--skip-install" ∈ args);
     dev_opt := bool_decide ("--dev" ∈ args) || bool_decide ("-d" ∈ args) |}.

(** [constructor(options = {})] *)
Definition new_SetupManager (o : options) : M manager :=
  emit (Print "Catipedia Setup Manager") ;;
  emit (Print "============================") ;;
  ret {| verbose := verbose_opt o; skipInstall := skipInstall_opt o; dev := dev_opt o |}.

(** The files [createDirectories] makes sure of, as written and as
    paths. *)
Definition directories : list (string * list string) :=
  [ ("./dist", ["dist"]);
    ("./temp", ["temp"]);
    ("./logs", ["logs"]);
    ("./assets/images", ["assets"; "images"]);
    ("./assets/icons", ["assets"; "icons"]) ].

(** The [{ file, required }] records of [runHealthChecks], with the
    path of each file. *)
Definition criticalFiles : list (string * list string * bool) :=
  [ ("package.json", ["package.json"], true);
    ("index.html", ["index.html"], true);
    ("css/style.css", ["css"; "style.css"], false);
    ("js/main.js", ["js"; "main.js"], false);
    ("wrangler.toml", ["wrangler.toml"], false) ].

(** An entry of the array [checks]: the pictograph it starts with,
    and its text. *)
Inductive mark := Found | Missing | Optional.

Section Run.
Context `{Runtime}.
Variable w : world.

(** [execSync(cmd, ...)]: runs the command and throws when it exits
    with a non-zero status.  Where the output of the child goes (the
    [stdio] option) is not part of the model, and the message of the
    error is kept without what the child wrote to its error stream. *)
Definition execSync (cmd : string) : M string := fun st =>
  let '(out, t) := command w cmd (tree st) in
  let st' := {| tree := t; trace := trace st ++ [Exec cmd] |} in
  match out with
  | Some o => (inr o, st')
  | None => (inl ("Command failed: " +:+ cmd), st')
  end.

Variable this : manager.

(** [log(message, level = 'info')] *)
Definition log (message : string) (l : level) : M unit :=
  match l with
  | Verbose => if verbose this then emit (Say Verbose message) else ret tt
  | _ => emit (Say l message)
  end.

Definition checkSystemRequirements : M unit :=
  emit (Call "checkSystemRequirements") ;;
  log "Checking system requirements..." Info ;;
  try_catch
    (let nodeVersion := version w in
     let majorVersion := parseInt (before_dot (slice1 nodeVersion)) in
     (match majorVersion with
      | Some n =>
          if (n <? 16)%Z
          then throw ("Node.js " +:+ Number_toString n +:+
                      " is not supported. Please upgrade to Node.js 16 or higher.")
          else ret tt
      | None => ret tt
      end) ;;
     log ("Node.js version: " +:+ nodeVersion) Verbose ;;
     log ("Platform: " +:+ platform w +:+ " " +:+ arch w) Verbose ;;
     try_catch
       (out ← execSync "npm --version";
        log ("npm version: " +:+ trim out) Verbose)
       (fun _ => throw "npm is not available. Please install npm.") ;;
     try_catch
       (out ← execSync "git --version";
        log (trim out) Verbose)
       (fun _ => log "Git is not available - some features may not work" Warning) ;;
     log "System requirements check passed" Success)
    (fun msg => throw ("System requirements check failed: " +:+ msg)).

(** The body of the loop of [createDirectories]. *)
Definition ensure_directory (dir : string * list string) : M unit :=
  found ← existsSync (snd dir);
  if negb found then
    mkdirSync (snd dir) ;;
    log ("Created directory: " +:+ fst dir) Verbose
  else log ("Directory already exists: " +:+ fst dir) Verbose.

Definition createDirectories : M unit :=
  emit (Call "createDirectories") ;;
  log "Creating necessary directories..." Info ;;
  try_catch
    (for_each directories ensure_directory ;;
     log "Directory structure created" Success)
    (fun msg => throw ("Failed to create directories: " +:+ msg)).

Definition installDependencies : M unit :=
  emit (Call "installDependencies") ;;
  if skipInstall this then log "Skipping dependency installation" Verbose
  else
    log "Installing dependencies..." Info ;;
    try_catch
      (found ← existsSync ["package.json"];
       (if negb found then throw "package.json not found" else ret tt) ;;
       log "Installing production dependencies..." Verbose ;;
       execSync "npm ci --only=production" ;;
       (if dev this then
          log "Installing development dependencies..." Verbose ;;
          execSync "npm ci" ;;
          ret tt
        else ret tt) ;;
       log "Dependencies installed successfully" Success)
      (fun msg => throw ("Failed to install dependencies: " +:+ msg)).

Definition hooksDir : list string := [".git"; "hooks"].

Definition initializeGitHooks : M unit :=
  emit (Call "initializeGitHooks") ;;
  try_catch
    (execSync "git rev-parse --git-dir" ;;
     log "Initializing git hooks..." Info ;;
     found ← existsSync hooksDir;
     (if negb found then mkdirSync hooksDir else ret tt) ;;
     let preCommitPath := hooksDir ++ ["pre-commit"] in
     writeFileSync preCommitPath preCommitHook ;;
     (if negb (String.eqb (platform w) "win32")
      then chmodSync preCommitPath "755" else ret tt) ;;
     log "Git hooks initialized" Success)
    (fun _ => log "Skipping git hooks setup (not a git repository)" Verbose).

Definition createConfigFiles : M unit :=
  emit (Call "createConfigFiles") ;;
  log "Creating configuration files..." Info ;;
  try_catch
    (found ← existsSync [".env.example"];
     (if negb found then
        writeFileSync [".env.example"] envExample ;;
        log "Created .env.example" Verbose
      else ret tt) ;;
     found ← existsSync [".env"];
     (if negb found && dev this then
        writeFileSync [".env"] envExample ;;
        log "Created .env for development" Verbose
      else ret tt) ;;
     found ← existsSync ["Makefile"];
     (if negb found then
        writeFileSync ["Makefile"] makefileContent ;;
        log "Created Makefile" Verbose
      else ret tt) ;;
     log "Configuration files created" Success)
    (fun msg => throw ("Failed to create config files: " +:+ msg)).

(** The loop of [runHealthChecks] over its records; [checks] is the
    array it fills. *)
Fixpoint check_files (files : list (string * list string * bool))
    (checks : list (mark * string)) : M (list (mark * string)) :=
  match files with
  | [] => ret checks
  | (file, p, required) :: files' =>
      found ← existsSync p;
      if found : bool then
        log ("Found: " +:+ file) Verbose ;;
        check_files files' (checks ++ [(Found, file)])
      else if required : bool then
        let checks := checks ++ [(Missing, file +:+ " (required)")] in
        throw ("Required file missing: " +:+ file)
      else
        log ("Missing optional file: " +:+ file) Verbose ;;
        check_files files' (checks ++ [(Optional, file +:+ " (optional)")])
  end.

Definition runHealthChecks : M unit :=
  emit (Call "runHealthChecks") ;;
  log "Running health checks..." Info ;;
  try_catch
    (checks ← check_files criticalFiles [];
     found ← existsSync ["package.json"];
     checks ←
       (if found : bool then
          bytes ← readFileSync ["package.json"];
          match JSON_parse bytes with
          | SyntaxError msg => throw msg
          | Null => throw "Cannot read properties of null (reading 'scripts')"
          | Value scripts dependencies devDependencies =>
              checks ←
                (if scripts then
                   log "Found npm scripts in package.json" Verbose ;; ret checks
                 else ret (checks ++ [(Optional, "No scripts section in package.json")]));
              (if dependencies || devDependencies
               then log "Found dependencies in package.json" Verbose
               else ret tt) ;;
              ret checks
          end
        else ret checks);
     emit (Print "Health Check Results:") ;;
     for_each checks (fun check => emit (Print ("  " +:+ snd check))) ;;
     log "Health checks completed" Success)
    (fun msg => throw ("Health checks failed: " +:+ msg)).

Definition displayNextSteps : M unit :=
  for_each
    [ "Setup completed successfully!";
      "Next steps:";
      "  1. Review the .env file and adjust settings if needed";
      "  2. Run `npm run build` to build the project";
      "  3. Run `npm start` to start the development server (if available)";
      "  4. Run `node scripts/deploy.js` to deploy to your hosting platform";
      "Useful commands:";
      "  make help     - Show available Makefile commands";
      "  make build    - Build the project";
      "  make deploy   - Deploy the project";
      "  make test     - Run tests";
      "Documentation:";
      "  README.md     - Project overview and instructions";
      "  CONTRIBUTING.md - Contribution guidelines" ]
    (fun line => emit (Print line)).

(** The body of the [try] block of [setup].  The elapsed time that the
    last line prints is left out of it. *)
Definition steps : M unit :=
  log "Starting Catipedia setup..." Info ;;
  checkSystemRequirements ;;
  createDirectories ;;
  installDependencies ;;
  initializeGitHooks ;;
  createConfigFiles ;;
  runHealthChecks ;;
  displayNextSteps ;;
  emit (Print "Setup completed").

End Run.

(** How a setup run ends. *)
Record outcome := {
  exit_code : nat;
  final : list (string * node);
  events : list event
}.

(** [async setup()]: the [catch] logs the message and calls
    [process.exit(1)]. *)
Definition setup `{Runtime} (w : world) (this : manager) (st : state) : outcome :=
  match steps w this st with
  | (inr _, st') => {| exit_code := 0; final := tree st'; events := trace st' |}
  | (inl msg, st') =>
      let st'' := snd (log this ("Setup failed: " +:+ msg) Error st') in
      {| exit_code := 1; final := tree st''; events := trace st'' |}
  end.

(** The CLI block. *)
Definition main `{Runtime} (w : world) (args : list string)
    (fs : list (string * node)) : outcome :=
  match new_SetupManager (options_of args) {| tree := fs; trace := [] |} with
  | (inr setupManager, st) => setup w setupManager st
  | (inl msg, st) => {| exit_code := 1; final := tree st; events := trace st |}
  end.

(** The commands and the steps of a trace. *)
Definition commands (t : list event) : list string :=
  omap (fun e => match e with Exec c => Some c | _ => None end) t.

Definition calls (t : list event) : list string :=
  omap (fun e => match e with Call m => Some m | _ => None end) t.

End Setup.


(** * Vocabulary for the properties of a setup run *)
Module SetupSpec.
Import FS Setup.

(** Every event a computation adds to the trace passes the test [P],
    whether the computation returns or throws. *)
Definition adds {A} (P : event -> bool) (m : M A) : Prop :=
  forall st, exists tr, trace (snd (m st)) = trace st ++ tr /\ forallb P tr = true.

(** The tree a computation leaves is related by [R] to the one it
    starts from, whether the computation returns or throws. *)
Definition moves {A} (R : relation (list (string * node))) (m : M A) : Prop :=
  forall st, R (tree st) (tree (snd (m st))).

(** What [log] prints: nothing for a verbose line without
    [--verbose]. *)
Definition said (this : manager) (l : level) (message : string) : list event :=
  match l with
  | Verbose => if verbose this then [Say Verbose message] else []
  | _ => [Say l message]
  end.


Definition is_exec (e : event) : bool :=
  match e with Exec _ => true | _ => false end.

(** A line of the level that [--verbose] switches on. *)
Definition is_verbose (e : event) : bool :=
  match e with Say Verbose _ => true | _ => false end.

(** A change of the file system. *)
Definition is_mutation (e : event) : bool :=
  match e with MadeDir _ | Wrote _ _ | Chmod _ _ => true | _ => false end.

(** From [t] to [t'] nothing was lost and no regular file was made or
    changed: the regular files are the same and what existed exists. *)
Definition only_new_directories (t t' : list (string * node)) : Prop :=
  (forall q c, lookup q t = Some (File c) <-> lookup q t' = Some (File c)) /\
  (forall q, is_Some (lookup q t) -> is_Some (lookup q t')).




(** The first required file of the list that does not exist. *)
Fixpoint first_missing (t : list (string * node))
    (files : list (string * list string * bool)) : option string :=
  match files with
  | [] => None
  | (file, p, required) :: files' =>
      if required && negb (bool_decide (is_Some (lookup p t))) then Some file
      else first_missing t files'
  end.

(** The steps [setup] goes through, in order. *)
Definition all_steps : list string :=
  [ "checkSystemRequirements"; "createDirectories"; "installDependencies";
    "initializeGitHooks"; "createConfigFiles"; "runHealthChecks" ].

(** The tree with a regular file of the given bytes under the
    top-level name, if that name is free and there are bytes to put. *)
Definition add_file (name : string) (content : option (list byte))
    (t : list (string * node)) : list (string * node) :=
  match lookup [name] t, content with
  | None, Some c => set_entry name (File c) t
  | _, _ => t
  end.

(** The bytes [createConfigFiles] puts under a top-level name that is
    free. *)
Definition config_file (this : manager) (name : string) : option (list byte) :=
  if String.eqb name ".env.example" then Some (Digest.bytes_of_string envExample)
  else if String.eqb name ".env" then
    if dev this then Some (Digest.bytes_of_string envExample) else None
  else if String.eqb name "Makefile" then Some (Digest.bytes_of_string makefileContent)
  else None.

(** A string of decimal digits. *)
Definition is_digit (a : ascii) : bool :=
  let n := nat_of_ascii a in (48 <=? n)%nat && (n <=? 57)%nat.

Fixpoint all_digits (s : string) : bool :=
  match s with
  | String a t => is_digit a && all_digits t
  | EmptyString => true
  end.

(** The version string of Node.js release [major.minor.patch]. *)
Definition node_version (major minor patch : N) : string :=
  "v" +:+ pretty major +:+ "." +:+ pretty minor +:+ "." +:+ pretty patch.

End SetupSpec.

(** * A small project to run the setup on *)
Module SetupExample.
Import FS Setup.

(** A runtime that reads every non-empty file as a manifest with
    scripts and dependencies, and prints numbers in decimal. *)
Definition plain_runtime : Runtime :=
  {| JSON_parse := fun bytes =>
       match bytes with
       | [] => SyntaxError "Unexpected end of JSON input"
       | _ => Value true true false
       end;
     Number_toString := fun n => pretty n |}.

(** A machine on which every command succeeds and changes nothing. *)
Definition machine (v : string) : world :=
  {| command := fun _ t => (Some "10.2.4", t);
     version := v;
     platform := "linux";
     arch := "x64" |}.

Definition site : list (string * node) :=
  [ ("package.json", File (Digest.bytes_of_string "{}"));
    ("index.html", File (Digest.bytes_of_string "<html></html>"));
    (".env.example", File (Digest.bytes_of_string "PORT=8080")) ].

Definition developer : manager :=
  {| verbose := false; skipInstall := false; dev := true |}.

Definition start : state := {| tree := site; trace := [] |}.

End SetupExample.

(** * A small project to run the scripts on *)
Module Example.
Import FS Build.

(** A runtime for ASCII text: one code unit per byte, and the layout of
    [JSON.stringify(o, null, 2)] for keys and values that need no
    escaping. *)
Definition QUOTE : string := String (ascii_of_nat 34) EmptyString.

Definition json_property (kv : string * string) : string :=
  "  " +:+ QUOTE +:+ fst kv +:+ QUOTE +:+ ": " +:+ QUOTE +:+ snd kv +:+ QUOTE.

Definition json_object (o : list (string * string)) : string :=
  match o with
  | [] => "{}"
  | _ => "{" +:+ String "010" (String.concat ("," +:+ String "010" "") (json_property <$> o))
             +:+ String "010" "}"
  end.

Definition ascii_runtime : Runtime :=
  {| utf8_decode := fun bs => (fun b => Byte.to_N b) <$> bs;
     utf8_encode := fun cs => (fun c => default "?"%byte (Byte.of_N c)) <$> cs;
     JSON_stringify := fun o => Digest.bytes_of_string (json_object o) |}.

Definition text (s : string) : node := File (Digest.bytes_of_string s).

Definition project : list (string * node) :=
  [ ("index.html", text "<html></html>");
    ("css", Dir [ ("site.css", text "/* layout */ body  {  margin : 0 ; }");
                  ("notes.txt", text "not a stylesheet") ]);
    ("js", Dir [ ("app.js", text "var n = 1; // counter") ]);
    ("src", Dir [ ("lib", Dir [ ("util.js", text "export {}") ]) ]);
    ("dist", Dir [ ("stale.js", text "old") ]) ].

Definition production_manager : manager :=
  {| isProduction := true; verbose := false; clean := true |}.

(** The state in which the copier starts: the output directory has just
    been cleaned. *)
Definition cleaned : state :=
  snd (cleanBuild production_manager {| tree := project; ops := [] |}).

End Example.

(** * Properties of the deploy script *)
Module DeployProofs.
Import Deploy.

Lemma bind_events {A B} (m : M A) (f : A -> M B) :
  fst (m ≫= f) = fst m ++ match snd m with inr a => fst (f a) | inl _ => [] end.
Proof.
  destruct m as [t [e|a]]; simpl; [by rewrite app_nil_r|]. by destruct (f a).
Qed.

Lemma bind_result {A B} (m : M A) (f : A -> M B) :
  snd (m ≫= f) = match snd m with inr a => snd (f a) | inl e => inl e end.
Proof. destruct m as [t [e|a]]; simpl; [done|]. by destruct (f a). Qed.

Lemma catch_events {A} (m : M A) (h : string -> M A) :
  fst (try_catch m h) = fst m ++ match snd m with inl e => fst (h e) | inr _ => [] end.
Proof.
  destruct m as [t [e|a]]; simpl; [by destruct (h e)|by rewrite app_nil_r].
Qed.

Lemma catch_result {A} (m : M A) (h : string -> M A) :
  snd (try_catch m h) = match snd m with inl e => snd (h e) | inr a => inr a end.
Proof. destruct m as [t [e|a]]; simpl; [by destruct (h e)|done]. Qed.

Lemma commands_app t1 t2 : commands (t1 ++ t2) = commands t1 ++ commands t2.
Proof. apply omap_app. Qed.

Lemma calls_app t1 t2 : calls (t1 ++ t2) = calls t1 ++ calls t2.
Proof. apply omap_app. Qed.

Ltac step_simpl :=
  repeat progress
    (rewrite ?bind_events, ?bind_result, ?catch_events, ?catch_result,
             ?commands_app, ?calls_app;
     cbn [fst snd emit ret throw app]).

Ltac split_match :=
  match goal with
  | |- context [exec ?w ?c] => destruct (exec w c) eqn:?
  | |- context [exists_ ?w ?p] => destruct (exists_ w p) eqn:?
  | |- context [existsSync ?w ?p] => destruct (existsSync w p) eqn:?
  | |- context [decide ?P] => destruct (decide P)
  end.

Ltac step_cases := repeat (step_simpl; try split_match); simplify_eq/=; try done.

Lemma preDeploymentChecks_result w this :
  snd (preDeploymentChecks w this) =
    if exists_ w "./package.json" then inr tt
    else inl "package.json not found in current directory".
Proof. unfold preDeploymentChecks, execSync. step_cases. Qed.

Lemma preDeploymentChecks_calls w this :
  calls (fst (preDeploymentChecks w this)) = ["preDeploymentChecks"].
Proof. unfold preDeploymentChecks, execSync. step_cases. Qed.

Lemma preDeploymentChecks_commands w this :
  commands (fst (preDeploymentChecks w this)) =
    ["git branch --show-current"; "git status --porcelain"].
Proof. unfold preDeploymentChecks, execSync. step_cases. Qed.

Lemma buildProject_calls w this :
  calls (fst (buildProject w this)) = ["buildProject"].
Proof. unfold buildProject, execSync. step_cases. Qed.

Lemma buildProject_commands w this :
  commands (fst (buildProject w this)) ⊆ ["npm ci"; "npm run build"].
Proof.
  unfold buildProject, execSync.
  step_cases; intros c; rewrite !elem_of_cons; tauto.
Qed.

Lemma runTests_calls w this :
  calls (fst (runTests w this)) = ["runTests"].
Proof. unfold runTests, execSync. step_cases. Qed.

Lemma runTests_result w this :
  snd (runTests w this) =
    match exec w "npm test" with
    | Some _ => inr tt
    | None => if decide (environment this = "production")
              then inl "Tests failed: Command failed: npm test" else inr tt
    end.
Proof. unfold runTests, execSync. step_cases. Qed.

Lemma deploy_calls w this : calls (fst (deploy w this)) = ["deploy"].
Proof. unfold deploy, execSync. step_cases. Qed.

Lemma postDeployment_calls :
  calls (fst postDeployment) = ["postDeployment"].
Proof. unfold postDeployment. step_cases. Qed.

Lemma steps_calls w this :
  calls (fst (steps w this)) =
    "preDeploymentChecks" ::
    match snd (preDeploymentChecks w this) with
    | inl _ => []
    | inr _ =>
        "buildProject" ::
        match snd (buildProject w this) with
        | inl _ => []
        | inr _ =>
            "runTests" ::
            match snd (runTests w this) with
            | inl _ => []
            | inr _ =>
                "deploy" ::
                match snd (deploy w this) with
                | inl _ => []
                | inr _ => ["postDeployment"]
                end
            end
        end
    end.
Proof.
  unfold steps. rewrite bind_events, calls_app, preDeploymentChecks_calls.
  destruct (snd (preDeploymentChecks w this)); [done|].
  rewrite bind_events, calls_app, buildProject_calls.
  destruct (snd (buildProject w this)); [done|].
  rewrite bind_events, calls_app, runTests_calls.
  destruct (snd (runTests w this)); [done|].
  rewrite bind_events, calls_app, deploy_calls.
  destruct (snd (deploy w this)); [done|].
  rewrite bind_events, calls_app, postDeployment_calls.
  destruct (snd postDeployment); [done|].
  by step_simpl.
Qed.


Lemma steps_commands w this :
  commands (fst (steps w this)) =
    commands (fst (preDeploymentChecks w this)) ++
    match snd (preDeploymentChecks w this) with
    | inl _ => []
    | inr _ =>
        commands (fst (buildProject w this)) ++
        match snd (buildProject w this) with
        | inl _ => []
        | inr _ =>
            "npm test" ::
            match snd (runTests w this) with
            | inl _ => []
            | inr _ => commands (fst (deploy w this))
            end
        end
    end.
Proof.
  unfold steps. rewrite bind_events, commands_app.
  destruct (snd (preDeploymentChecks w this)); [done|]. f_equal.
  rewrite bind_events, commands_app.
  destruct (snd (buildProject w this)); [done|]. f_equal.
  rewrite bind_events, commands_app.
  assert (commands (fst (runTests w this)) = ["npm test"]) as ->.
  { unfold runTests, execSync. step_cases. }
  cbn [app]. f_equal.
  destruct (snd (runTests w this)); [done|].
  rewrite bind_events, commands_app.
  destruct (snd (deploy w this)); [by rewrite app_nil_r|].
  rewrite bind_events, commands_app.
  assert (commands (fst postDeployment) = []) as -> by done.
  destruct (snd postDeployment); [by rewrite app_nil_r|].
  by rewrite app_nil_r.
Qed.

Lemma new_DeploymentManager_eq env :
  new_DeploymentManager env =
    if falsy (CONFIG_get env) then ([], inl ("Invalid environment: " +:+ env))
    else ([Log ("Initializing deployment for " +:+ env +:+ " environment")],
          inr {| environment := env; config := CONFIG_get env |}).
Proof. unfold new_DeploymentManager. by destruct (falsy _). Qed.

Lemma run_trace w this :
  ∃ t, trace (run w this) = fst (steps w this) ++ t ∧ calls t = [] ∧ commands t = [].
Proof.
  unfold run. destruct (steps w this) as [t [msg|[]]]; simpl.
  - by eexists.
  - exists []. by rewrite app_nil_r.
Qed.

Lemma run_exit_code w this :
  exit_code (run w this) = match snd (steps w this) with inl _ => 1 | inr _ => 0 end.
Proof. unfold run. by destruct (steps w this) as [t [msg|[]]]. Qed.

Lemma steps_result w this :
  snd (steps w this) =
    match snd (preDeploymentChecks w this) with
    | inl e => inl e
    | inr _ =>
        match snd (buildProject w this) with
        | inl e => inl e
        | inr _ =>
            match snd (runTests w this) with
            | inl e => inl e
            | inr _ =>
                match snd (deploy w this) with
                | inl e => inl e
                | inr _ => inr tt
                end
            end
        end
    end.
Proof.
  unfold steps. rewrite bind_result.
  destruct (snd (preDeploymentChecks w this)); [done|]. rewrite bind_result.
  destruct (snd (buildProject w this)); [done|]. rewrite bind_result.
  destruct (snd (runTests w this)); [done|]. rewrite bind_result.
  destruct (snd (deploy w this)); [done|]. by step_simpl.
Qed.

Lemma steps_events_runTests w this u u' :
  snd (preDeploymentChecks w this) = inr u →
  snd (buildProject w this) = inr u' →
  ∃ t0 t1, fst (steps w this) = t0 ++ fst (runTests w this) ++ t1.
Proof.
  intros Hpre Hbuild. unfold steps.
  rewrite bind_events, Hpre, bind_events, Hbuild, bind_events.
  eexists (_ ++ _), _. by rewrite <-app_assoc.
Qed.

Lemma runTests_warns w this :
  exec w "npm test" = None →
  environment this ≠ "production" →
  Warn "Tests failed, but continuing deployment for non-production environment"
    ∈ fst (runTests w this).
Proof.
  intros Hfail Henv. unfold runTests, execSync.
  step_simpl. rewrite Hfail. step_simpl.
  destruct (decide _); [done|]. cbn. set_solver.
Qed.

(** Claim C3.  In a deploy run in which the test command is started and
    exits with a non-zero status: for the production environment the
    deployment step is not entered and the process ends with status 1;
    for any other environment the failure is reported with
    [console.warn] and the deployment step is entered. *)
Theorem failed_tests_gate_deployment (w : world) (args : list string) :
  "npm test" ∈ commands (trace (main w args)) →
  exec w "npm test" = None →
  (environment_of args = "production" →
     ("deploy" ∉ calls (trace (main w args))) ∧ exit_code (main w args) = 1) ∧
  (environment_of args ≠ "production" →
     Warn "Tests failed, but continuing deployment for non-production environment"
       ∈ trace (main w args) ∧
     "deploy" ∈ calls (trace (main w args))).
Proof.
  intros Hran Hfail. unfold main in *.
  rewrite new_DeploymentManager_eq in *.
  destruct (falsy _).
  { cbn in Hran. by apply elem_of_nil in Hran. }
  set (this := {| environment := environment_of args; config := _ |}) in *.
  destruct (run_trace w this) as (t & Ht & Hcalls & Hcmds).
  cbn [trace exit_code] in *. rewrite Ht in *. clear Ht.
  rewrite run_exit_code, steps_result.
  rewrite !commands_app, steps_commands, Hcmds in Hran.
  rewrite !calls_app, steps_calls, Hcalls.
  pose proof (runTests_result w this) as Htests. rewrite Hfail in Htests.
  pose proof (preDeploymentChecks_commands w this) as Hpc.
  pose proof (buildProject_commands w this) as Hbc.
  pose proof (steps_events_runTests w this) as Hev.
  pose proof (runTests_warns w this Hfail) as Hwarn.
  cbn [calls commands omap app] in *. rewrite Hpc in Hran. clear Hpc.
  destruct (snd (preDeploymentChecks w this)) as [e|u].
  { exfalso. set_unfold. intuition discriminate. }
  destruct (snd (buildProject w this)) as [e|u'].
  { assert ("npm test" ∉ commands (buildProject w this).1) as Hno.
    { intros H. apply Hbc in H. set_unfold. intuition discriminate. }
    exfalso. set_unfold. intuition discriminate. }
  clear Hran Hbc. rewrite Htests.
  destruct (Hev u u') as (t0 & t1 & ->); [done..|]. clear Hev.
  change (environment this) with (environment_of args) in *.
  split; intros Henv; destruct (decide _); try done.
  - split; [|done]. cbn. set_unfold. intuition discriminate.
  - split; [|cbn; set_solver].
    specialize (Hwarn Henv). set_solver.
Qed.

Lemma failed_tests_gate_deployment_witness :
  let w := {| exec := fun c => if String.eqb c "npm test" then None else Some "";
              exists_ := fun _ => true |} in
  (("deploy" ∉ calls (trace (main w ["production"]))) ∧
   exit_code (main w ["production"]) = 1) ∧
  "deploy" ∈ calls (trace (main w ["staging"])).
Proof.
  intros w. split.
  - apply (failed_tests_gate_deployment w ["production"]); [|reflexivity..].
    vm_compute. set_solver.
  - apply (failed_tests_gate_deployment w ["staging"]); [|reflexivity|discriminate].
    vm_compute. set_solver.
Defined.

Lemma steps_events_buildProject w this u :
  snd (preDeploymentChecks w this) = inr u →
  ∃ t1, fst (steps w this) =
          fst (preDeploymentChecks w this) ++ fst (buildProject w this) ++ t1.
Proof.
  intros Hpre. unfold steps. rewrite bind_events, Hpre, bind_events. by eexists.
Qed.

Lemma buildProject_starts w this :
  ∃ t, fst (buildProject w this) =
         [Call "buildProject"; Log "Building project...";
          Log "Installing dependencies..."; Exec "npm ci"] ++ t.
Proof.
  unfold buildProject, execSync. step_simpl.
  rewrite <-!app_assoc. cbn [app]. by eexists.
Qed.

(** Finds a console message in the trace of a step, by cases on what the
    commands answer; [Hout] is the answer that is known. *)
Ltac reported Hout :=
  repeat (step_simpl; rewrite ?Hout; try split_match);
  simplify_eq/=; try done;
  rewrite ?elem_of_app, ?elem_of_cons; tauto.

(** Claim C8.  The source-control checks never abort a deploy run:
    whatever the two git commands answer, the pre-deployment step
    completes exactly when [package.json] is present, and then the build
    step is entered and starts [npm ci].  A branch mismatch and a dirty
    working tree are reported with [console.warn], a failing git command
    with [console.error]; none of them is thrown. *)
Theorem source_control_checks_never_abort (w : world) (this : manager) :
  snd (preDeploymentChecks w this) =
    (if exists_ w "./package.json" then inr ()
     else inl "package.json not found in current directory") ∧
  (exists_ w "./package.json" = true →
     "buildProject" ∈ calls (trace (run w this)) ∧
     "npm ci" ∈ commands (trace (run w this))) ∧
  (∀ out, exec w "git branch --show-current" = Some out →
          Some (trim out) ≠ field branch (config this) →
          Warn ("Warning: Current branch '" +:+ trim out +:+
                "' doesn't match target branch '" +:+
                show (field branch (config this)) +:+ "'")
            ∈ fst (preDeploymentChecks w this)) ∧
  (exec w "git branch --show-current" = None →
   Err "Failed to check git branch: Command failed: git branch --show-current"
     ∈ fst (preDeploymentChecks w this)) ∧
  (∀ out, exec w "git status --porcelain" = Some out → trim out ≠ "" →
          Warn "Warning: You have uncommitted changes"
            ∈ fst (preDeploymentChecks w this)) ∧
  (exec w "git status --porcelain" = None →
   Err "Failed to check git status: Command failed: git status --porcelain"
     ∈ fst (preDeploymentChecks w this)).
Proof.
  split; [apply preDeploymentChecks_result|]. split.
  { intros Hpkg.
    assert (snd (preDeploymentChecks w this) = inr ()) as Hpre.
    { by rewrite preDeploymentChecks_result, Hpkg. }
    destruct (run_trace w this) as (t & -> & _ & _).
    destruct (steps_events_buildProject w this () Hpre) as [t1 ->].
    destruct (buildProject_starts w this) as [t2 ->].
    split.
    - rewrite !calls_app. cbn. rewrite !elem_of_app, !elem_of_cons. tauto.
    - rewrite !commands_app. cbn. rewrite !elem_of_app, !elem_of_cons. tauto. }
  unfold preDeploymentChecks, execSync.
  split; [|split; [|split]].
  - intros out Hout Hne. reported Hout.
  - intros Hout. reported Hout.
  - intros out Hout Hne. reported Hout.
  - intros Hout. reported Hout.
Qed.

Lemma source_control_checks_never_abort_witness :
  let w := {| exec := fun c => if String.eqb c "git branch --show-current" then None
                               else Some " M index.html";
              exists_ := fun _ => true |} in
  let this := {| environment := "staging"; config := CONFIG_get "staging" |} in
  snd (preDeploymentChecks w this) = inr () ∧
  "buildProject" ∈ calls (trace (run w this)).
Proof.
  intros w this.
  destruct (source_control_checks_never_abort w this) as (H1 & H2 & _).
  split; [exact H1|]. by destruct H2.
Defined.

(** Claim C2, at the input where the code departs from it.  The name
    [constructor] is not one of development, staging, production, yet
    [CONFIG["constructor"]] is the inherited [Object.prototype.constructor],
    which is truthy: the constructor of [DeploymentManager] does not
    throw and the run starts both git commands, in every world. *)
Theorem inherited_name_reaches_commands (w : world) :
  ("constructor" ∉ ["development"; "staging"; "production"]) ∧
  ["git branch --show-current"; "git status --porcelain"]
    `prefix_of` commands (trace (main w ["constructor"])).
Proof.
  split; [set_unfold; intuition discriminate|].
  unfold main. rewrite new_DeploymentManager_eq. cbn [environment_of].
  destruct (decide _); [done|].
  change (falsy (CONFIG_get "constructor")) with false. cbn iota.
  set (this := {| environment := _ |}).
  destruct (run_trace w this) as (t & Ht & _ & _).
  cbn [trace]. rewrite Ht, !commands_app, steps_commands,
    preDeploymentChecks_commands.
  cbn. by eexists.
Qed.

Lemma unknown_environment_exits_early (w : world) (args : list string) :
  CONFIG_get (environment_of args) = Undefined →
  commands (trace (main w args)) = [] ∧ exit_code (main w args) = 1.
Proof.
  intros Hget. unfold main. rewrite new_DeploymentManager_eq, Hget. done.
Qed.

Lemma environment_defaults_to_development (w : world) :
  environment_of [] = "development" ∧ main w [] = main w ["development"].
Proof. done. Qed.

Lemma member_spec k l : member k l = true ↔ k ∈ l.
Proof.
  unfold member. induction l as [|x l IH]; simpl.
  - split; [done|]. by intros ?%elem_of_nil.
  - rewrite orb_true_iff, IH, elem_of_cons.
    by destruct (String.eqb_spec k x); intuition.
Qed.

Lemma CONFIG_get_undefined env :
  env ∉ ["development"; "staging"; "production"] →
  env ∉ Object_prototype →
  CONFIG_get env = Undefined.
Proof.
  intros Hown Hproto. unfold CONFIG_get, CONFIG. cbn [assoc].
  repeat match goal with
    | |- context [String.eqb env ?k] =>
        destruct (String.eqb_spec env k) as [->|?];
        [exfalso; apply Hown; repeat constructor|]
    end.
  destruct (member env Object_prototype) eqn:Hm; [|done].
  apply member_spec in Hm. by destruct Hproto.
Qed.

End DeployProofs.

(** * Properties of the text transforms *)
Module TextProofs.
Import JsString Build.

Lemma replace_g_nil m r :
  replace_g m r [] = match m [] with Some _ => r | None => [] end.
Proof. simp replace_g. by destruct (m []). Qed.

Lemma replace_g_cons m r c t :
  replace_g m r (c :: t) =
    match m (c :: t) with
    | Some 0 => r ++ c :: replace_g m r t
    | Some (S n) => r ++ replace_g m r (drop n t)
    | None => c :: replace_g m r t
    end.
Proof. simp replace_g. by destruct (m (c :: t)) as [[|n]|]. Qed.

Lemma span_le p s : span p s ≤ length s.
Proof. induction s as [|c t IH]; simpl; [lia|]. destruct (p c); simpl; lia. Qed.

Lemma comment_end_le s n : comment_end s = Some n → n ≤ length s.
Proof.
  revert n. induction s as [|c t IH]; intros n; simpl; [done|].
  destruct t as [|d t']; [done|].
  destruct (_ && _)%bool.
  - intros [= <-]. simpl. lia.
  - destruct (comment_end (d :: t')) as [k|]; [|done].
    intros [= <-]. specialize (IH k eq_refl). simpl in *. lia.
Qed.

Lemma span_drop_head p s :
  match drop (span p s) s with c :: _ => p c = false | [] => True end.
Proof.
  induction s as [|c t IH]; simpl; [done|].
  destruct (p c) eqn:Hc; simpl; [done|by rewrite Hc].
Qed.

(** *** The patterns match what the scanners read *)

Lemma greedy_blocked p k s :
  (∀ x t, p x = true → k (x :: t) = None) →
  greedy p k s = k (drop (span p s) s).
Proof.
  intros Hk. induction s as [|c t IH]; [done|]. simpl.
  destruct (p c) eqn:Hc; [|done]. simpl. rewrite IH.
  destruct (k (drop (span p t) t)); [done|]. by apply Hk.
Qed.

Lemma greedy_Some p s : greedy p Some s = Some (drop (span p s) s).
Proof.
  induction s as [|c t IH]; [done|]. simpl.
  destruct (p c); [|done]. simpl. by rewrite IH.
Qed.

Lemma comment_close s :
  backtrack (Char STAR) (backtrack (Char SLASH) Some) s =
    match s with
    | c :: d :: t => if ((c =? STAR) && (d =? SLASH))%N then Some t else None
    | _ => None
    end.
Proof.
  destruct s as [|c [|d t]]; cbn; [done|by destruct (c =? STAR)%N|].
  by destruct (c =? STAR)%N.
Qed.

Lemma lazy_any_comment_end s :
  lazy any (backtrack (Char STAR) (backtrack (Char SLASH) Some)) s =
    (λ n, drop n s) <$> comment_end s.
Proof.
  generalize comment_close.
  generalize (backtrack (Char STAR) (backtrack (Char SLASH) Some)).
  intros k Hk. induction s as [|c t IH]; cbn [lazy comment_end any].
  - by rewrite Hk.
  - rewrite Hk, IH. destruct t as [|d t']; [done|].
    destruct (_ && _)%bool; [done|]. by destruct (comment_end (d :: t')).
Qed.

Lemma WhiteSpace_not x c : isWhiteSpace x = true → isWhiteSpace c = false → (x =? c)%N = false.
Proof. intros Hx Hc. destruct (N.eqb_spec x c) as [->|]; congruence. Qed.

Lemma length_drop_sub {A} n (s : list A) :
  n ≤ length s → length s - length (drop n s) = n.
Proof. intros Hn. rewrite length_drop. lia. Qed.

Lemma re_block_comment_scan s : re_block_comment s = scan_block_comment s.
Proof.
  unfold re_block_comment, compile, scan_block_comment.
  destruct s as [|c [|d t]]; cbn [backtrack]; [done|by destruct (c =? SLASH)%N|].
  destruct (c =? SLASH)%N; [|done]. destruct (d =? STAR)%N; [|done]. cbn [andb].
  rewrite lazy_any_comment_end.
  destruct (comment_end t) as [n|] eqn:Hn; [|done].
  apply comment_end_le in Hn. cbn. rewrite length_drop. f_equal. lia.
Qed.

Lemma re_line_comment_scan s : re_line_comment s = scan_line_comment s.
Proof.
  unfold re_line_comment, compile, scan_line_comment.
  destruct s as [|c [|d t]]; cbn [backtrack]; [done|by destruct (c =? SLASH)%N|].
  destruct (c =? SLASH)%N; [|done]. destruct (d =? SLASH)%N; [|done]. cbn [andb].
  rewrite greedy_blocked.
  - pose proof (span_drop_head notLineTerminator t) as Hhead.
    pose proof (span_le notLineTerminator t).
    destruct (drop (span notLineTerminator t) t) as [|x rest] eqn:Hd.
    + cbn. apply (f_equal length) in Hd. rewrite length_drop in Hd.
      cbn in Hd. f_equal. lia.
    + unfold notLineTerminator in Hhead at 1. apply negb_false_iff in Hhead.
      rewrite Hhead. cbn [fmap option_fmap option_map].
      rewrite <-Hd, length_drop. cbn [length]. f_equal. lia.
  - intros x t' Hx. unfold notLineTerminator in Hx.
    apply negb_true_iff in Hx. by rewrite Hx.
Qed.

Lemma re_whitespace_scan s : re_whitespace s = scan_whitespace s.
Proof.
  unfold re_whitespace, compile, scan_whitespace.
  destruct s as [|c t]; [done|]. cbn [backtrack span].
  destruct (isWhiteSpace c); [|done]. rewrite greedy_Some.
  pose proof (span_le isWhiteSpace t).
  cbn. rewrite length_drop. f_equal. lia.
Qed.

Lemma re_semicolon_brace_scan s : re_semicolon_brace s = scan_semicolon_brace s.
Proof.
  unfold re_semicolon_brace, compile, scan_semicolon_brace.
  destruct s as [|c t]; [done|]. cbn [backtrack].
  destruct (c =? SEMICOLON)%N; [|done]. rewrite greedy_blocked.
  - pose proof (span_le isWhiteSpace t).
    destruct (drop (span isWhiteSpace t) t) as [|x rest] eqn:Hd; [done|].
    destruct (x =? RBRACE)%N; [|done].
    apply (f_equal length) in Hd. rewrite length_drop in Hd.
    cbn in Hd |- *. f_equal. lia.
  - intros x t' Hx. by rewrite (WhiteSpace_not x RBRACE).
Qed.

Lemma re_open_brace_scan s : re_open_brace s = scan_open_brace s.
Proof.
  unfold re_open_brace, compile, scan_open_brace. cbn [backtrack].
  rewrite greedy_blocked.
  - pose proof (span_le isWhiteSpace s).
    destruct (drop (span isWhiteSpace s) s) as [|x rest] eqn:Hd; [done|].
    destruct (x =? LBRACE)%N; [|done]. rewrite greedy_Some.
    apply (f_equal length) in Hd. rewrite length_drop in Hd.
    pose proof (span_le isWhiteSpace rest).
    cbn in Hd |- *. rewrite length_drop. f_equal. lia.
  - intros x t' Hx. by rewrite (WhiteSpace_not x LBRACE).
Qed.

Lemma re_semicolon_scan s : re_semicolon s = scan_semicolon s.
Proof.
  unfold re_semicolon, compile, scan_semicolon.
  destruct s as [|c t]; [done|]. cbn [backtrack].
  destruct (c =? SEMICOLON)%N; [|done]. rewrite greedy_Some.
  pose proof (span_le isWhiteSpace t).
  cbn. rewrite length_drop. f_equal. lia.
Qed.

Lemma replace_g_length m r s :
  bounded (length r) m → length (replace_g m r s) ≤ length s.
Proof.
  intros Hm. remember (length s) as k eqn:Hk.
  revert s Hk. induction (lt_wf k) as [k _ IH]. intros s ->.
  destruct s as [|c t].
  - rewrite replace_g_nil. destruct (m []) as [n|] eqn:Hn; [|done].
    apply Hm in Hn. simpl in *. lia.
  - rewrite replace_g_cons. destruct (m (c :: t)) as [[|n]|] eqn:Hn.
    + apply Hm in Hn. rewrite length_app. simpl in *.
      specialize (IH (length t) ltac:(lia) t eq_refl). lia.
    + apply Hm in Hn. rewrite length_app. simpl in *.
      specialize (IH (length (drop n t)) ltac:(rewrite length_drop; lia) _ eq_refl).
      rewrite length_drop in IH. lia.
    + simpl. specialize (IH (length t) ltac:(simpl; lia) t eq_refl). lia.
Qed.


Lemma scan_block_comment_bounded : bounded 0 scan_block_comment.
Proof.
  intros [|c [|d t]] n; simpl; try done.
  destruct (_ && _)%bool; [|done].
  destruct (comment_end t) as [k|] eqn:Hk; [|done].
  intros [= <-]. apply comment_end_le in Hk. lia.
Qed.

Lemma scan_line_comment_bounded : bounded 0 scan_line_comment.
Proof.
  intros [|c [|d t]] n; simpl; try done.
  destruct (_ && _)%bool; [|done]. intros [= <-].
  pose proof (span_le notLineTerminator t). lia.
Qed.

Lemma scan_whitespace_bounded : bounded 1 scan_whitespace.
Proof.
  intros s n. unfold scan_whitespace. pose proof (span_le isWhiteSpace s).
  destruct (span isWhiteSpace s); [done|]. intros [= <-]. lia.
Qed.

Lemma scan_semicolon_brace_bounded : bounded 1 scan_semicolon_brace.
Proof.
  intros [|c t] n; simpl; [done|].
  destruct (c =? SEMICOLON)%N; [|done].
  pose proof (span_le isWhiteSpace t).
  destruct (drop _ t) as [|d t'] eqn:Hd; [done|].
  destruct (d =? RBRACE)%N; [|done]. intros [= <-].
  apply (f_equal length) in Hd. rewrite length_drop in Hd. simpl in *. lia.
Qed.

Lemma scan_open_brace_bounded : bounded 1 scan_open_brace.
Proof.
  intros s n. unfold scan_open_brace.
  destruct (drop _ s) as [|d t'] eqn:Hd; [done|].
  destruct (d =? LBRACE)%N; [|done]. intros [= <-].
  apply (f_equal length) in Hd. rewrite length_drop in Hd.
  pose proof (span_le isWhiteSpace t'). simpl in *. lia.
Qed.

Lemma scan_semicolon_bounded : bounded 1 scan_semicolon.
Proof.
  intros [|c t] n; simpl; [done|].
  destruct (c =? SEMICOLON)%N; [|done]. intros [= <-].
  pose proof (span_le isWhiteSpace t). lia.
Qed.

Lemma re_block_comment_bounded : bounded 0 re_block_comment.
Proof. intros s n. rewrite re_block_comment_scan. apply scan_block_comment_bounded. Qed.

Lemma re_line_comment_bounded : bounded 0 re_line_comment.
Proof. intros s n. rewrite re_line_comment_scan. apply scan_line_comment_bounded. Qed.

Lemma re_whitespace_bounded : bounded 1 re_whitespace.
Proof. intros s n. rewrite re_whitespace_scan. apply scan_whitespace_bounded. Qed.

Lemma re_semicolon_brace_bounded : bounded 1 re_semicolon_brace.
Proof. intros s n. rewrite re_semicolon_brace_scan. apply scan_semicolon_brace_bounded. Qed.

Lemma re_open_brace_bounded : bounded 1 re_open_brace.
Proof. intros s n. rewrite re_open_brace_scan. apply scan_open_brace_bounded. Qed.

Lemma re_semicolon_bounded : bounded 1 re_semicolon.
Proof. intros s n. rewrite re_semicolon_scan. apply scan_semicolon_bounded. Qed.

Lemma trimStart_length s : length (trimStart s) ≤ length s.
Proof. unfold trimStart. rewrite length_drop. lia. Qed.

Lemma trimEnd_length s : length (trimEnd s) ≤ length s.
Proof.
  induction s as [|c t IH]; simpl; [done|].
  destruct (trimEnd t); [destruct (isWhiteSpace c)|]; simpl in *; lia.
Qed.

Lemma trim_length s : length (trim s) ≤ length s.
Proof.
  unfold trim. pose proof (trimEnd_length (trimStart s)).
  pose proof (trimStart_length s). lia.
Qed.

(** Claim C10.  The output of [minifyCSS] and of [minifyJS] is never
    longer than the input, and so is the result of each substitution
    they apply: removing block comments and line comments, collapsing
    each run of white space to one space, the semicolon and brace
    clean-ups, and trimming. *)
Theorem minify_never_longer (s : list N) :
  length (minifyCSS s) ≤ length s ∧
  length (minifyJS s) ≤ length s ∧
  length (replace_g re_block_comment [] s) ≤ length s ∧
  length (replace_g re_line_comment [] s) ≤ length s ∧
  length (replace_g re_whitespace [SPACE] s) ≤ length s ∧
  length (replace_g re_semicolon_brace [RBRACE] s) ≤ length s ∧
  length (replace_g re_open_brace [LBRACE] s) ≤ length s ∧
  length (replace_g re_semicolon [SEMICOLON] s) ≤ length s ∧
  length (trim s) ≤ length s.
Proof.
  pose proof (λ s, replace_g_length _ [] s re_block_comment_bounded) as H1.
  pose proof (λ s, replace_g_length _ [] s re_line_comment_bounded) as H2.
  pose proof (λ s, replace_g_length _ [SPACE] s re_whitespace_bounded) as H3.
  pose proof (λ s, replace_g_length _ [RBRACE] s re_semicolon_brace_bounded) as H4.
  pose proof (λ s, replace_g_length _ [LBRACE] s re_open_brace_bounded) as H5.
  pose proof (λ s, replace_g_length _ [SEMICOLON] s re_semicolon_bounded) as H6.
  pose proof trim_length as H7.
  repeat split; try done.
  - unfold minifyCSS.
    etrans; [apply H7|]. etrans; [apply H6|]. etrans; [apply H5|].
    etrans; [apply H4|]. etrans; [apply H3|]. apply H1.
  - unfold minifyJS.
    etrans; [apply H7|]. etrans; [apply H4|]. etrans; [apply H3|].
    etrans; [apply H2|]. apply H1.
Qed.


(** *** White-space collapsing *)

Lemma squeezed_from_weaken s : squeezed_from true s = true → squeezed_from false s = true.
Proof.
  destruct s as [|c t]; simpl; [done|].
  destruct (isWhiteSpace c); [|done]. by rewrite andb_false_r.
Qed.

Lemma squeezed_from_any b s : squeezed_from b s = true → squeezed_from false s = true.
Proof. destruct b; [apply squeezed_from_weaken|done]. Qed.

Lemma squeezed_from_tail b c t :
  squeezed_from b (c :: t) = true → squeezed_from false t = true.
Proof.
  simpl. destruct (isWhiteSpace c).
  - intros [_ H]%andb_true_iff. by apply squeezed_from_weaken.
  - done.
Qed.

Lemma squeezed_from_drop b k s :
  squeezed_from b s = true → squeezed_from false (drop k s) = true.
Proof.
  revert b s. induction k as [|k IH]; intros b s H.
  - rewrite drop_0. by eapply squeezed_from_any.
  - destruct s as [|c t]; [done|]. simpl. eapply IH, squeezed_from_tail, H.
Qed.

Lemma squeezed_from_nonspace b c t :
  isWhiteSpace c = false →
  squeezed_from b (c :: t) = squeezed_from false t.
Proof. intros H. simpl. by rewrite H. Qed.

(** Replacing matches by one code unit that is not white space keeps
    the text squeezed, whatever the pattern. *)
Lemma replace_g_squeezed m x s b :
  isWhiteSpace x = false →
  squeezed_from b s = true →
  squeezed_from b (replace_g m [x] s) = true.
Proof.
  intros Hx. remember (length s) as k eqn:Hk.
  revert s b Hk. induction (lt_wf k) as [k _ IH]. intros s b -> Hs.
  destruct s as [|c t].
  - rewrite replace_g_nil. destruct (m []); [|done]. simpl. by rewrite Hx.
  - rewrite replace_g_cons. destruct (m (c :: t)) as [[|n]|].
    + cbn [app]. rewrite squeezed_from_nonspace by done.
      simpl in Hs |- *. destruct (isWhiteSpace c).
      * apply andb_true_iff in Hs as [Hs Ht]. apply andb_true_iff in Hs as [-> _].
        simpl. eapply (IH (length t)); [simpl; lia|done|done].
      * eapply (IH (length t)); [simpl; lia|done|done].
    + cbn [app]. rewrite squeezed_from_nonspace by done.
      eapply (IH (length (drop n t))); [rewrite length_drop; simpl; lia|done|].
      eapply squeezed_from_drop, squeezed_from_tail, Hs.
    + simpl in Hs |- *. destruct (isWhiteSpace c).
      * apply andb_true_iff in Hs as [-> Ht].
        simpl. eapply (IH (length t)); [simpl; lia|done|done].
      * eapply (IH (length t)); [simpl; lia|done|done].
Qed.

Lemma trimEnd_squeezed b s :
  squeezed_from b s = true → squeezed_from b (trimEnd s) = true.
Proof.
  revert b. induction s as [|c t IH]; intros b Hs; [done|].
  simpl in Hs. cbn [trimEnd].
  destruct (trimEnd t) as [|d t'] eqn:Ht.
  - destruct (isWhiteSpace c) eqn:Hc; [done|]. simpl. by rewrite Hc.
  - cbn [squeezed_from]. destruct (isWhiteSpace c).
    + apply andb_true_iff in Hs as [-> Hs]. by apply IH.
    + by apply IH.
Qed.

Lemma trim_squeezed s : squeezed s → squeezed (trim s).
Proof.
  unfold squeezed, trim, trimStart. intros Hs.
  eapply trimEnd_squeezed, squeezed_from_drop, Hs.
Qed.

Lemma SPACE_isWhiteSpace : isWhiteSpace SPACE = true.
Proof. reflexivity. Qed.

Lemma re_whitespace_cons c t :
  re_whitespace (c :: t) =
    if isWhiteSpace c then Some (S (span isWhiteSpace t)) else None.
Proof.
  rewrite re_whitespace_scan. unfold scan_whitespace. simpl.
  by destruct (isWhiteSpace c).
Qed.

Lemma collapse_cons c t :
  replace_g re_whitespace [SPACE] (c :: t) =
    if isWhiteSpace c
    then SPACE :: replace_g re_whitespace [SPACE] (drop (span isWhiteSpace t) t)
    else c :: replace_g re_whitespace [SPACE] t.
Proof.
  rewrite replace_g_cons, re_whitespace_cons. by destruct (isWhiteSpace c).
Qed.

Lemma collapse_nil : replace_g re_whitespace [SPACE] [] = [].
Proof. by rewrite replace_g_nil. Qed.

(** Squeezed text is a fixed point of the collapsing substitution. *)
Lemma collapse_fixed s b :
  squeezed_from b s = true → replace_g re_whitespace [SPACE] s = s.
Proof.
  revert b. induction s as [|c t IH]; intros b Hs; [apply collapse_nil|].
  rewrite collapse_cons. simpl in Hs. destruct (isWhiteSpace c) eqn:Hc.
  - apply andb_true_iff in Hs as [Hs Ht]. apply andb_true_iff in Hs as [Hs _].
    apply N.eqb_eq in Hs as ->.
    assert (span isWhiteSpace t = 0) as ->.
    { destruct t as [|d t']; [done|]. simpl in Ht |- *.
      destruct (isWhiteSpace d); [|done]. by rewrite andb_false_r in Ht. }
    rewrite drop_0. f_equal. by eapply IH.
  - f_equal. by eapply IH.
Qed.


(** The collapsing substitution produces squeezed text. *)
Lemma collapse_squeezed s :
  squeezed_from (match s with c :: _ => false | [] => true end)
    (replace_g re_whitespace [SPACE] s) = true ∧
  (match s with c :: _ => isWhiteSpace c = false | [] => True end →
   squeezed_from true (replace_g re_whitespace [SPACE] s) = true).
Proof.
  remember (length s) as k eqn:Hk.
  revert s Hk. induction (lt_wf k) as [k _ IH]. intros s ->.
  destruct s as [|c t]; [by rewrite collapse_nil|].
  rewrite collapse_cons. destruct (isWhiteSpace c) eqn:Hc.
  - split; [|done]. simpl.
    destruct (IH (length (drop (span isWhiteSpace t) t))
                ltac:(rewrite length_drop; simpl; lia) _ eq_refl) as [_ H].
    apply H. apply span_drop_head.
  - assert (squeezed_from false (replace_g re_whitespace [SPACE] t) = true) as Ht.
    { destruct (IH (length t) ltac:(simpl; lia) t eq_refl) as [H _].
      by eapply squeezed_from_any. }
    simpl. by rewrite Hc.
Qed.

Lemma collapse_is_squeezed s : squeezed (replace_g re_whitespace [SPACE] s).
Proof.
  destruct (collapse_squeezed s) as [H _]. by eapply squeezed_from_any.
Qed.

Lemma minifyCSS_squeezed s : squeezed (minifyCSS s).
Proof.
  unfold minifyCSS. apply trim_squeezed.
  do 3 (apply replace_g_squeezed; [done|]).
  apply collapse_is_squeezed.
Qed.

Lemma minifyJS_squeezed s : squeezed (minifyJS s).
Proof.
  unfold minifyJS. apply trim_squeezed.
  apply replace_g_squeezed; [done|].
  apply collapse_is_squeezed.
Qed.

(** Claim C5.  The white-space collapsing substitution
    [replace(/\s+/g, ' ')] is idempotent, and it changes nothing in the
    output of a first application of [minifyCSS] or of [minifyJS]. *)
Theorem whitespace_collapse_idempotent (s : list N) :
  let collapse := replace_g re_whitespace [SPACE] in
  collapse (collapse s) = collapse s ∧
  collapse (minifyCSS s) = minifyCSS s ∧
  collapse (minifyJS s) = minifyJS s.
Proof.
  intros collapse. unfold collapse. repeat split.
  - eapply collapse_fixed, collapse_is_squeezed.
  - eapply collapse_fixed, minifyCSS_squeezed.
  - eapply collapse_fixed, minifyJS_squeezed.
Qed.

(** The transforms on small inputs. *)
Example minifyCSS_example :
  minifyCSS (lit "/* layout */ body  {  margin : 0 ; }") = lit "body{margin : 0 }".
Proof. vm_compute. reflexivity. Qed.

Example minifyJS_example :
  minifyJS (lit "var n = 1; // counter") = lit "var n = 1;".
Proof. vm_compute. reflexivity. Qed.

(** The semicolon clean-up, unlike the collapsing of white space, can
    change the output of a first application. *)
Example minifyCSS_twice :
  minifyCSS (lit "a{x:y;;}") = lit "a{x:y;}" ∧
  minifyCSS (minifyCSS (lit "a{x:y;;}")) = lit "a{x:y}".
Proof. split; vm_compute; reflexivity. Qed.

End TextProofs.


(** * Lemmas on file-system trees *)
Module FSProofs.
Import FS.

Lemma node_ind (P : node → Prop) :
  (∀ c, P (File c)) →
  (∀ es, Forall (λ e, P e.2) es → P (Dir es)) →
  ∀ n, P n.
Proof.
  intros HF HD. fix IH 1. intros [c|es]; [apply HF|].
  apply HD. induction es as [|e es IHes]; constructor; [apply IH|apply IHes].
Qed.

Lemma entry_set_entry_eq x n es : entry x (set_entry x n es) = Some n.
Proof.
  induction es as [|[k m] es IH]; simpl.
  - by rewrite String.eqb_refl.
  - destruct (String.eqb_spec k x) as [->|Hne]; simpl.
    + by rewrite String.eqb_refl.
    + by destruct (String.eqb_spec k x).
Qed.

Lemma entry_set_entry_ne x y n es :
  x ≠ y → entry y (set_entry x n es) = entry y es.
Proof.
  intros Hne. induction es as [|[k m] es IH]; simpl.
  - by destruct (String.eqb_spec x y).
  - destruct (String.eqb_spec k x) as [->|Hkx]; simpl.
    + by destruct (String.eqb_spec x y).
    + by rewrite IH.
Qed.

Lemma entry_remove_entry_eq x es : entry x (remove_entry x es) = None.
Proof.
  induction es as [|[k m] es IH]; [done|]. simpl.
  destruct (String.eqb_spec k x) as [->|Hne]; [done|]. simpl.
  by destruct (String.eqb_spec k x).
Qed.

Lemma entry_remove_entry_ne x y es :
  x ≠ y → entry y (remove_entry x es) = entry y es.
Proof.
  intros Hne. induction es as [|[k m] es IH]; [done|]. simpl.
  destruct (String.eqb_spec k x) as [->|Hkx]; simpl.
  - rewrite IH. by destruct (String.eqb_spec x y).
  - by rewrite IH.
Qed.

Lemma lookup_cons x p es :
  lookup (x :: p) es =
    match entry x es with
    | Some (Dir sub) => lookup p sub
    | Some (File c) => match p with [] => Some (File c) | _ => None end
    | None => None
    end.
Proof. done. Qed.

Lemma lookup_singleton x es : lookup [x] es = entry x es.
Proof. simpl. by destruct (entry x es) as [[c|sub]|]. Qed.

Lemma lookup_set_entry_ne x z m q es :
  z ≠ x → lookup (z :: q) (set_entry x m es) = lookup (z :: q) es.
Proof. intros Hne. by rewrite !lookup_cons, entry_set_entry_ne. Qed.

Lemma lookup_set_entry_eq x sub q es :
  lookup (x :: q) (set_entry x (Dir sub) es) = lookup q sub.
Proof. by rewrite lookup_cons, entry_set_entry_eq. Qed.

(** Every successful [put] rewrites one entry of the directory. *)
Lemma put_cons x p n es es' :
  put (x :: p) n es = Some es' →
  (p = [] ∧ es' = set_entry x n es) ∨
  (p ≠ [] ∧ ∃ sub sub', entry x es = Some (Dir sub) ∧ put p n sub = Some sub' ∧
                        es' = set_entry x (Dir sub') es).
Proof.
  simpl. destruct p as [|y p]; [intros [= <-]; by left|].
  destruct (entry x es) as [[c|sub]|]; try done.
  destruct (put (y :: p) n sub) as [sub'|] eqn:Hput; [|done].
  intros [= <-]. right. split; [done|]. by eexists _, _.
Qed.

Lemma put_in_dir x y n es sub :
  entry x es = Some (Dir sub) →
  put [x; y] n es = Some (set_entry x (Dir (set_entry y n sub)) es).
Proof. intros Hx. simpl. by rewrite Hx. Qed.

Lemma lookup_put_ne_head x p n es es' z q :
  put (x :: p) n es = Some es' → z ≠ x →
  lookup (z :: q) es' = lookup (z :: q) es.
Proof.
  intros [[_ ->]|[_ (sub & sub' & _ & _ & ->)]]%put_cons Hne;
    by apply lookup_set_entry_ne.
Qed.

(** *** Well-formed trees *)

Lemma wf_node_Dir es :
  wf_node (Dir es) = true ↔
  NoDup es.*1 ∧ Forall (λ e, has_slash e.1 = false ∧ wf_node e.2 = true) es.
Proof.
  cbn [wf_node]. rewrite andb_true_iff, bool_decide_eq_true.
  apply and_iff_compat_l. rewrite forallb_forall, Forall_forall.
  split; intros Hall e He.
  - apply list_elem_of_In, Hall in He. apply andb_true_iff in He as [Hs ?].
    by apply negb_true_iff in Hs.
  - apply list_elem_of_In, Hall in He as [-> ->]. done.
Qed.

Lemma names_set_entry x n es :
  (set_entry x n es).*1 = if bool_decide (x ∈ es.*1) then es.*1 else es.*1 ++ [x].
Proof.
  induction es as [|[k m] es IH]; [done|]. cbn [set_entry].
  destruct (String.eqb_spec k x) as [->|Hne].
  - rewrite !fmap_cons. cbn [fst]. by rewrite bool_decide_true by (by left).
  - rewrite !fmap_cons. cbn [fst]. rewrite IH.
    destruct (decide (x ∈ es.*1)) as [Hin|Hnin].
    + rewrite !bool_decide_true; [done|by right|done].
    + rewrite !bool_decide_false; [done| |done].
      intros [?|?]%elem_of_cons; congruence.
Qed.

Lemma entry_elem_of x n es : entry x es = Some n → (x, n) ∈ es.
Proof.
  induction es as [|[k m] es IH]; simpl; [done|].
  destruct (String.eqb_spec k x) as [->|Hne].
  - intros [= ->]. by left.
  - intros ?. right. by apply IH.
Qed.

Lemma elem_of_entry x n es : NoDup es.*1 → (x, n) ∈ es → entry x es = Some n.
Proof.
  induction es as [|[k m] es IH]; simpl.
  - by intros _ ?%elem_of_nil.
  - intros [Hnotin Hnd]%NoDup_cons [[= -> ->]|Hin]%elem_of_cons.
    + by rewrite String.eqb_refl.
    + destruct (String.eqb_spec k x) as [->|Hne]; [|by apply IH].
      destruct Hnotin. apply list_elem_of_fmap. by exists (x, n).
Qed.

Lemma elem_of_set_entry e x n es :
  e ∈ set_entry x n es → e = (x, n) ∨ e ∈ es.
Proof.
  induction es as [|[k m] es IH]; cbn [set_entry].
  - intros ->%list_elem_of_singleton. by left.
  - destruct (String.eqb_spec k x) as [->|Hne].
    + intros [->|?]%elem_of_cons; [by left|right; by right].
    + intros [->|?]%elem_of_cons; [right; by left|].
      destruct IH as [?|?]; [done|by left|right; by right].
Qed.

Lemma wf_set_entry x n es :
  wf es → has_slash x = false → wf_node n = true → wf (set_entry x n es).
Proof.
  unfold wf. rewrite !wf_node_Dir. intros [Hnd Hall] Hx Hn. split.
  - rewrite names_set_entry. case_bool_decide; [done|].
    apply NoDup_app. split; [done|]. split; [|apply NoDup_singleton].
    intros y Hy ->%list_elem_of_singleton. done.
  - rewrite Forall_forall in Hall.
    apply Forall_forall. intros e [->|He]%elem_of_set_entry; [done|].
    by apply Hall.
Qed.

Lemma elem_of_remove_entry e x es : e ∈ remove_entry x es → e ∈ es.
Proof.
  induction es as [|[k m] es IH]; cbn [remove_entry]; [done|].
  destruct (String.eqb k x).
  - intros ?. right. by apply IH.
  - intros [->|?]%elem_of_cons; [by left|right; by apply IH].
Qed.

Lemma wf_remove_entry x es : wf es → wf (remove_entry x es).
Proof.
  unfold wf. rewrite !wf_node_Dir. intros [Hnd Hall]. split.
  - clear Hall. induction es as [|[k m] es IH]; cbn [remove_entry]; [done|].
    apply NoDup_cons in Hnd as [Hnotin Hnd].
    destruct (String.eqb k x); [by apply IH|].
    cbn. apply NoDup_cons. split; [|by apply IH].
    intros ((k' & m') & -> & Hin%elem_of_remove_entry)%list_elem_of_fmap.
    apply Hnotin. apply list_elem_of_fmap. by exists (k', m').
  - rewrite Forall_forall in Hall.
    apply Forall_forall. intros e He%elem_of_remove_entry. by apply Hall.
Qed.

Lemma wf_entry x n es : wf es → entry x es = Some n → wf_node n = true.
Proof.
  unfold wf. rewrite wf_node_Dir. intros [_ Hall] Hx%entry_elem_of.
  rewrite Forall_forall in Hall. by destruct (Hall _ Hx).
Qed.

Lemma wf_names x n es : wf es → (x, n) ∈ es → has_slash x = false.
Proof.
  unfold wf. rewrite wf_node_Dir. intros [_ Hall] Hx.
  rewrite Forall_forall in Hall. by destruct (Hall _ Hx).
Qed.

Lemma wf_nil : wf [].
Proof. done. Qed.

Lemma wf_lookup p es n : wf es → lookup p es = Some n → wf_node n = true.
Proof.
  revert es. induction p as [|x p IH]; intros es Hwf; cbn [lookup].
  - by intros [= <-].
  - destruct (entry x es) as [[c|sub]|] eqn:Hx; [| |done].
    + destruct p; [|done]. by intros [= <-].
    + apply IH. by eapply (wf_entry x (Dir sub)).
Qed.

Lemma wf_remove p es : wf es → wf (remove p es).
Proof.
  revert es. induction p as [|x p IH]; intros es Hwf; cbn [remove]; [done|].
  destruct p as [|y p]; [by apply wf_remove_entry|].
  destruct (entry x es) as [[c|sub]|] eqn:Hx; try done.
  apply wf_set_entry; [done| |].
  - by eapply wf_names, entry_elem_of.
  - apply IH. by eapply (wf_entry x (Dir sub)).
Qed.

Lemma wf_mkdirp p es es' :
  wf es → Forall (λ x, has_slash x = false) p → mkdirp p es = Some es' → wf es'.
Proof.
  revert es es'. induction p as [|x p IH]; intros es es' Hwf Hp; cbn [mkdirp].
  - by intros [= <-].
  - apply Forall_cons in Hp as [Hx Hp].
    destruct (entry x es) as [[c|sub]|] eqn:Hex; [done| |].
    + destruct (mkdirp p sub) as [sub'|] eqn:Hm; [|done]. intros [= <-].
      apply wf_set_entry; [done..|]. eapply IH; [|done..].
      by eapply (wf_entry x (Dir sub)).
    + destruct (mkdirp p []) as [sub'|] eqn:Hm; [|done]. intros [= <-].
      apply wf_set_entry; [done..|]. eapply IH; [apply wf_nil|done..].
Qed.

Lemma wf_put p n es es' :
  wf es → Forall (λ x, has_slash x = false) p → wf_node n = true →
  put p n es = Some es' → wf es'.
Proof.
  revert es es'. induction p as [|x p IH]; intros es es' Hwf Hp Hn; [done|].
  apply Forall_cons in Hp as [Hx Hp].
  intros [[-> ->]|[Hne (sub & sub' & Hex & Hput & ->)]]%put_cons.
  - by apply wf_set_entry.
  - apply wf_set_entry; [done..|]. eapply IH; [|done..].
    by eapply (wf_entry x (Dir sub)).
Qed.

End FSProofs.


(** * Properties of the build steps *)
Module BuildProofs.
Import FS Build FSProofs.

Section WithRuntime.
Context `{Runtime}.

(** Claim C6.  When cleaning is not disabled, [cleanBuild] succeeds from
    every state of the file system, whether the output directory exists
    (with files in it) or not, and leaves the output directory existing
    and empty. *)
Theorem cleanBuild_leaves_empty_dist (this : manager) (st : state) :
  clean this = true →
  (cleanBuild this st).1 = inr () ∧
  lookup distDir (tree (cleanBuild this st).2) = Some (Dir []).
Proof.
  intros Hclean. unfold cleanBuild. rewrite Hclean.
  unfold mbind, M_bind, bind, ret, record, rethrow, existsSync, rmSync,
    mkdirSync, distDir.
  cbn [negb tree ops lookup remove mkdirp fst snd].
  destruct (entry "dist" (tree st)) as [[c|sub]|] eqn:Hd.
  - rewrite bool_decide_true by done. cbn [tree ops lookup remove mkdirp fst snd].
    rewrite entry_remove_entry_eq. cbn. by rewrite entry_set_entry_eq.
  - rewrite bool_decide_true by done. cbn [tree ops lookup remove mkdirp fst snd].
    rewrite entry_remove_entry_eq. cbn. by rewrite entry_set_entry_eq.
  - rewrite bool_decide_false by (by intros [? ?]).
    cbn [tree ops lookup remove mkdirp fst snd].
    rewrite Hd. cbn. by rewrite entry_set_entry_eq.
Qed.

Example endsWith_examples :
  endsWith "site.css" ".css" = true ∧ endsWith "app.js" ".js" = true ∧
  endsWith ".js" ".js" = true ∧ endsWith "js" ".js" = false ∧
  endsWith "hashes.json" ".js" = false ∧ endsWith "notes.txt" ".css" = false.
Proof. done. Qed.

(** *** Running computations *)

Lemma run_bind {A B} (m : M A) (f : A → M B) st :
  (m ≫= f) st =
    match m st with
    | (inl e, st') => (inl e, st')
    | (inr a, st') => f a st'
    end.
Proof. done. Qed.

Lemma run_for_each_cons {A} (x : A) xs body st :
  for_each (x :: xs) body st =
    match body x st with
    | (inl e, st') => (inl e, st')
    | (inr _, st') => for_each xs body st'
    end.
Proof. done. Qed.

Lemma run_existsSync p st :
  existsSync p st = (inr (bool_decide (is_Some (lookup p (tree st)))), st).
Proof. done. Qed.

(** What one copy into the output directory does. *)
Lemma copyFileSync_into_dist src dest c d st :
  lookup src (tree st) = Some (File c) →
  lookup distDir (tree st) = Some (Dir d) →
  (∀ sub, lookup (distDir ++ [dest]) (tree st) ≠ Some (Dir sub)) →
  copyFileSync src (distDir ++ [dest]) st =
    (inr (),
     {| tree := set_entry "dist" (Dir (set_entry dest (File c) d)) (tree st);
        ops := ops st ++ [Wrote (distDir ++ [dest]) c] |}).
Proof.
  intros Hsrc Hdist Hdest.
  unfold copyFileSync, readFileSync, writeFileSync. rewrite run_bind, Hsrc.
  assert (entry "dist" (tree st) = Some (Dir d)) as Hd.
  { unfold distDir in Hdist. rewrite lookup_cons in Hdist.
    destruct (entry "dist" (tree st)) as [[?|?]|]; by simplify_eq/=. }
  destruct (lookup (distDir ++ [dest]) (tree st)) as [[c'|sub]|] eqn:Hl.
  - cbn [distDir app]. by rewrite (put_in_dir _ _ _ _ d).
  - by destruct (Hdest sub).
  - cbn [distDir app]. by rewrite (put_in_dir _ _ _ _ d).
Qed.

Lemma lookup_outside_dist (src : list string) d' es :
  (∀ q, src ≠ distDir ++ q) → src ≠ [] →
  lookup src (set_entry "dist" d' es) = lookup src es.
Proof.
  intros Hout Hne. destruct src as [|z q]; [done|].
  apply lookup_set_entry_ne. intros ->. by apply (Hout q).
Qed.

Lemma lookup_dist_entry dest m d es :
  lookup (distDir ++ [dest]) (set_entry "dist" (Dir (set_entry dest m d)) es) =
    lookup [dest] (set_entry dest m d).
Proof. cbn [distDir app]. by rewrite lookup_set_entry_eq. Qed.

Lemma lookup_dist_other dest dest' m d es :
  lookup distDir es = Some (Dir d) → dest ≠ dest' →
  lookup (distDir ++ [dest']) (set_entry "dist" (Dir (set_entry dest m d)) es) =
    lookup (distDir ++ [dest']) es.
Proof.
  intros Hd Hne. unfold distDir in *. cbn [app]. rewrite lookup_set_entry_eq.
  rewrite lookup_cons in Hd.
  rewrite (lookup_cons "dist" [dest'] es).
  destruct (entry "dist" es) as [[?|?]|]; simplify_eq/=.
  by rewrite entry_set_entry_ne.
Qed.

Lemma copy_existing_nil st : copy_existing [] st = (inr (), st).
Proof. done. Qed.

Lemma copy_existing_cons src dest files st :
  copy_existing ((src, dest) :: files) st =
    if bool_decide (is_Some (lookup src (tree st))) then
      match copyFileSync src (distDir ++ [dest]) st with
      | (inl e, st') => (inl e, st')
      | (inr _, st') => copy_existing files st'
      end
    else copy_existing files st.
Proof.
  unfold copy_existing. rewrite run_for_each_cons, run_bind, run_existsSync.
  cbn [fst snd]. by destruct (bool_decide _).
Qed.

Lemma copy_existing_spec (files : list (list string * string)) (st : state) :
  (∃ d, lookup distDir (tree st) = Some (Dir d)) →
  (∀ file, file ∈ files →
     lookup file.1 (tree st) = None ∨ ∃ c, lookup file.1 (tree st) = Some (File c)) →
  (∀ file q, file ∈ files → file.1 ≠ distDir ++ q) →
  (∀ file sub, file ∈ files → lookup (distDir ++ [file.2]) (tree st) ≠ Some (Dir sub)) →
  (copy_existing files st).1 = inr () ∧
  (∃ d, lookup distDir (tree (copy_existing files st).2) = Some (Dir d)) ∧
  (∀ src, (∀ q, src ≠ distDir ++ q) → src ≠ [] →
     lookup src (tree (copy_existing files st).2) = lookup src (tree st)) ∧
  (∀ dest, dest ∉ files.*2 →
     lookup (distDir ++ [dest]) (tree (copy_existing files st).2) =
       lookup (distDir ++ [dest]) (tree st)) ∧
  (∀ o, o ∈ ops st → o ∈ ops (copy_existing files st).2) ∧
  (∀ src dest c, (src, dest) ∈ files → lookup src (tree st) = Some (File c) →
     Wrote (distDir ++ [dest]) c ∈ ops (copy_existing files st).2) ∧
  (∀ o, o ∈ ops (copy_existing files st).2 →
     o ∈ ops st ∨
     ∃ src dest c, (src, dest) ∈ files ∧ o = Wrote (distDir ++ [dest]) c ∧
                   lookup src (tree st) = Some (File c)) ∧
  (NoDup files.*2 → ∀ src dest, (src, dest) ∈ files →
     lookup (distDir ++ [dest]) (tree (copy_existing files st).2) =
       match lookup src (tree st) with
       | Some (File c) => Some (File c)
       | _ => lookup (distDir ++ [dest]) (tree st)
       end).
Proof.
  revert st.
  induction files as [|[src0 dest0] files IH]; intros st [d Hd] Hsrc Hout Hdest.
  { rewrite copy_existing_nil. cbn [fst snd].
    split; [done|]. split; [eauto|]. split; [done|]. split; [done|].
    split; [done|].
    split; [by intros ??? ?%elem_of_nil|]. split; [by left|].
    by intros _ ?? ?%elem_of_nil. }
  rewrite copy_existing_cons.
  assert (∀ src, (∃ dest, (src, dest) ∈ (src0, dest0) :: files) → src ≠ []) as Hne.
  { intros src [dest Hin] ->. destruct (Hsrc _ Hin) as [?|[? ?]]; by simplify_eq/=. }
  destruct (Hsrc (src0, dest0)) as [Hnone|[c0 Hc0]]; [by left|..]; cbn [fst] in *.
  - (* the source is missing: nothing happens *)
    rewrite bool_decide_false by (rewrite Hnone; by intros [? ?]).
    destruct (IH st) as (IH1 & IH2 & IH3 & IH4 & IHm & IH5 & IH6 & IH7).
    { by eexists. }
    { intros f Hf. apply Hsrc. by right. }
    { intros f q Hf. apply Hout. by right. }
    { intros f sub Hf. apply Hdest. by right. }
    split; [done|]. split; [done|]. split; [done|].
    split; [|split; [done|split; [|split]]].
    + intros dest [Hd0 Hin]%not_elem_of_cons. by apply IH4.
    + intros src dest c [[= -> ->]|Hin]%elem_of_cons Hl; [congruence|eauto].
    + intros o Ho. destruct (IH6 o Ho) as [?|(s & dd & c & ? & ? & ?)]; [by left|].
      right. exists s, dd, c. split; [by right|done].
    + intros [Hnotin Hnd]%NoDup_cons src dest [[= -> ->]|Hin]%elem_of_cons.
      * rewrite Hnone. by apply IH4.
      * by apply IH7.
  - (* the source exists: it is copied, then the loop goes on *)
    rewrite bool_decide_true by (by rewrite Hc0).
    rewrite (copyFileSync_into_dist _ _ c0 d);
      [|done|done|intros sub; apply (Hdest (src0, dest0)); by left].
    set (st1 := {| tree := _; ops := _ |}).
    assert (∀ src, (∀ q, src ≠ distDir ++ q) → src ≠ [] →
              lookup src (tree st1) = lookup src (tree st)) as Hframe.
    { intros src ??. by apply lookup_outside_dist. }
    assert (∀ src dest, (src, dest) ∈ files →
              lookup src (tree st1) = lookup src (tree st)) as Hsame.
    { intros src dest Hf. apply Hframe.
      - intros q. apply (Hout (src, dest)). by right.
      - apply Hne. exists dest. by right. }
    destruct (IH st1) as (IH1 & IH2 & IH3 & IH4 & IHm & IH5 & IH6 & IH7).
    { eexists. unfold st1, distDir; cbn [tree]. by rewrite lookup_set_entry_eq. }
    { intros [src dest] Hf. cbn [fst]. rewrite (Hsame src dest) by done.
      apply (Hsrc (src, dest)). by right. }
    { intros f q Hf. apply Hout. by right. }
    { intros f sub Hf. unfold st1; cbn [tree].
      destruct (decide (dest0 = f.2)) as [<-|Hne'].
      - rewrite lookup_dist_entry, lookup_singleton, entry_set_entry_eq. done.
      - rewrite (lookup_dist_other _ _ _ d) by done. apply Hdest. by right. }
    split; [done|]. split; [done|].
    split; [|split; [|split; [|split; [|split]]]].
    + intros src ??. rewrite IH3 by done. by apply Hframe.
    + intros dest [Hd0 Hin]%not_elem_of_cons. rewrite IH4 by done.
      unfold st1; cbn [tree]. by rewrite (lookup_dist_other _ _ _ d).
    + intros o Ho. apply IHm. unfold st1; cbn [ops]. apply elem_of_app. by left.
    + intros src dest c [[= -> ->]|Hin]%elem_of_cons Hl.
      * apply IHm. unfold st1; cbn [ops]. apply elem_of_app. right.
        rewrite Hc0 in Hl. injection Hl as <-. by apply list_elem_of_singleton.
      * apply (IH5 src); [done|]. by rewrite (Hsame src dest).
    + intros o Ho. destruct (IH6 o Ho) as [Hold|(s & dd & c & Hin & Ho' & Hl)];
        [|subst o].
      * unfold st1 in Hold; cbn [ops] in Hold.
        apply elem_of_app in Hold as [?|Hnew]; [by left|].
        apply list_elem_of_singleton in Hnew as ->.
        right. exists src0, dest0, c0. split; [by left|done].
      * right. exists s, dd, c. split; [by right|]. split; [done|].
        by rewrite <-(Hsame s dd).
    + intros [Hnotin Hnd]%NoDup_cons src dest [[= -> ->]|Hin]%elem_of_cons.
      * rewrite Hc0, IH4 by done. unfold st1; cbn [tree].
        by rewrite lookup_dist_entry, lookup_singleton, entry_set_entry_eq.
      * rewrite (IH7 Hnd src) by done. rewrite (Hsame src dest) by done.
        destruct (lookup src (tree st)) as [[c|sub]|]; try done.
        -- unfold st1; cbn [tree]. apply (lookup_dist_other _ _ _ d); [done|].
           intros ->. apply Hnotin. apply list_elem_of_fmap. by exists (src, dest).
        -- unfold st1; cbn [tree]. apply (lookup_dist_other _ _ _ d); [done|].
           intros ->. apply Hnotin. apply list_elem_of_fmap. by exists (src, dest).
Qed.


(** In the build, the copier runs on the directory [cleanBuild] has just
    made, where the conditions on the output directory hold by
    themselves. *)
Lemma remove_entry_absent x es : entry x es = None → remove_entry x es = es.
Proof.
  induction es as [|[k m] es IH]; [done|]. simpl.
  destruct (String.eqb k x); [done|]. intros ?. by rewrite IH.
Qed.

Lemma cleanBuild_tree (this : manager) (st : state) :
  clean this = true →
  (cleanBuild this st).1 = inr () ∧
  tree (cleanBuild this st).2 =
    set_entry "dist" (Dir []) (remove_entry "dist" (tree st)).
Proof.
  intros Hclean. unfold cleanBuild. rewrite Hclean.
  unfold mbind, M_bind, bind, ret, record, rethrow, existsSync, rmSync,
    mkdirSync, distDir.
  cbn [negb tree ops lookup remove mkdirp fst snd].
  destruct (entry "dist" (tree st)) as [[c|sub]|] eqn:Hd.
  - rewrite bool_decide_true by done. cbn [tree ops lookup remove mkdirp fst snd].
    by rewrite entry_remove_entry_eq.
  - rewrite bool_decide_true by done. cbn [tree ops lookup remove mkdirp fst snd].
    by rewrite entry_remove_entry_eq.
  - rewrite bool_decide_false by (by intros [? ?]).
    cbn [tree ops lookup remove mkdirp fst snd].
    by rewrite Hd, remove_entry_absent.
Qed.

Lemma copyStaticFiles_after_cleanBuild (this : manager) (st : state) :
  clean this = true →
  (∀ file, file ∈ staticFiles →
     lookup file.1 (tree st) = None ∨ ∃ c, lookup file.1 (tree st) = Some (File c)) →
  (copyStaticFiles (cleanBuild this st).2).1 = inr () ∧
  ∀ src dest, (src, dest) ∈ staticFiles →
    lookup (distDir ++ [dest]) (tree (copyStaticFiles (cleanBuild this st).2).2) =
      match lookup src (tree st) with
      | Some (File c) => Some (File c)
      | _ => None
      end.
Proof.
  intros Hclean Hsrc.
  destruct (cleanBuild_tree this st Hclean) as [_ Htree].
  set (st1 := (cleanBuild this st).2) in *.
  unfold copyStaticFiles. rewrite run_bind. cbn [record].
  set (st2 := {| tree := tree st1; ops := _ |}).
  assert (∀ src dest, (src, dest) ∈ staticFiles →
            lookup src (tree st2) = lookup src (tree st)) as Hsame.
  { intros src dest Hin. unfold st2; cbn [tree]. rewrite Htree.
    unfold staticFiles in Hin.
    repeat (apply elem_of_cons in Hin as [[= -> ->]|Hin];
            [by rewrite !lookup_singleton, entry_set_entry_ne,
                  entry_remove_entry_ne by done|]).
    by apply elem_of_nil in Hin. }
  assert (∀ dest, lookup (distDir ++ [dest]) (tree st2) = None) as Hempty.
  { intros dest. unfold st2; cbn [tree]. rewrite Htree. unfold distDir.
    cbn [app]. by rewrite lookup_set_entry_eq. }
  destruct (copy_existing_spec staticFiles st2) as (H1 & _ & _ & _ & _ & _ & _ & H8).
  { exists []. unfold st2; cbn [tree]. rewrite Htree. unfold distDir.
    by rewrite lookup_set_entry_eq. }
  { intros [src dest] Hin. cbn [fst]. rewrite (Hsame src dest Hin).
    by apply (Hsrc (src, dest)). }
  { intros file q Hin. unfold staticFiles in Hin.
    repeat (apply elem_of_cons in Hin as [->|Hin]; [discriminate|]).
    by apply elem_of_nil in Hin. }
  { intros file sub _. by rewrite Hempty. }
  unfold rethrow. destruct (copy_existing staticFiles st2) as [[e|[]] st3];
    cbn [fst snd] in *; [done|].
  split; [done|]. intros src dest Hin.
  rewrite (H8 ltac:(apply (bool_decide_unpack _); vm_compute; exact I) src dest Hin).
  rewrite (Hsame src dest Hin), Hempty. done.
Qed.

(** The build is in production mode exactly when [--production] or [-p]
    is given or [NODE_ENV] is [production]; the run started with
    [NODE_ENV] set to [production] and no flag is then the run of
    [--production], and of [-p]. *)
Lemma production_trigger (args : list string) (NODE_ENV : option string)
    (fs : list (string * node)) :
  (isProduction (new_BuildManager (options_of args) NODE_ENV) = true ↔
     "--production" ∈ args ∨ "-p" ∈ args ∨ NODE_ENV = Some "production") ∧
  main [] (Some "production") fs = main ["--production"] None fs ∧
  main [] (Some "production") fs = main ["-p"] None fs.
Proof.
  split; [|done].
  unfold new_BuildManager, options_of. cbn [isProduction production].
  rewrite !orb_true_iff, !bool_decide_eq_true. tauto.
Qed.

End WithRuntime.
End BuildProofs.


(** * Properties of the content digest *)
Module DigestProofs.
Import Digest.

Lemma hex_length bs : String.length (hex bs) = 2 * length bs.
Proof. induction bs as [|b bs IH]; simpl; [done|]. rewrite IH. lia. Qed.

Lemma md5_length content : length (md5 content) = 16.
Proof. reflexivity. Qed.

Lemma substring_0_length n s :
  n ≤ String.length s → String.length (String.substring 0 n s) = n.
Proof.
  revert s. induction n as [|n IH]; intros [|a s] Hn; simpl in *; try done; try lia.
  rewrite IH; [done|lia].
Qed.

Lemma substring_0_chars n s a :
  a ∈ String.list_ascii_of_string (String.substring 0 n s) →
  a ∈ String.list_ascii_of_string s.
Proof.
  revert s. induction n as [|n IH]; intros [|b s]; simpl; try done.
  - by intros ?%elem_of_nil.
  - rewrite !elem_of_cons. intros [->|?]; [by left|right; by apply IH].
Qed.

Lemma hex_digit_lower n : (0 ≤ n < 16)%Z → is_lower_hex (hex_digit n) = true.
Proof.
  intros Hn.
  assert (n ∈ (Z.of_nat <$> seq 0 16)) as Hin.
  { apply list_elem_of_fmap. exists (Z.to_nat n). split; [lia|].
    apply elem_of_seq. lia. }
  cbn in Hin. repeat (apply elem_of_cons in Hin as [->|Hin]; [reflexivity|]).
  by apply elem_of_nil in Hin.
Qed.

Lemma hex_chars bs a :
  Forall (λ b, 0 ≤ b < 256)%Z bs →
  a ∈ String.list_ascii_of_string (hex bs) → is_lower_hex a = true.
Proof.
  induction 1 as [|b bs Hb Hbs IH]; simpl.
  - by intros ?%elem_of_nil.
  - rewrite !elem_of_cons. intros [->|[->|Ha]]; [| |by apply IH].
    + apply hex_digit_lower.
      split; [apply Z.div_pos; lia|apply Z.div_lt_upper_bound; lia].
    + apply hex_digit_lower. apply Z.mod_pos_bound. lia.
Qed.

Lemma bytes_of_word_range x : Forall (λ b, 0 ≤ b < 256)%Z (bytes_of_word x).
Proof. repeat constructor; apply Z.mod_pos_bound; lia. Qed.

Lemma md5_range content : Forall (λ b, 0 ≤ b < 256)%Z (md5 content).
Proof. unfold md5. rewrite !Forall_app. repeat split; apply bytes_of_word_range. Qed.

Lemma substring_0_split n s :
  n ≤ String.length s →
  ∃ rest, s = String.substring 0 n s +:+ rest ∧ String.length rest = String.length s - n.
Proof.
  revert s. induction n as [|n IH]; intros s Hn.
  - exists s. destruct s; simpl; split; (done || lia).
  - destruct s as [|a s]; simpl in Hn; [lia|].
    destruct (IH s) as (rest & Hs & Hlen); [lia|].
    exists rest. split; [|simpl; lia].
    change (String a s = String a (String.substring 0 n s +:+ rest)). by rewrite <-Hs.
Qed.

(** Claim C4.  For any bytes, the digest has exactly 8 characters, each
    one of 0-9 and a-f; it is the first 8 of the 32 hexadecimal digits
    of the hash of the bytes, 24 more follow; and what the generator
    records for a file of these bytes is this digest, whatever the
    file is called and wherever it lies, so that equal bytes give equal
    digests.  The hash is MD5: on every message of the test suite of
    RFC 1321 it gives the digest the RFC lists, and the generator the
    first 8 digits of it. *)
Theorem content_hash_is_eight_hex_digits :
  (∀ content : list byte,
     String.length (content_hash content) = 8 ∧
     (∀ a, a ∈ String.list_ascii_of_string (content_hash content) →
           is_lower_hex a = true) ∧
     (∃ rest, hex (md5 content) = content_hash content +:+ rest ∧
              String.length rest = 24) ∧
     (∀ rel name, Build.is_asset name = true →
        Build.hashFiles rel (FS.Dir [(name, FS.File content)]) [] =
          [(Build.relative (rel ++ [name]), content_hash content)])) ∧
  (∀ message digest, (message, digest) ∈ test_suite →
     hex (md5 (bytes_of_string message)) = digest ∧
     content_hash (bytes_of_string message) = String.substring 0 8 digest).
Proof.
  split.
  - intros content.
    assert (String.length (hex (md5 content)) = 32) as Hlen.
    { by rewrite hex_length, md5_length. }
    split; [|split; [|split]].
    + unfold content_hash. apply (substring_0_length 8). lia.
    + intros a Ha. apply substring_0_chars in Ha.
      eapply hex_chars; [apply md5_range|done].
    + destruct (substring_0_split 8 (hex (md5 content))) as (rest & Hs & Hrest); [lia|].
      exists rest. split; [exact Hs|lia].
    + intros rel name Hasset. cbn [Build.hashFiles foldl fst snd].
      by rewrite Hasset.
  - intros message digest Hin. unfold test_suite in Hin.
    repeat (apply elem_of_cons in Hin as [[= -> ->]|Hin];
            [split; vm_compute; reflexivity|]).
    by apply elem_of_nil in Hin.
Qed.

End DigestProofs.


(** * The hash map of a well-formed output directory *)
Module HashProofs.
Import FS Build FSProofs.

Lemma asset_files_Dir_cons rel k m es :
  asset_files rel (Dir ((k, m) :: es)) =
    match m with
    | Dir _ => asset_files (rel ++ [k]) m
    | File content => if is_asset k then [(rel ++ [k], content)] else []
    end ++ asset_files rel (Dir es).
Proof. done. Qed.

Lemma hashFiles_Dir_cons rel k m es hashMap :
  hashFiles rel (Dir ((k, m) :: es)) hashMap =
    hashFiles rel (Dir es)
      match m with
      | Dir _ => hashFiles (rel ++ [k]) m hashMap
      | File content =>
          if is_asset k
          then obj_set (relative (rel ++ [k])) (Digest.content_hash content) hashMap
          else hashMap
      end.
Proof. done. Qed.

(** The walk sets one property per asset file, in the order of
    [asset_files]. *)
Lemma hashFiles_asset_files n : ∀ rel hashMap,
  hashFiles rel n hashMap =
    foldl (λ o file, obj_set (hash_entry file).1 (hash_entry file).2 o)
      hashMap (asset_files rel n).
Proof.
  induction n as [c|es IH] using node_ind; [done|].
  induction IH as [|[k m] es Hm _ IHes]; intros rel hashMap; [done|].
  rewrite hashFiles_Dir_cons, asset_files_Dir_cons, foldl_app, IHes.
  f_equal. destruct m as [c|sub].
  - by destruct (is_asset k).
  - apply Hm.
Qed.

(** Setting properties with fresh keys appends them. *)
Lemma obj_set_fresh k v o : k ∉ o.*1 → obj_set k v o = o ++ [(k, v)].
Proof.
  induction o as [|[k' v'] o IH]; [done|]. rewrite fmap_cons. cbn [fst obj_set].
  intros [Hne Hnotin]%not_elem_of_cons.
  destruct (String.eqb_spec k' k) as [->|_]; [done|]. by rewrite IH.
Qed.

Lemma foldl_obj_set_fresh (l o : list (string * string)) :
  NoDup (o ++ l).*1 →
  foldl (λ o e, obj_set e.1 e.2 o) o l = o ++ l.
Proof.
  revert o. induction l as [|[k v] l IH]; intros o Hnd; [by rewrite app_nil_r|].
  cbn [foldl fst snd]. rewrite obj_set_fresh.
  - rewrite IH; rewrite <-app_assoc; done.
  - rewrite fmap_app, fmap_cons in Hnd. apply NoDup_app in Hnd as (_ & Hdisj & _).
    intros Hin. apply (Hdisj k Hin). by left.
Qed.

(** *** Keys: [path.relative] is injective on real paths *)

Lemma has_slash_String a s :
  has_slash (String a s) = Ascii.eqb a "/" || has_slash s.
Proof. done. Qed.

Lemma has_slash_append x r : has_slash (x +:+ String "/" r) = true.
Proof.
  induction x as [|a x IH]; [done|].
  change (String a x +:+ String "/" r) with (String a (x +:+ String "/" r)).
  rewrite has_slash_String, IH. apply orb_true_r.
Qed.

Lemma append_slash_inj x y r1 r2 :
  has_slash x = false → has_slash y = false →
  x +:+ String "/" r1 = y +:+ String "/" r2 → x = y ∧ r1 = r2.
Proof.
  revert y. induction x as [|a x IH]; intros [|b y] Hx Hy;
    change (String ?c ?s +:+ ?t) with (String c (s +:+ t));
    change (EmptyString +:+ ?t) with t.
  - by intros [= ->].
  - intros [= <- _]. by rewrite has_slash_String in Hy.
  - intros [= -> _]. by rewrite has_slash_String in Hx.
  - rewrite has_slash_String in Hx, Hy.
    apply orb_false_iff in Hx as [_ Hx]. apply orb_false_iff in Hy as [_ Hy].
    intros [= -> Heq]. destruct (IH y Hx Hy Heq) as [-> ->]. done.
Qed.

Lemma relative_cons x p :
  relative (x :: p) =
    match p with [] => x | _ => x +:+ String "/" (relative p) end.
Proof. by destruct p. Qed.

Lemma relative_inj p q :
  Forall (λ x, has_slash x = false) p → Forall (λ x, has_slash x = false) q →
  p ≠ [] → q ≠ [] → relative p = relative q → p = q.
Proof.
  intros Hp. revert q.
  induction Hp as [|x p Hx Hp IH]; intros q Hq Hpne Hqne; [done|].
  destruct Hq as [|y q Hy Hq]; [done|]. rewrite !relative_cons.
  destruct p as [|x' p], q as [|y' q].
  - by intros ->.
  - intros ->. by rewrite has_slash_append in Hx.
  - intros <-. by rewrite has_slash_append in Hy.
  - intros [-> Heq]%append_slash_inj; [|done..]. f_equal. by apply IH.
Qed.

(** *** The asset files are the files the walk can reach *)

Lemma lookup_names p es n :
  wf es → lookup p es = Some n → Forall (λ x, has_slash x = false) p.
Proof.
  revert es. induction p as [|x p IH]; intros es Hwf; [done|].
  rewrite lookup_cons. destruct (entry x es) as [[c|sub]|] eqn:Hx; [| |done].
  - destruct p; [|done]. intros _. repeat constructor.
    by eapply wf_names, entry_elem_of.
  - intros Hl. constructor; [by eapply wf_names, entry_elem_of|].
    eapply IH; [|done]. by eapply (wf_entry x (Dir sub)).
Qed.

Lemma last_cons_ne {A} (x : A) l : l ≠ [] → last (x :: l) = last l.
Proof. by destruct l. Qed.

Lemma asset_files_spec n :
  wf_node n = true → ∀ rel p c,
  (p, c) ∈ asset_files rel n ↔
  ∃ es q name, n = Dir es ∧ p = rel ++ q ∧ lookup q es = Some (File c) ∧
               last q = Some name ∧ is_asset name = true.
Proof.
  induction n as [c0|es IH] using node_ind; intros Hwf rel p c.
  { split; [by intros ?%elem_of_nil|]. by intros (? & ? & ? & ? & _). }
  assert (wf es) as Hwf' by done.
  apply wf_node_Dir in Hwf as [Hnd Hall].
  rewrite Forall_forall in IH, Hall.
  cbn [asset_files]. rewrite list_elem_of_bind. split.
  - intros ([k m] & Hin & Hkm). cbn [fst snd] in Hin.
    exists es. destruct m as [c'|sub].
    + destruct (is_asset k) eqn:Hk; [|by apply elem_of_nil in Hin].
      apply list_elem_of_singleton in Hin as [= -> ->].
      exists [k], k. rewrite lookup_singleton.
      by rewrite (elem_of_entry k (File c') es).
    + destruct (Hall _ Hkm) as [_ Hsub]. cbn [snd] in Hsub.
      apply (IH _ Hkm Hsub) in Hin as (es' & q & name & [= <-] & -> & Hl & Hlast & Hname).
      exists (k :: q), name. rewrite <-app_assoc. split; [done|]. split; [done|].
      rewrite lookup_cons, (elem_of_entry k (Dir sub) es) by done.
      split; [done|]. rewrite last_cons_ne; [done|]. by intros ->.
  - intros (es' & q & name & [= <-] & -> & Hl & Hlast & Hname).
    destruct q as [|k q]; [done|]. rewrite lookup_cons in Hl.
    destruct (entry k es) as [[c'|sub]|] eqn:Hk; [| |done].
    + destruct q; [|done]. injection Hl as ->. injection Hlast as <-.
      exists (k, File c). split; [|by apply entry_elem_of].
      cbn [fst snd]. rewrite Hname. by apply list_elem_of_singleton.
    + exists (k, Dir sub). split; [|by apply entry_elem_of]. cbn [fst snd].
      pose proof (entry_elem_of _ _ _ Hk) as Hin.
      destruct (Hall _ Hin) as [_ Hsub]. cbn [snd] in Hsub.
      apply (IH _ Hin Hsub). exists sub, q, name.
      rewrite <-app_assoc. split; [done|]. split; [done|]. split; [done|].
      rewrite last_cons_ne in Hlast; [done|]. by intros ->.
Qed.

Lemma asset_files_prefix n : ∀ rel p c,
  (p, c) ∈ asset_files rel n → ∃ q, p = rel ++ q.
Proof.
  induction n as [c0|es IH] using node_ind; intros rel p c;
    [by intros ?%elem_of_nil|].
  rewrite Forall_forall in IH. cbn [asset_files]. rewrite list_elem_of_bind.
  intros ([k m] & Hin & Hkm). cbn [fst snd] in Hin. destruct m as [c'|sub].
  - destruct (is_asset k); [|by apply elem_of_nil in Hin].
    apply list_elem_of_singleton in Hin as [= -> ->]. by eexists.
  - apply (IH _ Hkm) in Hin as [q ->]. rewrite <-app_assoc. by eexists.
Qed.

Lemma asset_files_head rel es p c :
  (p, c) ∈ asset_files rel (Dir es) → ∃ k q, k ∈ es.*1 ∧ p = rel ++ k :: q.
Proof.
  cbn [asset_files]. rewrite list_elem_of_bind.
  intros ([k m] & Hin & Hkm). cbn [fst snd] in Hin.
  assert (k ∈ es.*1) as Hk by (apply list_elem_of_fmap; by exists (k, m)).
  exists k. destruct m as [c'|sub].
  - destruct (is_asset k); [|by apply elem_of_nil in Hin].
    apply list_elem_of_singleton in Hin as [= -> ->]. by exists [].
  - apply asset_files_prefix in Hin as [q ->]. rewrite <-app_assoc. by exists q.
Qed.

Lemma asset_files_NoDup n : ∀ rel,
  wf_node n = true → NoDup (asset_files rel n).*1.
Proof.
  induction n as [c0|es IH] using node_ind; intros rel Hwf; [constructor|].
  apply wf_node_Dir in Hwf as [Hnd Hall].
  induction es as [|[k m] es IHes]; [constructor|].
  apply Forall_cons in IH as [IHm IH]. apply Forall_cons in Hall as [[_ Hm] Hall].
  rewrite fmap_cons in Hnd. apply NoDup_cons in Hnd as [Hk Hnd].
  rewrite asset_files_Dir_cons, fmap_app. apply NoDup_app.
  split; [|split; [|by apply IHes]].
  - destruct m as [c|sub]; [|by apply IHm].
    destruct (is_asset k); [apply NoDup_singleton|constructor].
  - intros p Hp1 Hp2.
    apply list_elem_of_fmap in Hp2 as ([p2 c2] & -> & Hp2).
    apply asset_files_head in Hp2 as (k2 & q2 & Hk2 & Hp2). cbn [fst] in *.
    assert (∃ q1, p2 = rel ++ k :: q1) as [q1 Heq].
    { destruct m as [c|sub].
      - destruct (is_asset k); [|by apply elem_of_nil in Hp1].
        apply list_elem_of_singleton in Hp1. by exists [].
      - apply list_elem_of_fmap in Hp1 as ([p1 c1] & Heq & Hp1).
        apply asset_files_prefix in Hp1 as [q1 ->]. cbn [fst] in Heq.
        rewrite <-app_assoc in Heq. by exists q1. }
    rewrite Hp2 in Heq. apply app_inv_head in Heq. injection Heq as -> _. done.
Qed.

Lemma hash_entry_NoDup d :
  wf d → NoDup (hash_entry <$> asset_files [] (Dir d)).*1.
Proof.
  intros Hwf. rewrite <-list_fmap_compose.
  apply (NoDup_fmap_2_strong (fst ∘ hash_entry)).
  - intros [p1 c1] [p2 c2] H1 H2. cbn. intros Heq.
    apply (asset_files_spec _ Hwf) in H1 as (? & q1 & n1 & [= <-] & -> & Hl1 & Hn1 & _).
    apply (asset_files_spec _ Hwf) in H2 as (? & q2 & n2 & [= <-] & -> & Hl2 & Hn2 & _).
    cbn [app] in *.
    assert (q1 = q2) as ->.
    { apply relative_inj; [by eapply lookup_names..| | |done]; by intros ->. }
    congruence.
  - apply (NoDup_fmap_1 fst). by apply asset_files_NoDup.
Qed.

(** On a well-formed output directory the walk yields exactly one
    property per asset file. *)
Lemma hashFiles_wf d :
  wf d → hashFiles [] (Dir d) [] = hash_entry <$> asset_files [] (Dir d).
Proof.
  intros Hwf. rewrite hashFiles_asset_files.
  rewrite <-(foldl_fmap (λ o e, obj_set e.1 e.2 o) [] _ hash_entry).
  rewrite foldl_obj_set_fresh; [done|]. by apply hash_entry_NoDup.
Qed.

End HashProofs.

(** * The build run up to hash generation *)
Module StepProofs.
Import FS Build FSProofs BuildProofs HashProofs.

(** *** Rules for [keeps] *)

Lemma keeps_ret {A} (a : A) : keeps (ret a).
Proof. by intros st. Qed.

Lemma keeps_mret {A} (a : A) : keeps (mret a : M A).
Proof. by intros st. Qed.

Lemma keeps_throw {A} msg : keeps (@throw A msg).
Proof. by intros st. Qed.

Lemma keeps_bind {A B} (Q : A → Prop) (m : M A) (f : A → M B) :
  keeps m →
  (∀ st a, invariant st → (m st).1 = inr a → Q a) →
  (∀ a, Q a → keeps (f a)) →
  keeps (m ≫= f).
Proof.
  intros Hm HQ Hf st Hst. rewrite run_bind.
  specialize (Hm st Hst). specialize (HQ st).
  destruct (m st) as [[e|a] st']; [done|]. apply Hf; [|done]. by apply HQ.
Qed.

Lemma keeps_seq {A B} (m : M A) (k : M B) :
  keeps m → keeps k → keeps (m ≫= λ _, k).
Proof. intros Hm Hk. by apply (keeps_bind (λ _, True)). Qed.

Lemma keeps_rethrow {A} prefix (m : M A) : keeps m → keeps (rethrow prefix m).
Proof.
  intros Hm st Hst. unfold rethrow. specialize (Hm st Hst).
  by destruct (m st) as [[e|a] st'].
Qed.

Lemma keeps_for_each {A} (xs : list A) body :
  (∀ x, x ∈ xs → keeps (body x)) → keeps (for_each xs body).
Proof.
  induction xs as [|x xs IH]; intros Hbody; [apply keeps_ret|].
  intros st Hst. rewrite run_for_each_cons.
  pose proof (Hbody x ltac:(by left) st Hst) as Hx.
  destruct (body x st) as [[e|[]] st']; [done|].
  apply IH; [|done]. intros y Hy. apply Hbody. by right.
Qed.

Lemma invariant_snoc st o t :
  invariant st → wf t → quiet o →
  invariant {| tree := t; ops := ops st ++ [o] |}.
Proof.
  intros [_ Hops] Ht Ho. split; [done|]. cbn [ops].
  apply Forall_app. split; [done|]. by apply Forall_singleton.
Qed.

Lemma keeps_record m : m ≠ "validateBuild" → keeps (record (Call m)).
Proof.
  intros Hm st Hst. apply invariant_snoc; [done|apply Hst|].
  split; [congruence|done].
Qed.

Lemma keeps_existsSync p : keeps (existsSync p).
Proof. by intros st. Qed.

Lemma keeps_readFileSync p : keeps (readFileSync p).
Proof.
  intros st Hst. unfold readFileSync. by destruct (lookup _ _) as [[?|?]|].
Qed.

Lemma keeps_readdirSync p : keeps (readdirSync p).
Proof.
  intros st Hst. unfold readdirSync. by destruct (lookup _ _) as [[?|?]|].
Qed.

Lemma keeps_rmSync p : keeps (rmSync p).
Proof.
  intros st Hst. apply invariant_snoc; [done|apply wf_remove, Hst|].
  split; [done|done].
Qed.

Lemma keeps_mkdirSync p :
  Forall (λ x, has_slash x = false) p → keeps (mkdirSync p).
Proof.
  intros Hp st Hst. unfold mkdirSync.
  destruct (mkdirp p (tree st)) as [t|] eqn:Hm; [|done].
  apply invariant_snoc; [done| |done].
  by apply (wf_mkdirp p (tree st) t); [apply Hst|..].
Qed.

Lemma keeps_writeFileSync p content :
  Forall (λ x, has_slash x = false) p → p ≠ hashesPath →
  keeps (writeFileSync p content).
Proof.
  intros Hp Hne st Hst. unfold writeFileSync.
  assert (invariant (match put p (File content) (tree st) with
                     | Some t => (inr (), {| tree := t; ops := ops st ++ [Wrote p content] |})
                     | None => (inl "ENOENT: no such file or directory", st)
                     end : (string + ()) * state).2) as Hput.
  { destruct (put p (File content) (tree st)) as [t|] eqn:Hm; [|done].
    apply invariant_snoc; [done| |].
    - by apply (wf_put p (File content) (tree st) t); [apply Hst|..].
    - split; [done|]. intros c [= ? ?]. done. }
  by destruct (lookup p (tree st)) as [[?|?]|].
Qed.

Lemma readdirSync_wf p st es :
  invariant st → (readdirSync p st).1 = inr es →
  Forall (λ e, has_slash e.1 = false ∧ wf_node e.2 = true) es.
Proof.
  intros [Hwf _]. unfold readdirSync.
  destruct (lookup p (tree st)) as [[c|sub]|] eqn:Hl; try done.
  intros [= <-]. by eapply wf_node_Dir, wf_lookup.
Qed.

Section Steps.
Context `{Runtime}.
Variable this : manager.

Lemma keeps_cleanBuild : keeps (cleanBuild this).
Proof.
  unfold cleanBuild. apply keeps_seq; [by apply keeps_record|].
  destruct (negb (clean this)); [apply keeps_mret|].
  apply keeps_rethrow, (keeps_bind (λ _, True)); [apply keeps_existsSync|done|].
  intros found _. apply keeps_seq.
  - destruct found; [apply keeps_rmSync|apply keeps_mret].
  - apply keeps_mkdirSync. by repeat constructor.
Qed.

Lemma keeps_copy_existing files :
  (∀ file, file ∈ files → has_slash file.2 = false ∧ file.2 ≠ "hashes.json") →
  keeps (copy_existing files).
Proof.
  intros Hfiles. apply keeps_for_each. intros file [Hslash Hne]%Hfiles.
  apply (keeps_bind (λ _, True)); [apply keeps_existsSync|done|].
  intros [] _; [|apply keeps_mret].
  apply (keeps_bind (λ _, True)); [apply keeps_readFileSync|done|].
  intros content _. apply keeps_writeFileSync.
  - by repeat constructor.
  - intros [= ?]. done.
Qed.

Lemma keeps_copyStaticFiles : keeps copyStaticFiles.
Proof.
  unfold copyStaticFiles. apply keeps_seq; [by apply keeps_record|].
  apply keeps_rethrow, keeps_copy_existing.
  intros file Hfile. unfold staticFiles in Hfile.
  repeat (apply elem_of_cons in Hfile as [->|Hfile]; [by split|]).
  by apply elem_of_nil in Hfile.
Qed.

Lemma keeps_process_text sourceDir sub ext minify :
  has_slash sub = false →
  keeps (process_text this sourceDir sub ext minify).
Proof.
  intros Hsub. unfold process_text.
  apply (keeps_bind (λ _, True)); [apply keeps_existsSync|done|].
  intros found _. destruct (negb found); [apply keeps_mret|].
  apply keeps_seq; [apply keeps_mkdirSync; by repeat constructor|].
  apply (keeps_bind (λ es, Forall (λ e, has_slash e.1 = false ∧ wf_node e.2 = true) es));
    [apply keeps_readdirSync|intros ????; by eapply readdirSync_wf|].
  intros listing Hlisting. apply keeps_for_each. intros name Hname.
  apply list_elem_of_filter in Hname as [_ Hname].
  apply list_elem_of_fmap in Hname as (e & -> & He).
  rewrite Forall_forall in Hlisting. destruct (Hlisting _ He) as [Hslash _].
  apply (keeps_bind (λ _, True)); [apply keeps_readFileSync|done|].
  intros bytes _. apply keeps_writeFileSync.
  - by repeat constructor.
  - intros [= ?].
Qed.

Lemma keeps_processCSS : keeps (processCSS this).
Proof.
  unfold processCSS. apply keeps_seq; [by apply keeps_record|].
  by apply keeps_rethrow, keeps_process_text.
Qed.

Lemma keeps_processJS : keeps (processJS this).
Proof.
  unfold processJS. apply keeps_seq; [by apply keeps_record|].
  by apply keeps_rethrow, keeps_process_text.
Qed.

Lemma copyDirectory_unfold n dest :
  copyDirectory n dest =
    (mkdirSync dest ;;
     match n with
     | File _ => throw "ENOTDIR: not a directory"
     | Dir files =>
         for_each files (λ file,
           match file.2 with
           | Dir _ => copyDirectory file.2 (dest ++ [file.1])
           | File content => writeFileSync (dest ++ [file.1]) content
           end)
     end).
Proof. by destruct n. Qed.

Lemma keeps_copyDirectory n : ∀ rest,
  wf_node n = true → Forall (λ x, has_slash x = false) rest →
  keeps (copyDirectory n (distDir ++ "src" :: rest)).
Proof.
  induction n as [c|es IH] using node_ind; intros rest Hwf Hrest;
    rewrite copyDirectory_unfold.
  - apply keeps_seq; [|apply keeps_throw].
    apply keeps_mkdirSync. by repeat constructor.
  - apply keeps_seq; [apply keeps_mkdirSync; by repeat constructor|].
    apply wf_node_Dir in Hwf as [_ Hall].
    rewrite Forall_forall in IH, Hall.
    apply keeps_for_each. intros [k m] Hkm. cbn [fst snd].
    destruct (Hall _ Hkm) as [Hk Hm]. cbn [fst snd] in *.
    destruct m as [c|sub].
    + apply keeps_writeFileSync.
      * cbn [distDir app]. repeat constructor.
        apply Forall_app. split; [done|by repeat constructor].
      * intros [= ?].
    + change (distDir ++ "src" :: rest) with ((distDir ++ ["src"]) ++ rest).
      rewrite <-app_assoc.
      change ((distDir ++ ["src"]) ++ rest ++ [k])
        with (distDir ++ "src" :: (rest ++ [k])).
      apply (IH _ Hkm); [done|].
      apply Forall_app. split; [done|by repeat constructor].
Qed.

Lemma keeps_processSrcFiles : keeps processSrcFiles.
Proof.
  unfold processSrcFiles. apply keeps_seq; [by apply keeps_record|].
  apply keeps_rethrow. intros st Hst.
  destruct (lookup srcDir (tree st)) as [n|] eqn:Hn; [|done].
  apply (keeps_copyDirectory n []); [|done..].
  eapply wf_lookup; [apply Hst|done].
Qed.

Lemma steps_before_hashes st :
  invariant st →
  ∃ st5, invariant st5 ∧
    ((∃ e, steps this st = (inl e, st5)) ∨
     steps this st = (generateHashes this ≫= λ _, validateBuild) st5).
Proof.
  intros Hst. unfold steps. rewrite run_bind.
  pose proof (keeps_cleanBuild st Hst) as H1.
  destruct (cleanBuild this st) as [[e|[]] st1]; [exists st1; eauto|].
  rewrite run_bind. pose proof (keeps_copyStaticFiles st1 H1) as H2.
  destruct (copyStaticFiles st1) as [[e|[]] st2]; [exists st2; eauto|].
  rewrite run_bind. pose proof (keeps_processCSS st2 H2) as H3.
  destruct (processCSS this st2) as [[e|[]] st3]; [exists st3; eauto|].
  rewrite run_bind. pose proof (keeps_processJS st3 H3) as H4.
  destruct (processJS this st3) as [[e|[]] st4]; [exists st4; eauto|].
  rewrite run_bind. pose proof (keeps_processSrcFiles st4 H4) as H5.
  destruct (processSrcFiles st4) as [[e|[]] st5]; [exists st5; eauto|].
  exists st5. eauto.
Qed.

Lemma validateBuild_state st :
  (validateBuild st).2 = {| tree := tree st; ops := ops st ++ [Call "validateBuild"] |}.
Proof.
  destruct st as [t l].
  cbv beta iota delta [validateBuild rethrow record existsSync readdirSync
    mbind M_bind bind ret throw mret M_ret tree ops].
  destruct (bool_decide _); [|done].
  by destruct (lookup distDir t) as [[c|[|e es]]|].
Qed.

Lemma generateHashes_dev st :
  isProduction this = false →
  generateHashes this st =
    (inr (), {| tree := tree st; ops := ops st ++ [Call "generateHashes"] |}).
Proof. intros Hp. unfold generateHashes. by rewrite run_bind, Hp. Qed.

Lemma generateHashes_prod st :
  isProduction this = true →
  let st1 := {| tree := tree st; ops := ops st ++ [Call "generateHashes"] |} in
  (∃ e, generateHashes this st = (inl e, st1)) ∨
  (∃ d, lookup distDir (tree st) = Some (Dir d) ∧
        (∀ sub, entry "hashes.json" d ≠ Some (Dir sub)) ∧
        let content := JSON_stringify (hashFiles [] (Dir d) []) in
        generateHashes this st =
          (inr (),
           {| tree := set_entry "dist" (Dir (set_entry "hashes.json" (File content) d))
                        (tree st);
              ops := ops st1 ++ [Wrote hashesPath content] |})).
Proof.
  intros Hp st1. unfold generateHashes. rewrite run_bind, Hp.
  cbn [record negb]. fold st1. unfold rethrow. rewrite run_bind.
  change (tree st1) with (tree st).
  destruct (lookup distDir (tree st)) as [[c|d]|] eqn:Hd.
  - left. by eexists.
  - assert (entry "dist" (tree st) = Some (Dir d)) as Hd'.
    { unfold distDir in Hd. rewrite lookup_cons in Hd.
      destruct (entry "dist" (tree st)) as [[?|?]|]; by simplify_eq/=. }
    cbn [ret]. unfold writeFileSync, hashesPath. change (tree st1) with (tree st).
    cbn [distDir app]. rewrite lookup_cons, Hd', lookup_singleton.
    rewrite (put_in_dir _ _ _ _ d) by done.
    destruct (entry "hashes.json" d) as [[c|sub]|] eqn:Hh.
    + right. exists d. split; [done|]. split; [congruence|]. done.
    + left. by eexists.
    + right. exists d. split; [done|]. split; [congruence|]. done.
  - left. cbn [ret]. unfold writeFileSync, hashesPath. change (tree st1) with (tree st).
    unfold distDir in *. cbn [app]. rewrite lookup_cons in Hd |- *.
    cbn [put].
    destruct (entry "dist" (tree st)) as [[c|sub]|]; try done; by eexists.
Qed.

Lemma quiet_not_wrote l : Forall quiet l → ¬ wrote hashesPath l.
Proof.
  rewrite Forall_forall. intros Hl [content Hc].
  destruct (Hl _ Hc) as [_ Hq]. by apply (Hq content).
Qed.

Lemma quiet_not_validated l : Forall quiet l → "validateBuild" ∉ calls l.
Proof.
  rewrite Forall_forall. intros Hl Hc. unfold calls in Hc.
  apply list_elem_of_omap in Hc as (o & Ho & Hm).
  destruct o; simplify_eq/=. by destruct (Hl _ Ho) as [Hq _].
Qed.

Lemma asset_files_set_non_asset rel k content d :
  is_asset k = false → (∀ sub, entry k d ≠ Some (Dir sub)) →
  asset_files rel (Dir (set_entry k (File content) d)) = asset_files rel (Dir d).
Proof.
  intros Hk. induction d as [|[k' m] d IH]; intros Hd.
  - cbn [set_entry]. rewrite asset_files_Dir_cons, Hk. done.
  - cbn [set_entry entry] in *. destruct (String.eqb_spec k' k) as [->|Hne].
    + rewrite !asset_files_Dir_cons, Hk. destruct m as [c|sub]; [done|].
      by destruct (Hd sub).
    + rewrite !asset_files_Dir_cons, IH; done.
Qed.

Lemma build_eq fs :
  build this fs =
    {| exit_code := match (steps this {| tree := fs; ops := [] |}).1 with
                    | inr _ => 0 | inl _ => 1 end;
       final := tree (steps this {| tree := fs; ops := [] |}).2;
       log := ops (steps this {| tree := fs; ops := [] |}).2 |}.
Proof. unfold build. by destruct (steps this _) as [[e|[]] st]. Qed.

(** Claim C1, as amended.  In every build run on a well-formed tree,
    [hashes.json] is written only if the production flag is in effect;
    with the flag in effect it is written whenever the run gets as far
    as validation, which every run that ends with status 0 does; and
    when written it holds exactly one property per regular file ending
    in [.css] or [.js] under the output directory, keyed by the path
    relative to the output directory, with the digest of the file's
    bytes as value. *)
Theorem hashes_json_iff_production (fs : list (string * node)) :
  wf fs →
  (wrote hashesPath (log (build this fs)) → isProduction this = true) ∧
  (isProduction this = true → "validateBuild" ∈ calls (log (build this fs)) →
     wrote hashesPath (log (build this fs))) ∧
  (exit_code (build this fs) = 0 → "validateBuild" ∈ calls (log (build this fs))) ∧
  (wrote hashesPath (log (build this fs)) →
     ∃ d, lookup distDir (final (build this fs)) = Some (Dir d) ∧
          let hashMap := hash_entry <$> asset_files [] (Dir d) in
          (∀ content, Wrote hashesPath content ∈ log (build this fs) →
                      content = JSON_stringify hashMap) ∧
          entry "hashes.json" d = Some (File (JSON_stringify hashMap)) ∧
          NoDup hashMap.*1 ∧
          (∀ rel content,
             (rel, content) ∈ asset_files [] (Dir d) ↔
             lookup rel d = Some (File content) ∧
             ∃ name, last rel = Some name ∧ is_asset name = true)).
Proof.
  intros Hwf. rewrite build_eq. cbn [exit_code final log].
  assert (invariant {| tree := fs; ops := [] |}) as Hinv by (by split).
  destruct (steps_before_hashes _ Hinv) as (st5 & [Hwf5 Hq5] & [[e ->] | ->]);
    cbn [fst snd].
  { (* an earlier step failed *)
    pose proof (quiet_not_wrote _ Hq5). pose proof (quiet_not_validated _ Hq5).
    done. }
  rewrite run_bind.
  destruct (isProduction this) eqn:Hprod.
  - destruct (generateHashes_prod st5 Hprod) as [[e ->] | (d & Hd & Hh & ->)].
    + (* hash generation failed *)
      cbn [fst snd].
      assert (Forall quiet (ops st5 ++ [Call "generateHashes"])) as Hq.
      { apply Forall_app. split; [done|]. by apply Forall_singleton. }
      pose proof (quiet_not_wrote _ Hq). pose proof (quiet_not_validated _ Hq).
      done.
    + (* [hashes.json] is written, then the build is validated *)
      set (content := JSON_stringify (hashFiles [] (Dir d) [])) in *.
      set (d' := set_entry "hashes.json" (File content) d) in *.
      set (st6 := {| tree := _; ops := _ |}).
      pose proof (validateBuild_state st6) as Hv.
      destruct (validateBuild st6) as [r st7]. cbn [fst snd] in *. subst st7.
      unfold st6. cbn [tree ops].
      assert (wrote hashesPath
                (((ops st5 ++ [Call "generateHashes"]) ++ [Wrote hashesPath content])
                 ++ [Call "validateBuild"])) as Hwrote.
      { exists content. rewrite !elem_of_app, !list_elem_of_singleton. tauto. }
      assert (wf d) as Hwfd by (by eapply wf_lookup).
      assert (wf d') as Hwfd' by (by apply wf_set_entry).
      assert (asset_files [] (Dir d') = asset_files [] (Dir d)) as Hassets.
      { by apply asset_files_set_non_asset. }
      split; [done|]. split; [done|]. split.
      { intros _. unfold calls. rewrite !omap_app. cbn.
        rewrite !elem_of_app, !list_elem_of_singleton. tauto. }
      intros _. exists d'. split.
      { unfold distDir. by rewrite lookup_set_entry_eq. }
      cbn zeta. rewrite Hassets, <-(hashFiles_wf d Hwfd). fold content.
      split; [|split; [|split]].
      * intros c. rewrite !elem_of_app, !list_elem_of_singleton.
        intros [[[Hc|?]|?]|?]; try congruence.
        rewrite Forall_forall in Hq5. destruct (Hq5 _ Hc) as [_ Hq].
        by destruct (Hq c).
      * apply entry_set_entry_eq.
      * rewrite (hashFiles_wf d Hwfd), <-Hassets. by apply hash_entry_NoDup.
      * intros rel c. rewrite <-Hassets.
        rewrite (asset_files_spec (Dir d') Hwfd' [] rel c). split.
        -- intros (es & q & name & [= <-] & -> & Hl & Hlast & Hname). eauto.
        -- intros (Hl & name & Hlast & Hname). by exists d', rel, name.
  - (* development: the hash step does nothing *)
    rewrite (generateHashes_dev st5 Hprod).
    set (st6 := {| tree := _; ops := _ |}).
    pose proof (validateBuild_state st6) as Hv.
    destruct (validateBuild st6) as [r st7]. cbn [fst snd] in *. subst st7.
    unfold st6. cbn [tree ops].
    assert (¬ wrote hashesPath ((ops st5 ++ [Call "generateHashes"]) ++ [Call "validateBuild"]))
      as Hnot.
    { intros [c Hc]. rewrite !elem_of_app, !list_elem_of_singleton in Hc.
      destruct Hc as [[Hc|?]|?]; try done.
      rewrite Forall_forall in Hq5. destruct (Hq5 _ Hc) as [_ Hq].
      by destruct (Hq c). }
    split; [done|]. split; [done|]. split; [|done].
    intros _. unfold calls. rewrite !omap_app. cbn.
    rewrite !elem_of_app, !list_elem_of_singleton. tauto.
Qed.

End Steps.
End StepProofs.

(** * The properties on the example project *)
Module Witnesses.
Import FS Build Example FSProofs BuildProofs StepProofs.

Lemma project_wf : wf project.
Proof. vm_compute. reflexivity. Qed.

Lemma cleanBuild_leaves_empty_dist_witness :
  lookup distDir
    (tree (cleanBuild production_manager {| tree := project; ops := [] |}).2) =
  Some (Dir []).
Proof.
  apply (cleanBuild_leaves_empty_dist production_manager
           {| tree := project; ops := [] |}).
  reflexivity.
Defined.

Lemma staticFiles_distinct : NoDup staticFiles.*2.
Proof. apply (bool_decide_unpack _). vm_compute. exact I. Qed.



Lemma hashes_json_iff_production_witness :
  wrote hashesPath (log (@build ascii_runtime production_manager project)).
Proof.
  destruct (@hashes_json_iff_production ascii_runtime production_manager
              project project_wf) as (_ & Hwritten & _).
  apply Hwritten; [reflexivity|].
  apply (bool_decide_unpack _). vm_compute. exact I.
Defined.

(** Claim C1 as stated fails on an aborted run.  [--production]
    together with [--no-clean], started where there is no output
    directory yet: copying [index.html] fails, the build ends with
    status 1, and [hashes.json] is not written although the production
    flag is given. *)
Lemma hashes_json_not_written_by_aborted_run :
  let args := ["--production"; "--no-clean"] in
  let fs := [("index.html", text "<html></html>")] in
  let this := new_BuildManager (options_of args) None in
  wf fs ∧
  isProduction this = true ∧
  exit_code (@main ascii_runtime args None fs) = 1 ∧
  lookup hashesPath (final (@main ascii_runtime args None fs)) = None ∧
  ¬ (wrote hashesPath (log (@main ascii_runtime args None fs)) ↔
     isProduction this = true).
Proof.
  intros args fs this. do 4 (split; [reflexivity|]).
  assert (log (@main ascii_runtime args None fs)
          = [Call "cleanBuild"; Call "copyStaticFiles"]) as -> by reflexivity.
  intros [_ Hw]. destruct (Hw eq_refl) as [content Hin].
  repeat (apply elem_of_cons in Hin as [Hin|Hin]; [discriminate|]).
  by apply elem_of_nil in Hin.
Qed.

End Witnesses.

(** * The deploy run as a whole *)
Module DeployRunProofs.
Import Deploy DeployProofs DeployRun.

Lemma buildProject_result w this :
  snd (buildProject w this) =
    match exec w "npm ci", exec w "npm run build" with
    | None, _ => inl "Build failed: Command failed: npm ci"
    | Some _, None => inl "Build failed: Command failed: npm run build"
    | Some _, Some _ =>
        if existsSync w (field buildDir (config this)) then inr ()
        else inl ("Build failed: Build directory " +:+
                  show (field buildDir (config this)) +:+ " not found")
    end.
Proof. unfold buildProject, execSync. step_cases. Qed.

Lemma buildProject_commands_eq w this :
  commands (fst (buildProject w this)) =
    match exec w "npm ci" with
    | None => ["npm ci"]
    | Some _ => ["npm ci"; "npm run build"]
    end.
Proof. unfold buildProject, execSync. step_cases. Qed.

(** The build step of the deploy run stops at its first failure: the
    build command is started only after a successful install, the step
    succeeds exactly when both commands exit with status 0 and the build
    directory of the environment exists, and each failure is thrown
    again behind the prefix "Build failed: ". *)
Theorem buildProject_stops_at_first_failure (w : world) (this : manager) :
  snd (buildProject w this) =
    match exec w "npm ci", exec w "npm run build" with
    | None, _ => inl "Build failed: Command failed: npm ci"
    | Some _, None => inl "Build failed: Command failed: npm run build"
    | Some _, Some _ =>
        if existsSync w (field buildDir (config this)) then inr ()
        else inl ("Build failed: Build directory " +:+
                  show (field buildDir (config this)) +:+ " not found")
    end ∧
  commands (fst (buildProject w this)) =
    match exec w "npm ci" with
    | None => ["npm ci"]
    | Some _ => ["npm ci"; "npm run build"]
    end.
Proof. split; [apply buildProject_result|apply buildProject_commands_eq]. Qed.

Lemma deploy_commands w this :
  commands (fst (deploy w this)) =
    if exists_ w "./wrangler.toml" then [deployCommand this] else [].
Proof. unfold deploy, execSync. step_cases. Qed.

Lemma deploy_result w this :
  snd (deploy w this) =
    if exists_ w "./wrangler.toml" then
      match exec w (deployCommand this) with
      | Some _ => inr ()
      | None => inl ("Deployment failed: Command failed: " +:+ deployCommand this)
      end
    else inr ().
Proof. unfold deploy, execSync. step_cases. Qed.

Lemma append_length s1 s2 :
  String.length (s1 +:+ s2) = String.length s1 + String.length s2.
Proof. induction s1 as [|a s1 IH]; simpl; [done|]. by rewrite IH. Qed.

Lemma deployCommand_production this :
  deployCommand this = "npx wrangler pages deploy ./dist --project-name=catipedia" ↔
  environment this = "production".
Proof.
  unfold deployCommand. destruct (decide _) as [Heq|Hne]; [done|].
  split; [|done]. intros Hcmd. apply (f_equal String.length) in Hcmd.
  rewrite append_length in Hcmd. simpl in Hcmd. lia.
Qed.

(** The deployment step starts a command only when [wrangler.toml]
    exists, and then exactly one: the Wrangler deployment, which names
    the project [catipedia] exactly when the environment is production.
    The step fails exactly when that command does; without
    [wrangler.toml] it starts nothing and cannot fail. *)
Theorem deploy_targets_project_of_environment (w : world) (this : manager) :
  commands (fst (deploy w this)) =
    (if exists_ w "./wrangler.toml" then [deployCommand this] else []) ∧
  snd (deploy w this) =
    (if exists_ w "./wrangler.toml" then
       match exec w (deployCommand this) with
       | Some _ => inr ()
       | None => inl ("Deployment failed: Command failed: " +:+ deployCommand this)
       end
     else inr ()) ∧
  (deployCommand this = "npx wrangler pages deploy ./dist --project-name=catipedia" ↔
   environment this = "production") ∧
  (environment this ≠ "production" →
   deployCommand this =
     "npx wrangler pages deploy ./dist --project-name=catipedia-" +:+ environment this).
Proof.
  split; [apply deploy_commands|]. split; [apply deploy_result|].
  split; [apply deployCommand_production|].
  intros Hne. unfold deployCommand. by destruct (decide _).
Qed.

Lemma deploy_targets_project_of_environment_witness :
  let this := {| environment := "staging"; config := CONFIG_get "staging" |} in
  deployCommand this = "npx wrangler pages deploy ./dist --project-name=catipedia-staging".
Proof.
  intros this.
  destruct (deploy_targets_project_of_environment
              {| exec := λ _, None; exists_ := λ _, true |} this) as (_ & _ & _ & H).
  apply H. discriminate.
Defined.

Lemma steps_result_iff w this :
  snd (steps w this) = inr () ↔ goes_through w this.
Proof.
  unfold goes_through.
  rewrite steps_result, preDeploymentChecks_result, buildProject_result,
    runTests_result, deploy_result.
  destruct (exists_ w "./package.json"); [|by intuition].
  destruct (exec w "npm ci"); [|split; [done|intros (_ & [? ?] & _); done]].
  destruct (exec w "npm run build"); [|split; [done|intros (_ & _ & [? ?] & _); done]].
  destruct (existsSync w _); [|by intuition].
  destruct (exec w "npm test").
  - destruct (exists_ w "./wrangler.toml"); [|by intuition].
    destruct (exec w (deployCommand this)); [by intuition|].
    split; [done|]. intros (_ & _ & _ & _ & _ & Hd). by destruct Hd.
  - destruct (decide (environment this = "production")) as [Hp|Hp].
    + split; [done|]. intros (_ & _ & _ & _ & Ht & _). by destruct (Ht Hp).
    + destruct (exists_ w "./wrangler.toml"); [|by intuition].
      destruct (exec w (deployCommand this)); [by intuition|].
      split; [done|]. intros (_ & _ & _ & _ & _ & Hd). by destruct Hd.
Qed.

(** A deploy run ends with status 0 exactly when [package.json] is
    present, the install and the build command succeed, the build
    directory exists, the tests pass or the environment is not
    production, and the Wrangler deployment succeeds if [wrangler.toml]
    is present; otherwise it ends with status 1.  Neither git command
    and no post-deployment task has a part in it. *)
Theorem run_succeeds_iff (w : world) (this : manager) :
  (exit_code (run w this) = 0 ↔ goes_through w this) ∧
  (exit_code (run w this) ≠ 0 → exit_code (run w this) = 1).
Proof.
  rewrite run_exit_code, <-steps_result_iff.
  destruct (snd (steps w this)) as [e|[]]; split; try done.
Qed.

Lemma deploy_commands_sub w this u :
  snd (deploy w this) = u →
  commands (fst (deploy w this)) `prefix_of` [deployCommand this].
Proof.
  intros _. rewrite deploy_commands. destruct (exists_ w _); [done|].
  by apply prefix_nil.
Qed.

Lemma run_commands w this : commands (trace (run w this)) = commands (fst (steps w this)).
Proof.
  destruct (run_trace w this) as (t & -> & _ & Hc).
  by rewrite commands_app, Hc, app_nil_r.
Qed.

Lemma run_calls w this : calls (trace (run w this)) = calls (fst (steps w this)).
Proof.
  destruct (run_trace w this) as (t & -> & Hc & _).
  by rewrite calls_app, Hc, app_nil_r.
Qed.

(** A deploy run starts its commands in one fixed order and starts no
    other command: the commands of a run are an initial part of the two
    git checks, the install, the build, the tests and the Wrangler
    deployment. *)
Theorem run_commands_in_order (w : world) (this : manager) :
  commands (trace (run w this)) `prefix_of` all_commands this.
Proof.
  rewrite run_commands, steps_commands, preDeploymentChecks_commands,
    buildProject_commands_eq, buildProject_result, deploy_commands.
  unfold all_commands. cbn [app].
  do 2 apply prefix_cons.
  destruct (snd (preDeploymentChecks w this)); [apply prefix_nil|].
  destruct (exec w "npm ci"); [|by eexists].
  cbn [app]. do 2 apply prefix_cons.
  destruct (exec w "npm run build"); [|apply prefix_nil].
  destruct (existsSync w _); [|apply prefix_nil].
  apply prefix_cons.
  destruct (snd (runTests w this)); [apply prefix_nil|].
  destruct (exists_ w _); [done|apply prefix_nil].
Qed.

Lemma deployCommand_not_earlier this :
  deployCommand this ∉
    ["git branch --show-current"; "git status --porcelain"; "npm ci";
     "npm run build"; "npm test"].
Proof.
  unfold deployCommand.
  destruct (decide _); rewrite !elem_of_cons, elem_of_nil; intuition discriminate.
Qed.

(** Refutes that a command was started which is none of the earlier ones. *)
Ltac not_started Hin Hnot :=
  exfalso; apply Hnot; cbn [app] in Hin;
  rewrite !elem_of_cons, elem_of_nil in Hin;
  rewrite !elem_of_cons, elem_of_nil; tauto.

(** Nothing is deployed that was not built and, for production, tested:
    when a run starts the Wrangler deployment, [package.json] and
    [wrangler.toml] are present, the install and the build command have
    succeeded, the build directory exists, and in the production
    environment the tests have passed. *)
Theorem deployment_only_after_build_and_tests (w : world) (this : manager) :
  deployCommand this ∈ commands (trace (run w this)) →
  exists_ w "./package.json" = true ∧
  is_Some (exec w "npm ci") ∧
  is_Some (exec w "npm run build") ∧
  existsSync w (field buildDir (config this)) = true ∧
  (environment this = "production" → is_Some (exec w "npm test")) ∧
  exists_ w "./wrangler.toml" = true.
Proof.
  pose proof (deployCommand_not_earlier this) as Hnot.
  rewrite run_commands, steps_commands, preDeploymentChecks_commands,
    buildProject_commands_eq, buildProject_result, runTests_result,
    preDeploymentChecks_result, deploy_commands.
  intros Hin.
  destruct (exists_ w "./package.json"); [|not_started Hin Hnot].
  destruct (exec w "npm ci"); [|not_started Hin Hnot].
  destruct (exec w "npm run build"); [|not_started Hin Hnot].
  destruct (existsSync w _); [|not_started Hin Hnot].
  destruct (exists_ w "./wrangler.toml").
  - do 4 (split; [done|]). split; [|done].
    intros Hp. destruct (exec w "npm test"); [done|].
    destruct (decide _); [|done]. not_started Hin Hnot.
  - destruct (exec w "npm test"); [not_started Hin Hnot|].
    destruct (decide _); not_started Hin Hnot.
Qed.

Lemma deployment_only_after_build_and_tests_witness :
  let w := {| exec := λ _, Some ""; exists_ := λ _, true |} in
  let this := {| environment := "production"; config := CONFIG_get "production" |} in
  is_Some (exec w "npm run build") ∧ exists_ w "./wrangler.toml" = true.
Proof.
  intros w this.
  destruct (deployment_only_after_build_and_tests w this) as (_ & _ & H3 & _ & _ & H6).
  - apply (bool_decide_unpack _). vm_compute. exact I.
  - by split.
Defined.

Lemma run_last_event w this msg :
  snd (steps w this) = inl msg →
  last (trace (run w this)) = Some (Err ("Deployment failed: " +:+ msg)).
Proof.
  unfold run. destruct (steps w this) as [t [e|[]]]; cbn [snd trace]; [|done].
  intros [= ->]. by rewrite last_snoc.
Qed.

(** Settles the case in which all answers of the outside are known. *)
Ltac leaf Hlast :=
  split; [first [done | by eexists]|];
  split; [done|];
  intros ?; [try done];
  eexists; (split; [by apply Hlast|]); eauto 10.

(** A failing deploy run names the step that failed.  The run enters
    its five steps in order and stops at the first one that throws; it
    then prints "Deployment failed: " and the message with
    [console.error] as its last output and ends with status 1.  The
    message is that of the missing [package.json], or begins with "Build
    failed: ", "Tests failed: " or "Deployment failed: ", according to
    the last step entered; a run that enters [postDeployment] always
    ends with status 0. *)
Theorem failed_run_names_its_step (w : world) (this : manager) :
  calls (trace (run w this)) `prefix_of` all_steps ∧
  (exit_code (run w this) = 0 ↔ calls (trace (run w this)) = all_steps) ∧
  (exit_code (run w this) ≠ 0 →
   ∃ msg, last (trace (run w this)) = Some (Err ("Deployment failed: " +:+ msg)) ∧
     ((calls (trace (run w this)) = take 1 all_steps ∧
       msg = "package.json not found in current directory") ∨
      (calls (trace (run w this)) = take 2 all_steps ∧
       ∃ m, msg = "Build failed: " +:+ m) ∨
      (calls (trace (run w this)) = take 3 all_steps ∧
       msg = "Tests failed: Command failed: npm test") ∨
      (calls (trace (run w this)) = take 4 all_steps ∧
       ∃ m, msg = "Deployment failed: " +:+ m))).
Proof.
  rewrite run_calls, steps_calls, run_exit_code.
  pose proof (run_last_event w this) as Hlast.
  rewrite steps_result in *.
  rewrite preDeploymentChecks_result, buildProject_result, runTests_result,
    deploy_result in *.
  unfold all_steps. cbn [take].
  destruct (exists_ w "./package.json"); [|leaf Hlast].
  destruct (exec w "npm ci"); [|leaf Hlast].
  destruct (exec w "npm run build"); [|leaf Hlast].
  destruct (existsSync w _); [|leaf Hlast].
  destruct (exec w "npm test"); [|destruct (decide _); [leaf Hlast|]];
    (destruct (exists_ w "./wrangler.toml");
       [destruct (exec w (deployCommand this))|]);
    leaf Hlast.
Qed.

Lemma failed_run_names_its_step_witness :
  let w := {| exec := λ c, if String.eqb c "npm run build" then None else Some "";
              exists_ := λ _, true |} in
  let this := {| environment := "staging"; config := CONFIG_get "staging" |} in
  ∃ msg, last (trace (run w this)) = Some (Err ("Deployment failed: " +:+ msg)).
Proof.
  intros w this.
  destruct (failed_run_names_its_step w this) as (_ & _ & H).
  destruct H as (msg & Hmsg & _); [vm_compute; discriminate|].
  by exists msg.
Defined.

(** The pre-deployment checks raise no false alarm: when the current
    branch, trimmed, is the branch configured for the environment and
    [git status --porcelain] prints nothing but white space, the step
    writes nothing with [console.warn] or [console.error]. *)
Theorem checks_silent_on_clean_tree (w : world) (this : manager)
    (out status : string) :
  exec w "git branch --show-current" = Some out →
  field branch (config this) = Some (trim out) →
  exec w "git status --porcelain" = Some status →
  trim status = "" →
  filter (λ e, is_diagnostic e = true) (fst (preDeploymentChecks w this)) = [].
Proof.
  intros Hout Hbranch Hstatus Hclean.
  unfold preDeploymentChecks, execSync.
  step_simpl. rewrite Hout. step_simpl.
  destruct (decide _) as [_|Hne]; [|by rewrite Hbranch in Hne].
  step_simpl. rewrite Hstatus. step_simpl.
  destruct (decide _) as [_|Hne]; [|done].
  step_simpl. by destruct (exists_ w "./package.json").
Qed.

Lemma checks_silent_on_clean_tree_witness :
  let w := {| exec := λ c, if String.eqb c "git branch --show-current"
                           then Some ("staging" +:+ String "010" "") else Some "";
              exists_ := λ _, true |} in
  let this := {| environment := "staging"; config := CONFIG_get "staging" |} in
  filter (λ e, is_diagnostic e = true) (fst (preDeploymentChecks w this)) = [].
Proof.
  intros w this.
  apply (checks_silent_on_clean_tree w this ("staging" +:+ String "010" "") "");
    reflexivity.
Defined.

End DeployRunProofs.

(** * Lemmas on changes of a tree *)
Module SurgeryProofs.
Import FS FSProofs Surgery.

Lemma set_entry_same x n es : entry x es = Some n → set_entry x n es = es.
Proof.
  induction es as [|[k m] es IH]; simpl; [done|].
  destruct (String.eqb_spec k x) as [->|Hne].
  - by intros [= ->].
  - intros Hx. by rewrite IH.
Qed.

Lemma set_entry_twice x a b es : set_entry x a (set_entry x b es) = set_entry x a es.
Proof.
  induction es as [|[k m] es IH]; simpl.
  - by rewrite String.eqb_refl.
  - destruct (String.eqb_spec k x) as [->|Hne]; simpl.
    + by rewrite String.eqb_refl.
    + destruct (String.eqb_spec k x); [done|]. by rewrite IH.
Qed.

Lemma set_entry_fresh x n es : entry x es = None → set_entry x n es = es ++ [(x, n)].
Proof.
  induction es as [|[k m] es IH]; simpl; [done|].
  destruct (String.eqb_spec k x); [done|]. intros Hx. by rewrite IH.
Qed.

Lemma entry_None x es : entry x es = None ↔ x ∉ es.*1.
Proof.
  induction es as [|[k m] es IH]; simpl.
  - split; [intros _ ?%elem_of_nil; done|done].
  - rewrite not_elem_of_cons. destruct (String.eqb_spec k x) as [->|Hne].
    + split; [done|]. by intros [? _].
    + rewrite IH. split; [by split|by intros [_ ?]].
Qed.

Lemma entry_app x es1 es2 :
  entry x (es1 ++ es2) = match entry x es1 with Some n => Some n | None => entry x es2 end.
Proof.
  induction es1 as [|[k m] es1 IH]; simpl; [done|].
  by destruct (String.eqb k x).
Qed.

Lemma update_nil f es : update [] f es = f es.
Proof. done. Qed.

Lemma update_cons x p f es :
  update (x :: p) f es =
    match entry x es with
    | Some (Dir sub) => set_entry x (Dir (update p f sub)) es
    | _ => es
    end.
Proof. done. Qed.

Lemma update_app p q f es : update (p ++ q) f es = update p (update q f) es.
Proof.
  revert es. induction p as [|x p IH]; intros es; [done|].
  cbn [app]. rewrite !update_cons.
  destruct (entry x es) as [[c|sub]|]; try done. by rewrite IH.
Qed.

Lemma update_ext p f g es d :
  lookup p es = Some (Dir d) → f d = g d → update p f es = update p g es.
Proof.
  revert es. induction p as [|x p IH]; intros es.
  - cbn. by intros [= ->].
  - rewrite lookup_cons, !update_cons.
    destruct (entry x es) as [[c|sub]|]; try done.
    intros Hl Hfg. by rewrite (IH sub).
Qed.

Lemma update_update p f g es :
  update p f (update p g es) = update p (λ d, f (g d)) es.
Proof.
  revert es. induction p as [|x p IH]; intros es; [done|].
  rewrite !update_cons.
  destruct (entry x es) as [[c|sub]|] eqn:Hx; rewrite ?Hx; try done.
  by rewrite entry_set_entry_eq, set_entry_twice, IH.
Qed.

Lemma lookup_app p q es :
  lookup (p ++ q) es =
    match lookup p es with
    | Some (Dir d) => lookup q d
    | Some (File c) => match q with [] => Some (File c) | _ => None end
    | None => None
    end.
Proof.
  revert es. induction p as [|x p IH]; intros es; [done|].
  cbn [app]. rewrite !lookup_cons.
  destruct (entry x es) as [[c|sub]|]; [|by apply IH|done].
  destruct p as [|y p]; [done|]. done.
Qed.

Lemma lookup_update_app p q f es d :
  lookup p es = Some (Dir d) → lookup (p ++ q) (update p f es) = lookup q (f d).
Proof.
  revert es. induction p as [|x p IH]; intros es.
  - cbn. by intros [= ->].
  - cbn [app]. rewrite (lookup_cons x p es), update_cons.
    destruct (entry x es) as [[c|sub]|] eqn:Hx; [by destruct p|..|done].
    intros Hl. rewrite lookup_set_entry_eq. by apply IH.
Qed.

Lemma lookup_update p f es d :
  lookup p es = Some (Dir d) → lookup p (update p f es) = Some (Dir (f d)).
Proof.
  intros Hl. rewrite <-(app_nil_r p) at 1. by rewrite (lookup_update_app p [] f es d).
Qed.

Lemma diverge_cons x y p q :
  diverge (x :: p) (y :: q) = if String.eqb x y then diverge p q else true.
Proof. done. Qed.

Lemma diverge_sym p q : diverge p q = diverge q p.
Proof.
  revert q. induction p as [|x p IH]; intros [|y q]; try done.
  rewrite !diverge_cons, (String.eqb_sym x y), IH. done.
Qed.

Lemma diverge_app_l p q r : diverge p q = true → diverge (p ++ r) q = true.
Proof.
  revert q. induction p as [|x p IH]; intros [|y q]; try done.
  cbn [app]. rewrite !diverge_cons. destruct (String.eqb x y); [apply IH|done].
Qed.

Lemma diverge_app_r p q r : diverge p q = true → diverge p (q ++ r) = true.
Proof. rewrite !(diverge_sym p). apply diverge_app_l. Qed.

Lemma diverge_common r p q : diverge (r ++ p) (r ++ q) = diverge p q.
Proof.
  induction r as [|x r IH]; [done|]. cbn [app].
  by rewrite diverge_cons, String.eqb_refl.
Qed.

Lemma lookup_update_diverge p q f es :
  diverge p q = true → lookup q (update p f es) = lookup q es.
Proof.
  revert q es. induction p as [|x p IH]; intros [|y q] es; try done.
  rewrite diverge_cons, update_cons.
  destruct (String.eqb_spec x y) as [->|Hne]; intros Hd.
  - destruct (entry y es) as [[c|sub]|] eqn:Hy; try done.
    rewrite lookup_set_entry_eq, IH by done. by rewrite lookup_cons, Hy.
  - destruct (entry x es) as [[c|sub]|]; try done.
    by apply lookup_set_entry_ne.
Qed.

(** *** The three mutations as changes of one directory *)

Lemma put_snoc p k n es :
  put (p ++ [k]) n es =
    match lookup p es with
    | Some (Dir _) => Some (update p (set_entry k n) es)
    | _ => None
    end.
Proof.
  revert es. induction p as [|x p IH]; intros es; [done|].
  assert (put ((x :: p) ++ [k]) n es =
          match entry x es with
          | Some (Dir sub) =>
              match put (p ++ [k]) n sub with
              | Some sub' => Some (set_entry x (Dir sub') es)
              | None => None
              end
          | _ => None
          end) as -> by (by destruct p).
  rewrite lookup_cons, update_cons.
  destruct (entry x es) as [[c|sub]|]; [by destruct p| |done].
  rewrite IH. by destruct (lookup p sub) as [[c|d]|].
Qed.

Lemma mkdirp_existing p es d : lookup p es = Some (Dir d) → mkdirp p es = Some es.
Proof.
  revert es. induction p as [|x p IH]; intros es; [done|].
  rewrite lookup_cons. cbn [mkdirp].
  destruct (entry x es) as [[c|sub]|] eqn:Hx; [by destruct p|..|done].
  intros Hl. rewrite (IH sub Hl). by rewrite set_entry_same.
Qed.

Lemma mkdirp_snoc p k es d :
  lookup p es = Some (Dir d) →
  mkdirp (p ++ [k]) es =
    match entry k d with
    | Some (File _) => None
    | Some (Dir _) => Some es
    | None => Some (update p (set_entry k (Dir [])) es)
    end.
Proof.
  revert es. induction p as [|x p IH]; intros es.
  - cbn. intros [= ->]. destruct (entry k d) as [[c|sub]|] eqn:Hk; [done|..].
    + by rewrite set_entry_same.
    + done.
  - cbn [app]. rewrite lookup_cons, update_cons. cbn [mkdirp].
    destruct (entry x es) as [[c|sub]|] eqn:Hx; [by destruct p|..|done].
    intros Hl. rewrite (IH sub Hl).
    destruct (entry k d) as [[c|sub']|]; [done| |done].
    by rewrite set_entry_same.
Qed.

Lemma lookup_put_diverge p q n es es' :
  put p n es = Some es' → diverge p q = true → lookup q es' = lookup q es.
Proof.
  revert q es es'. induction p as [|x p IH]; intros [|y q] es es'; try done.
  intros Hput. rewrite diverge_cons.
  destruct (String.eqb_spec x y) as [->|Hne]; intros Hd.
  - apply put_cons in Hput as [[-> ->]|[Hp (sub & sub' & Hy & Hput & ->)]];
      [by destruct q|].
    rewrite lookup_set_entry_eq, (IH _ _ _ Hput Hd). by rewrite lookup_cons, Hy.
  - by eapply lookup_put_ne_head.
Qed.

Lemma lookup_mkdirp_diverge p q es es' :
  mkdirp p es = Some es' → diverge p q = true → lookup q es' = lookup q es.
Proof.
  revert q es es'. induction p as [|x p IH]; intros [|y q] es es'; try done.
  cbn [mkdirp]. rewrite diverge_cons.
  destruct (String.eqb_spec x y) as [->|Hne].
  - destruct (entry y es) as [[c|sub]|] eqn:Hy; [done|..].
    + destruct (mkdirp p sub) as [sub'|] eqn:Hm; [|done]. intros [= <-] Hd.
      rewrite lookup_set_entry_eq, (IH _ _ _ Hm Hd). by rewrite lookup_cons, Hy.
    + destruct (mkdirp p []) as [sub'|] eqn:Hm; [|done]. intros [= <-] Hd.
      rewrite lookup_set_entry_eq, (IH _ _ _ Hm Hd). rewrite lookup_cons, Hy.
      destruct q; [by destruct p|done].
  - destruct (entry x es) as [[c|sub]|]; [done|..].
    + destruct (mkdirp p sub) as [sub'|]; [|done]. intros [= <-] _.
      by apply lookup_set_entry_ne.
    + destruct (mkdirp p []) as [sub'|]; [|done]. intros [= <-] _.
      by apply lookup_set_entry_ne.
Qed.

Lemma lookup_remove_entry_ne x y q es :
  x ≠ y → lookup (y :: q) (remove_entry x es) = lookup (y :: q) es.
Proof. intros Hne. by rewrite !lookup_cons, entry_remove_entry_ne. Qed.

Lemma lookup_remove_diverge p q es :
  diverge p q = true → lookup q (remove p es) = lookup q es.
Proof.
  revert q es. induction p as [|x p IH]; intros [|y q] es; try done.
  rewrite diverge_cons. cbn [remove].
  destruct (String.eqb_spec x y) as [->|Hne]; intros Hd.
  - destruct p as [|z p]; [by destruct q|].
    destruct (entry y es) as [[c|sub]|] eqn:Hy; try done.
    rewrite lookup_set_entry_eq, IH by done. by rewrite lookup_cons, Hy.
  - destruct p as [|z p]; [by apply lookup_remove_entry_ne|].
    destruct (entry x es) as [[c|sub]|]; try done.
    by apply lookup_set_entry_ne.
Qed.

End SurgeryProofs.

(** * What a build run leaves alone *)
Module FrameProofs.
Import FS Build FSProofs BuildProofs StepProofs Surgery SurgeryProofs BuildSpec.

(** *** Rules for [preserves] *)

Section Rules.
Variable I : state → Prop.

Lemma preserves_ret {A} (a : A) : preserves I (ret a).
Proof. by intros st. Qed.

Lemma preserves_mret {A} (a : A) : preserves I (mret a : M A).
Proof. by intros st. Qed.

Lemma preserves_throw {A} msg : preserves I (@throw A msg).
Proof. by intros st. Qed.

Lemma preserves_bind {A B} (m : M A) (f : A → M B) :
  preserves I m → (∀ a, preserves I (f a)) → preserves I (m ≫= f).
Proof.
  intros Hm Hf st Hst. rewrite run_bind. specialize (Hm st Hst).
  destruct (m st) as [[e|a] st']; [done|]. by apply Hf.
Qed.

Lemma preserves_rethrow {A} prefix (m : M A) :
  preserves I m → preserves I (rethrow prefix m).
Proof.
  intros Hm st Hst. unfold rethrow. specialize (Hm st Hst).
  by destruct (m st) as [[e|a] st'].
Qed.

Lemma preserves_for_each {A} (xs : list A) body :
  (∀ x, x ∈ xs → preserves I (body x)) → preserves I (for_each xs body).
Proof.
  induction xs as [|x xs IH]; intros Hbody; [apply preserves_ret|].
  intros st Hst. rewrite run_for_each_cons.
  pose proof (Hbody x ltac:(by left) st Hst) as Hx.
  destruct (body x st) as [[e|[]] st']; [done|].
  apply IH; [|done]. intros y Hy. apply Hbody. by right.
Qed.

Lemma preserves_existsSync p : preserves I (existsSync p).
Proof. by intros st. Qed.

Lemma preserves_readFileSync p : preserves I (readFileSync p).
Proof. intros st Hst. unfold readFileSync. by destruct (lookup _ _) as [[?|?]|]. Qed.

Lemma preserves_readdirSync p : preserves I (readdirSync p).
Proof. intros st Hst. unfold readdirSync. by destruct (lookup _ _) as [[?|?]|]. Qed.

(** *** The steps, given what their mutations keep *)

Hypothesis Hrecord : ∀ m, preserves I (record (Call m)).

Lemma preserves_cleanBuild this :
  preserves I (rmSync distDir) → preserves I (mkdirSync distDir) →
  preserves I (cleanBuild this).
Proof.
  intros Hrm Hmk. unfold cleanBuild. apply preserves_bind; [apply Hrecord|].
  intros _. destruct (negb (clean this)); [apply preserves_mret|].
  apply preserves_rethrow, preserves_bind; [apply preserves_existsSync|].
  intros found. apply preserves_bind; [|done].
  destruct found; [done|apply preserves_mret].
Qed.

Lemma preserves_copy_existing files :
  (∀ file content, file ∈ files →
     preserves I (writeFileSync (distDir ++ [file.2]) content)) →
  preserves I (copy_existing files).
Proof.
  intros Hw. apply preserves_for_each. intros file Hfile.
  apply preserves_bind; [apply preserves_existsSync|].
  intros []; [|apply preserves_mret].
  apply preserves_bind; [apply preserves_readFileSync|].
  intros content. by apply Hw.
Qed.

Lemma preserves_process_text `{Runtime} this sourceDir sub ext minify :
  preserves I (mkdirSync (distDir ++ [sub])) →
  (∀ name content, preserves I (writeFileSync ((distDir ++ [sub]) ++ [name]) content)) →
  preserves I (process_text this sourceDir sub ext minify).
Proof.
  intros Hmk Hw. unfold process_text.
  apply preserves_bind; [apply preserves_existsSync|].
  intros found. destruct (negb found); [apply preserves_mret|].
  apply preserves_bind; [done|]. intros _.
  apply preserves_bind; [apply preserves_readdirSync|]. intros listing.
  apply preserves_for_each. intros name _.
  apply preserves_bind; [apply preserves_readFileSync|]. intros bytes. apply Hw.
Qed.

Lemma preserves_copyDirectory n : ∀ dest,
  (∀ rest, preserves I (mkdirSync (dest ++ rest))) →
  (∀ rest name content, preserves I (writeFileSync ((dest ++ rest) ++ [name]) content)) →
  preserves I (copyDirectory n dest).
Proof.
  induction n as [c|es IH] using node_ind; intros dest Hmk Hw;
    rewrite copyDirectory_unfold.
  - apply preserves_bind; [|intros _; apply preserves_throw].
    rewrite <-(app_nil_r dest). apply Hmk.
  - apply preserves_bind; [rewrite <-(app_nil_r dest); apply Hmk|]. intros _.
    rewrite Forall_forall in IH.
    apply preserves_for_each. intros [k m] Hkm. cbn [fst snd].
    destruct m as [c|sub].
    + specialize (Hw [] k c). by rewrite app_nil_r in Hw.
    + apply (IH _ Hkm).
      * intros rest. rewrite <-app_assoc. apply Hmk.
      * intros rest name content. rewrite <-(app_assoc dest). apply Hw.
Qed.

Lemma preserves_processSrcFiles :
  (∀ rest, preserves I (mkdirSync ((distDir ++ ["src"]) ++ rest))) →
  (∀ rest name content,
     preserves I (writeFileSync (((distDir ++ ["src"]) ++ rest) ++ [name]) content)) →
  preserves I processSrcFiles.
Proof.
  intros Hmk Hw. unfold processSrcFiles.
  apply preserves_bind; [apply Hrecord|]. intros _.
  apply preserves_rethrow. intros st Hst.
  destruct (lookup srcDir (tree st)) as [n|]; [|done].
  by apply preserves_copyDirectory.
Qed.

Lemma preserves_generateHashes `{Runtime} this :
  (∀ content, preserves I (writeFileSync hashesPath content)) →
  preserves I (generateHashes this).
Proof.
  intros Hw. unfold generateHashes.
  apply preserves_bind; [apply Hrecord|]. intros _.
  destruct (negb (isProduction this)); [apply preserves_mret|].
  apply preserves_rethrow, preserves_bind; [|intros hashMap; apply Hw].
  intros st Hst. by destruct (lookup distDir (tree st)) as [[c|d]|].
Qed.

Lemma preserves_validateBuild : preserves I validateBuild.
Proof.
  intros st Hst. rewrite validateBuild_state. by apply (Hrecord "validateBuild").
Qed.

End Rules.

(** *** Mutations by what they change *)

Lemma mkdirSync_cases p st :
  (∃ e, mkdirSync p st = (inl e, st)) ∨
  (∃ t, mkdirp p (tree st) = Some t ∧
        mkdirSync p st = (inr (), {| tree := t; ops := ops st ++ [MadeDir p] |})).
Proof.
  unfold mkdirSync. destruct (mkdirp p (tree st)) as [t|]; [right|left]; eauto.
Qed.

Lemma writeFileSync_cases p content st :
  (∃ e, writeFileSync p content st = (inl e, st)) ∨
  (∃ t, put p (File content) (tree st) = Some t ∧
        writeFileSync p content st =
          (inr (), {| tree := t; ops := ops st ++ [Wrote p content] |})).
Proof.
  unfold writeFileSync.
  destruct (lookup p (tree st)) as [[c|d]|];
    destruct (put p (File content) (tree st)) as [t|]; eauto.
Qed.

(** A mutation at [p] keeps what a property says about the tree when
    the property only depends on places that part ways with [p]. *)
Lemma preserves_mutation (I : state → Prop) p :
  (∀ st t o, I st →
     (∀ q, diverge p q = true → lookup q t = lookup q (tree st)) →
     o ∈ [Removed p; MadeDir p] ∨ (∃ c, o = Wrote p c) →
     I {| tree := t; ops := ops st ++ [o] |}) →
  preserves I (rmSync p) ∧ preserves I (mkdirSync p) ∧
  ∀ content, preserves I (writeFileSync p content).
Proof.
  intros Hstep. split; [|split].
  - intros st Hst. unfold rmSync. cbn [snd]. apply Hstep; [done| |left; by left].
    intros q Hq. by apply lookup_remove_diverge.
  - intros st Hst. destruct (mkdirSync_cases p st) as [[e ->]|(t & Ht & ->)]; [done|].
    cbn [snd]. apply Hstep; [done| |left; right; by left].
    intros q Hq. by eapply lookup_mkdirp_diverge.
  - intros content st Hst.
    destruct (writeFileSync_cases p content st) as [[e ->]|(t & Ht & ->)]; [done|].
    cbn [snd]. apply Hstep; [done| |right; by eexists].
    intros q Hq. by eapply lookup_put_diverge.
Qed.

(** *** Nothing outside the output directory is touched *)

Lemma outside_mutation fs r :
  preserves (outside fs) (rmSync ("dist" :: r)) ∧
  preserves (outside fs) (mkdirSync ("dist" :: r)) ∧
  ∀ content, preserves (outside fs) (writeFileSync ("dist" :: r) content).
Proof.
  apply preserves_mutation. intros st t o [Htree Hops] Hframe Ho. split; cbn [tree ops].
  - intros z q Hz. rewrite Hframe; [by apply Htree|].
    rewrite diverge_cons. by destruct (String.eqb_spec "dist" z) as [<-|].
  - apply Forall_app. split; [done|]. apply Forall_singleton.
    destruct Ho as [Ho|[c ->]]; [|by eexists].
    rewrite !elem_of_cons, elem_of_nil in Ho.
    destruct Ho as [->|[->|[]]]; by eexists.
Qed.

Lemma outside_record fs m : preserves (outside fs) (record (Call m)).
Proof.
  intros st [Htree Hops]. split; [done|]. cbn [snd record ops].
  apply Forall_app. split; [done|]. by apply Forall_singleton.
Qed.

Section Build.
Context `{Runtime}.
Variable this : manager.

Lemma outside_steps fs : preserves (outside fs) (steps this).
Proof.
  pose proof (outside_record fs) as Hrec.
  pose proof (outside_mutation fs) as Hmut.
  unfold steps.
  apply preserves_bind.
  { apply preserves_cleanBuild; [done|apply (Hmut [])..]. }
  intros _. apply preserves_bind.
  { unfold copyStaticFiles. apply preserves_bind; [apply Hrec|]. intros _.
    apply preserves_rethrow, preserves_copy_existing.
    intros file content _. apply (Hmut [file.2]). }
  intros _. apply preserves_bind.
  { unfold processCSS. apply preserves_bind; [apply Hrec|]. intros _.
    apply preserves_rethrow, preserves_process_text.
    - apply (Hmut ["css"]).
    - intros name content. apply (Hmut ["css"; name]). }
  intros _. apply preserves_bind.
  { unfold processJS. apply preserves_bind; [apply Hrec|]. intros _.
    apply preserves_rethrow, preserves_process_text.
    - apply (Hmut ["js"]).
    - intros name content. apply (Hmut ["js"; name]). }
  intros _. apply preserves_bind.
  { apply preserves_processSrcFiles; [done|..].
    - intros rest. apply (Hmut ("src" :: rest)).
    - intros rest name content. apply (Hmut ("src" :: rest ++ [name])). }
  intros _. apply preserves_bind.
  { apply preserves_generateHashes; [done|]. apply (Hmut ["hashes.json"]). }
  intros _. by apply preserves_validateBuild.
Qed.

(** The build keeps its hands off the project: whatever the run does
    and however it ends, every file and directory outside [./dist] is
    afterwards as it was before, and every removal, directory creation
    and file write of the run is at a path in [./dist]. *)
Theorem build_writes_only_under_dist (fs : list (string * node)) :
  (∀ z q, z ≠ "dist" →
     lookup (z :: q) (final (build this fs)) = lookup (z :: q) fs) ∧
  Forall under_dist (log (build this fs)).
Proof.
  rewrite build_eq. cbn [final log].
  apply (outside_steps fs {| tree := fs; ops := [] |}). by split.
Qed.

End Build.

(** *** Validation *)

Lemma validateBuild_result st :
  (validateBuild st).1 =
    if bool_decide (is_Some (lookup (distDir ++ ["index.html"]) (tree st)))
    then inr ()
    else inl "Build validation failed: Missing required files: index.html".
Proof.
  destruct st as [t l].
  cbv beta iota delta [validateBuild rethrow record existsSync readdirSync
    mbind M_bind bind ret throw mret M_ret tree ops fst snd].
  case_bool_decide as Hidx; [|done].
  cbn [distDir app] in *. rewrite lookup_cons in Hidx.
  unfold distDir. rewrite lookup_singleton.
  destruct (entry "dist" t) as [[c|[|e es]]|]; try done; by destruct Hidx.
Qed.

(** Validation passes exactly when the output directory has an
    [index.html]; it throws "Missing required files: index.html" behind
    its prefix otherwise and changes nothing in the file system.  Its
    second error, "Build directory is empty", is never thrown: a
    directory that has an [index.html] is not empty. *)
Theorem validateBuild_checks_index_only (st : state) :
  (validateBuild st).1 =
    (if bool_decide (is_Some (lookup (distDir ++ ["index.html"]) (tree st)))
     then inr ()
     else inl "Build validation failed: Missing required files: index.html") ∧
  tree (validateBuild st).2 = tree st ∧
  (validateBuild st).1 ≠ inl "Build validation failed: Build directory is empty".
Proof.
  split; [apply validateBuild_result|]. split; [by rewrite validateBuild_state|].
  rewrite validateBuild_result. by case_bool_decide.
Qed.

(** *** No [index.html], no build *)

Lemma no_index_mutation fs k r :
  k ≠ "index.html" →
  preserves (no_index fs) (rmSync ("dist" :: k :: r)) ∧
  preserves (no_index fs) (mkdirSync ("dist" :: k :: r)) ∧
  ∀ content, preserves (no_index fs) (writeFileSync ("dist" :: k :: r) content).
Proof.
  intros Hk. apply preserves_mutation. intros st t o [Hdist Hroot] Hframe _.
  split; cbn [tree].
  - rewrite Hframe; [done|]. cbn [distDir app].
    rewrite !diverge_cons, String.eqb_refl.
    by destruct (String.eqb_spec k "index.html").
  - by rewrite Hframe.
Qed.

Lemma no_index_record fs m : preserves (no_index fs) (record (Call m)).
Proof. by intros st Hst. Qed.

Lemma no_index_copyStaticFiles fs :
  (∀ c, lookup ["index.html"] fs ≠ Some (File c)) →
  preserves (no_index fs) copyStaticFiles.
Proof.
  intros Hroot. unfold copyStaticFiles.
  apply preserves_bind; [apply no_index_record|]. intros _.
  apply preserves_rethrow, preserves_for_each. intros file Hfile.
  unfold staticFiles in Hfile. apply elem_of_cons in Hfile as [->|Hfile].
  - (* [index.html] is missing or a directory: nothing is written *)
    intros st Hst. pose proof Hst as [_ Hsame].
    cbn [fst snd]. rewrite run_bind, run_existsSync.
    unfold copyFileSync, readFileSync. rewrite Hsame.
    destruct (lookup ["index.html"] fs) as [[c|d]|] eqn:Hl.
    + by destruct (Hroot c).
    + rewrite bool_decide_true by done. rewrite run_bind, Hsame. done.
    + rewrite bool_decide_false by (by intros [? ?]). done.
  - apply preserves_bind; [apply preserves_existsSync|].
    intros []; [|apply preserves_mret].
    apply preserves_bind; [apply preserves_readFileSync|]. intros content.
    repeat (apply elem_of_cons in Hfile as [->|Hfile];
            [by apply (no_index_mutation fs _ [])|]).
    by apply elem_of_nil in Hfile.
Qed.

Section Index.
Context `{Runtime}.
Variable this : manager.

Lemma no_index_cleanBuild fs :
  clean this = true ∨ lookup (distDir ++ ["index.html"]) fs = None →
  no_index fs (cleanBuild this {| tree := fs; ops := [] |}).2.
Proof.
  intros Hstart. destruct (clean this) eqn:Hclean.
  - unfold no_index.
    destruct (cleanBuild_tree this {| tree := fs; ops := [] |} Hclean) as [_ ->].
    cbn [tree]. split.
    + cbn [distDir app]. by rewrite lookup_set_entry_eq.
    + by rewrite lookup_set_entry_ne, lookup_remove_entry_ne.
  - destruct Hstart as [?|Hstart]; [done|].
    unfold cleanBuild. rewrite Hclean. by split.
Qed.

Lemma no_index_later_steps fs :
  preserves (no_index fs)
    (processCSS this ≫= λ _, processJS this ≫= λ _, processSrcFiles ≫= λ _,
     generateHashes this).
Proof.
  pose proof (no_index_record fs) as Hrec.
  apply preserves_bind.
  { unfold processCSS. apply preserves_bind; [apply Hrec|]. intros _.
    apply preserves_rethrow, preserves_process_text.
    - by apply (no_index_mutation fs "css" []).
    - intros name content. by apply (no_index_mutation fs "css" [name]). }
  intros _. apply preserves_bind.
  { unfold processJS. apply preserves_bind; [apply Hrec|]. intros _.
    apply preserves_rethrow, preserves_process_text.
    - by apply (no_index_mutation fs "js" []).
    - intros name content. by apply (no_index_mutation fs "js" [name]). }
  intros _. apply preserves_bind.
  { apply preserves_processSrcFiles; [done|..].
    - intros rest. by apply (no_index_mutation fs "src" rest).
    - intros rest name content. by apply (no_index_mutation fs "src" (rest ++ [name])). }
  intros _. apply preserves_generateHashes; [done|].
  by apply (no_index_mutation fs "hashes.json" []).
Qed.

Lemma steps_assoc st :
  steps this st =
    (cleanBuild this ≫= λ _, copyStaticFiles ≫= λ _,
       (processCSS this ≫= λ _, processJS this ≫= λ _, processSrcFiles ≫= λ _,
        generateHashes this) ≫= λ _, validateBuild) st.
Proof.
  unfold steps. rewrite !run_bind.
  destruct (cleanBuild this st) as [[e|[]] st1]; [done|]. rewrite !run_bind.
  destruct (copyStaticFiles st1) as [[e|[]] st2]; [done|]. rewrite !run_bind.
  destruct (processCSS this st2) as [[e|[]] st3]; [done|]. rewrite !run_bind.
  destruct (processJS this st3) as [[e|[]] st4]; [done|]. rewrite !run_bind.
  destruct (processSrcFiles st4) as [[e|[]] st5]; [done|]. rewrite !run_bind.
  by destruct (generateHashes this st5) as [[e|[]] st6].
Qed.

Lemma steps_fail_without_index fs :
  (∀ c, lookup ["index.html"] fs ≠ Some (File c)) →
  clean this = true ∨ lookup (distDir ++ ["index.html"]) fs = None →
  ∃ e, (steps this {| tree := fs; ops := [] |}).1 = inl e.
Proof.
  intros Hroot Hstart. rewrite steps_assoc, run_bind.
  pose proof (no_index_cleanBuild fs Hstart) as H1.
  destruct (cleanBuild this _) as [[e|[]] st1]; [by eexists|].
  rewrite run_bind.
  pose proof (no_index_copyStaticFiles fs Hroot st1 H1) as H2.
  destruct (copyStaticFiles st1) as [[e|[]] st2]; [by eexists|].
  rewrite run_bind.
  pose proof (no_index_later_steps fs st2 H2) as H3.
  destruct ((processCSS this ≫= _) st2) as [[e|[]] st3]; [by eexists|].
  rewrite validateBuild_result. cbn [snd] in H3. destruct H3 as [-> _].
  rewrite bool_decide_false by (by intros [? ?]). by eexists.
Qed.

(** A build can only succeed on an [index.html]: when a run ends with
    status 0, the project has a regular file [index.html], or cleaning
    was disabled and the output directory already held an [index.html]
    from an earlier run. *)
Theorem build_success_requires_index (fs : list (string * node)) :
  exit_code (build this fs) = 0 →
  (∃ c, lookup ["index.html"] fs = Some (File c)) ∨
  (clean this = false ∧ is_Some (lookup (distDir ++ ["index.html"]) fs)).
Proof.
  rewrite build_eq. cbn [exit_code]. intros Hok.
  destruct (lookup ["index.html"] fs) as [[c|d]|] eqn:Hroot; [left; by eexists|..].
  - destruct (clean this) eqn:Hclean;
      [|destruct (lookup (distDir ++ ["index.html"]) fs) as [n|] eqn:Hstale;
        [right; by split|]].
    all: destruct (steps_fail_without_index fs) as [e He];
      [by rewrite Hroot|auto|by rewrite He in Hok].
  - destruct (clean this) eqn:Hclean;
      [|destruct (lookup (distDir ++ ["index.html"]) fs) as [n|] eqn:Hstale;
        [right; by split|]].
    all: destruct (steps_fail_without_index fs) as [e He];
      [by rewrite Hroot|auto|by rewrite He in Hok].
Qed.

Lemma copy_without_dist fs c :
  lookup distDir fs = None →
  lookup ["index.html"] fs = Some (File c) →
  clean this = false →
  ∃ e, (steps this {| tree := fs; ops := [] |}).1 = inl e.
Proof.
  intros Hdist Hroot Hclean.
  assert (entry "dist" fs = None) as Hd.
  { unfold distDir in Hdist. rewrite lookup_singleton in Hdist. done. }
  unfold steps. rewrite run_bind. unfold cleanBuild at 1. rewrite Hclean.
  rewrite run_bind. cbn [record negb ret mret M_ret tree ops].
  rewrite run_bind. unfold copyStaticFiles at 1. rewrite run_bind.
  cbn [record tree ops]. unfold rethrow, staticFiles.
  rewrite copy_existing_cons. cbn [tree]. rewrite Hroot.
  rewrite bool_decide_true by done.
  unfold copyFileSync, readFileSync, writeFileSync. rewrite run_bind.
  cbn [tree distDir app]. rewrite Hroot. cbn [tree ops].
  rewrite lookup_cons, Hd. cbn [put]. rewrite Hd.
  by eexists.
Qed.

(** [--no-clean] needs an output directory: a run with cleaning
    disabled that finds no [./dist] ends with status 1, whatever else
    the project holds. *)
Theorem no_clean_build_needs_output_directory (fs : list (string * node)) :
  clean this = false →
  lookup distDir fs = None →
  exit_code (build this fs) = 1.
Proof.
  intros Hclean Hdist. rewrite build_eq. cbn [exit_code].
  assert (lookup (distDir ++ ["index.html"]) fs = None) as Hstale.
  { by rewrite lookup_app, Hdist. }
  destruct (lookup ["index.html"] fs) as [[c|d]|] eqn:Hroot.
  - destruct (copy_without_dist fs c Hdist Hroot Hclean) as [e ->]. done.
  - destruct (steps_fail_without_index fs) as [e ->]; [by rewrite Hroot|auto|done].
  - destruct (steps_fail_without_index fs) as [e ->]; [by rewrite Hroot|auto|done].
Qed.

End Index.

End FrameProofs.

(** * What a build run writes *)
Module OutputProofs.
Import FS Build FSProofs BuildProofs HashProofs StepProofs.
Import Surgery SurgeryProofs BuildSpec FrameProofs Witnesses.

(** *** Mutations of an existing directory *)

Lemma writeFileSync_snoc p k content st d :
  lookup p (tree st) = Some (Dir d) →
  writeFileSync (p ++ [k]) content st =
    if is_dir (entry k d)
    then (inl "EISDIR: illegal operation on a directory", st)
    else (inr (), {| tree := update p (set_entry k (File content)) (tree st);
                     ops := ops st ++ [Wrote (p ++ [k]) content] |}).
Proof.
  intros Hp. unfold writeFileSync.
  rewrite lookup_app, Hp, lookup_singleton, put_snoc, Hp.
  by destruct (entry k d) as [[c|s]|].
Qed.

Lemma mkdirSync_snoc p k st d :
  lookup p (tree st) = Some (Dir d) →
  mkdirSync (p ++ [k]) st =
    match entry k d with
    | Some (File _) => (inl "EEXIST: file already exists", st)
    | Some (Dir _) =>
        (inr (), {| tree := tree st; ops := ops st ++ [MadeDir (p ++ [k])] |})
    | None =>
        (inr (), {| tree := update p (set_entry k (Dir [])) (tree st);
                    ops := ops st ++ [MadeDir (p ++ [k])] |})
    end.
Proof.
  intros Hp. unfold mkdirSync. rewrite (mkdirp_snoc p k _ d Hp).
  by destruct (entry k d) as [[c|s]|].
Qed.

Lemma update_singleton k f d acc :
  entry k d = Some (Dir acc) → update [k] f d = set_entry k (Dir (f acc)) d.
Proof. intros Hk. by rewrite update_cons, Hk. Qed.

(** *** The output directory along a run *)

Lemma dist_is_entry fs d st :
  dist_is fs d st → entry "dist" (tree st) = Some (Dir d).
Proof.
  intros [Hd _]. unfold distDir in Hd. rewrite lookup_singleton in Hd. done.
Qed.

Lemma dist_is_update fs d st q f l :
  dist_is fs d st →
  dist_is fs (update q f d) {| tree := update (distDir ++ q) f (tree st); ops := l |}.
Proof.
  intros [Hd Hout]. split; cbn [tree].
  - rewrite update_app. by apply lookup_update.
  - intros z r Hz. rewrite lookup_update_diverge; [by apply Hout|].
    cbn [distDir app]. rewrite diverge_cons.
    by destruct (String.eqb_spec "dist" z) as [<-|].
Qed.

Lemma dist_is_ops fs d t l l' :
  dist_is fs d {| tree := t; ops := l |} → dist_is fs d {| tree := t; ops := l' |}.
Proof. done. Qed.

Lemma dist_is_source fs d st z q :
  dist_is fs d st → z ≠ "dist" → lookup (z :: q) (tree st) = lookup (z :: q) fs.
Proof. intros [_ Hout]. apply Hout. Qed.

Lemma dist_is_sub fs d st sub acc :
  dist_is fs d st → entry sub d = Some (Dir acc) →
  lookup (distDir ++ [sub]) (tree st) = Some (Dir acc).
Proof. intros [Hd _] Hsub. by rewrite lookup_app, Hd, lookup_singleton. Qed.

(** *** Entries written one after the other *)

Lemma merge_entries_nil old : merge_entries [] old = old.
Proof. done. Qed.

Lemma merge_entries_cons e new old :
  merge_entries (e :: new) old = merge_entries new (set_entry e.1 e.2 old).
Proof. done. Qed.

Lemma merge_entries_fresh new old :
  NoDup (old.*1 ++ new.*1) → merge_entries new old = old ++ new.
Proof.
  revert old. induction new as [|[k n] new IH]; intros old Hnd.
  - by rewrite app_nil_r.
  - rewrite merge_entries_cons. cbn [fst snd].
    rewrite fmap_cons in Hnd. cbn [fst] in Hnd.
    assert (entry k old = None) as Hk.
    { apply entry_None. intros Hin. apply NoDup_app in Hnd as (_ & Hdis & _).
      apply (Hdis k Hin). by left. }
    rewrite (set_entry_fresh _ _ _ Hk), IH.
    + by rewrite <-app_assoc.
    + rewrite fmap_app. cbn. by rewrite <-app_assoc.
Qed.

Lemma is_dir_set_entry k k' n d :
  is_dir (Some n) = false → is_dir (entry k' d) = false →
  is_dir (entry k' (set_entry k n d)) = false.
Proof.
  intros Hn Hk'. destruct (decide (k = k')) as [->|Hne].
  - by rewrite entry_set_entry_eq.
  - by rewrite entry_set_entry_ne.
Qed.

Lemma omap_cons_eq {A B} (f : A → option B) x l :
  omap f (x :: l) = match f x with Some y => y :: omap f l | None => omap f l end.
Proof. done. Qed.

Section Steps.
Context `{Runtime}.
Variable this : manager.
Variable fs : list (string * node).

(** *** Copying the static files *)

Lemma copies_cons src dest files :
  copies fs ((src, dest) :: files) =
    match lookup src fs with
    | Some (File c) => (dest, File c) :: copies fs files
    | _ => copies fs files
    end.
Proof.
  unfold copies. rewrite omap_cons_eq. cbn [fst snd].
  by destruct (lookup src fs) as [[c|s]|].
Qed.

Lemma copy_existing_exact files : ∀ d st,
  dist_is fs d st →
  (∀ file, file ∈ files → ∃ z q, file.1 = z :: q ∧ z ≠ "dist") →
  (∀ file, file ∈ files → is_dir (entry file.2 d) = false) →
  ∃ st', copy_existing files st =
           (if forallb (λ file, negb (is_dir (lookup file.1 fs))) files
            then inr () else inl "EISDIR: illegal operation on a directory", st') ∧
         (forallb (λ file, negb (is_dir (lookup file.1 fs))) files = true →
          dist_is fs (merge_entries (copies fs files) d) st').
Proof.
  induction files as [|[src dest] files IH]; intros d st Hd Hsrc Hdest.
  { exists st. by rewrite copy_existing_nil. }
  rewrite copy_existing_cons.
  destruct (Hsrc (src, dest)) as (z & q & Hsd & Hz); [by left|].
  cbn [fst snd] in *. subst src.
  assert (∀ file, file ∈ files → ∃ z q, file.1 = z :: q ∧ z ≠ "dist") as Hsrc'.
  { intros file Hin. apply Hsrc. by right. }
  rewrite (dist_is_source fs d st z q Hd Hz).
  rewrite copies_cons. cbn [forallb fst snd].
  destruct (lookup (z :: q) fs) as [[c|s]|] eqn:Hl.
  - (* a regular file: copied *)
    rewrite bool_decide_true by done.
    unfold copyFileSync, readFileSync. rewrite run_bind.
    rewrite (dist_is_source fs d st z q Hd Hz), Hl.
    destruct Hd as [Hdist Hout].
    rewrite (writeFileSync_snoc distDir dest c st d Hdist).
    pose proof (Hdest (z :: q, dest) ltac:(by left)) as Hfree. cbn [snd] in Hfree.
    rewrite Hfree.
    destruct (IH (set_entry dest (File c) d)
                {| tree := update distDir (set_entry dest (File c)) (tree st);
                   ops := ops st ++ [Wrote (distDir ++ [dest]) c] |})
      as (st' & Hrun & Hok).
    { by apply (dist_is_update fs d st [] (set_entry dest (File c))). }
    { done. }
    { intros file Hin. apply is_dir_set_entry; [done|]. apply Hdest. by right. }
    exists st'. split; [exact Hrun|exact Hok].
  - (* a directory: the copy throws *)
    rewrite bool_decide_true by done.
    unfold copyFileSync, readFileSync. rewrite run_bind.
    rewrite (dist_is_source fs d st z q Hd Hz), Hl.
    exists st. by split.
  - (* missing: skipped *)
    rewrite bool_decide_false by (by intros [? ?]).
    apply IH; [done..|]. intros file Hin. apply Hdest. by right.
Qed.

(** *** Processing a directory of text files *)

(** The entry [processCSS] and [processJS] write for a name of the
    source listing. *)
Lemma text_loop dir sub minify listing names : ∀ d acc st,
  dir ≠ "dist" →
  lookup [dir] fs = Some (Dir listing) →
  dist_is fs d st → entry sub d = Some (Dir acc) →
  (∀ name, name ∈ names → is_Some (entry name listing)) →
  (∀ name, name ∈ names → is_dir (entry name acc) = false) →
  ∃ st',
    for_each names (λ name,
      bytes ← readFileSync ([dir] ++ [name]);
      writeFileSync ((distDir ++ [sub]) ++ [name]) (processed this minify bytes)) st =
      (if forallb (λ name, is_file (entry name listing)) names
       then inr () else inl "EISDIR: illegal operation on a directory", st') ∧
    (forallb (λ name, is_file (entry name listing)) names = true →
     dist_is fs
       (set_entry sub
          (Dir (merge_entries
                  (omap (λ name, match entry name listing with
                                 | Some (File c) => Some (name, File (processed this minify c))
                                 | _ => None
                                 end) names) acc)) d) st').
Proof.
  intros d acc st Hdir Hlisting. revert d acc st.
  assert (entry dir fs = Some (Dir listing)) as Hent.
  { by rewrite lookup_singleton in Hlisting. }
  induction names as [|name names IH]; intros d acc st Hd Hsub Hsome Hfree.
  { exists st. split; [done|]. intros _. cbn. by rewrite set_entry_same. }
  rewrite run_for_each_cons, run_bind. unfold readFileSync at 1.
  cbn [app]. rewrite (dist_is_source fs d st dir [name] Hd Hdir).
  rewrite lookup_cons, Hent, lookup_singleton.
  rewrite omap_cons_eq. cbn [forallb].
  destruct (Hsome name) as [n Hn]; [by left|]. rewrite Hn.
  destruct n as [c|s]; cbn [is_file andb]; [|exists st; by split].
  change ("dist" :: sub :: [name]) with ((distDir ++ [sub]) ++ [name]).
  rewrite (writeFileSync_snoc (distDir ++ [sub]) name _ st acc)
    by (by eapply dist_is_sub).
  rewrite (Hfree name) by (by left).
  set (x := File (processed this minify c)).
  destruct (IH (set_entry sub (Dir (set_entry name x acc)) d) (set_entry name x acc)
              {| tree := update (distDir ++ [sub]) (set_entry name x) (tree st);
                 ops := ops st ++ [Wrote ((distDir ++ [sub]) ++ [name])
                                      (processed this minify c)] |})
    as (st' & Hrun & Hok).
  { rewrite <-(update_singleton sub (set_entry name x) d acc Hsub).
    by apply dist_is_update. }
  { apply entry_set_entry_eq. }
  { intros name' Hin. apply Hsome. by right. }
  { intros name' Hin. apply is_dir_set_entry; [done|]. apply Hfree. by right. }
  exists st'. split; [exact Hrun|]. intros Hall. specialize (Hok Hall).
  rewrite merge_entries_cons. cbn [fst snd]. by rewrite set_entry_twice in Hok.
Qed.

Lemma filter_names_cons (ext : string) (e : string * node) l :
  filter (λ name, endsWith name ext = true) ((e :: l).*1) =
    if endsWith e.1 ext
    then e.1 :: filter (λ name, endsWith name ext = true) l.*1
    else filter (λ name, endsWith name ext = true) l.*1.
Proof.
  rewrite fmap_cons. destruct (endsWith e.1 ext) eqn:He.
  - by rewrite filter_cons_True.
  - rewrite filter_cons_False; [done|]. by rewrite He.
Qed.

(** Looking the filtered names up in the listing gives the entries of
    the listing themselves. *)
Lemma text_names listing ext minify l :
  NoDup listing.*1 → l ⊆ listing →
  omap (λ name, match entry name listing with
                | Some (File c) => Some (name, File (processed this minify c))
                | _ => None
                end) (filter (λ name, endsWith name ext = true) l.*1) =
    omap (text_entry this ext minify) l ∧
  forallb (λ name, is_file (entry name listing))
    (filter (λ name, endsWith name ext = true) l.*1) =
    forallb (λ e, negb (endsWith e.1 ext && is_dir (Some e.2))) l ∧
  (∀ name, name ∈ filter (λ name, endsWith name ext = true) l.*1 →
     is_Some (entry name listing)).
Proof.
  intros Hnd. induction l as [|[k n] l IH]; intros Hsub.
  { split; [done|]. split; [done|]. by intros ? ?%elem_of_nil. }
  destruct IH as (IH1 & IH2 & IH3).
  { intros e He. apply Hsub. by right. }
  assert (entry k listing = Some n) as Hk.
  { apply elem_of_entry; [done|]. apply Hsub. by left. }
  rewrite filter_names_cons, (omap_cons_eq (text_entry this ext minify)).
  unfold text_entry at 1. cbn [fst snd forallb].
  destruct (endsWith k ext) eqn:Hext; cbn [andb negb]; [|done].
  rewrite omap_cons_eq, Hk. cbn [forallb]. rewrite Hk.
  split; [|split].
  - destruct n as [c|s]; by rewrite <-IH1.
  - rewrite IH2. by destruct n.
  - intros name [->|Hin]%elem_of_cons; [by rewrite Hk|by apply IH3].
Qed.

Lemma process_text_exact dir sub ext minify d st :
  dir ≠ "dist" → wf fs → dist_is fs d st →
  is_file (entry sub d) = false →
  let old := match entry sub d with Some (Dir old) => old | _ => [] end in
  (∀ name, endsWith name ext = true → is_dir (entry name old) = false) →
  ∃ st',
    process_text this [dir] sub ext minify st =
      (if text_source_ok fs [dir] ext then inr ()
       else inl (if is_file (lookup [dir] fs) then "ENOTDIR: not a directory"
                 else "EISDIR: illegal operation on a directory"), st') ∧
    (text_source_ok fs [dir] ext = true →
     dist_is fs
       match lookup [dir] fs with
       | Some (Dir listing) =>
           set_entry sub
             (Dir (merge_entries (omap (text_entry this ext minify) listing) old)) d
       | _ => d
       end st').
Proof.
  intros Hdir Hwf Hd Hsub old Hfree. unfold process_text, text_source_ok.
  rewrite run_bind, run_existsSync. cbn [fst snd].
  rewrite (dist_is_source fs d st dir [] Hd Hdir).
  destruct (lookup [dir] fs) as [n|] eqn:Hsrc.
  2:{ rewrite bool_decide_false by (by intros [? ?]). exists st. by split. }
  rewrite bool_decide_true by done. cbn [negb].
  rewrite run_bind. pose proof Hd as [Hdist _].
  rewrite (mkdirSync_snoc distDir sub st d Hdist).
  (* the state once [dist/sub] is there *)
  assert (∃ st1, match entry sub d with
                 | Some (File _) => (inl "EEXIST: file already exists", st)
                 | Some (Dir _) =>
                     (inr (), {| tree := tree st;
                                 ops := ops st ++ [MadeDir (distDir ++ [sub])] |})
                 | None =>
                     (inr (), {| tree := update distDir (set_entry sub (Dir [])) (tree st);
                                 ops := ops st ++ [MadeDir (distDir ++ [sub])] |})
                 end = (inr (), st1) ∧
                dist_is fs (set_entry sub (Dir old) d) st1) as (st1 & -> & Hd1).
  { unfold old. destruct (entry sub d) as [[c|o]|] eqn:Hs; [done|..].
    - eexists. split; [done|]. rewrite set_entry_same by done. by apply dist_is_ops with (ops st).
    - eexists. split; [done|].
      by apply (dist_is_update fs d st [] (set_entry sub (Dir []))). }
  rewrite run_bind. unfold readdirSync at 1.
  rewrite (dist_is_source fs _ st1 dir [] Hd1 Hdir), Hsrc.
  destruct n as [c|listing]; [exists st1; by split|]. cbn [is_file].
  assert (NoDup listing.*1) as Hnd.
  { apply (wf_lookup _ _ _ Hwf) in Hsrc. by apply wf_node_Dir in Hsrc as [? _]. }
  destruct (text_names listing ext minify listing Hnd) as (Hnames & Hall & Hsome); [done|].
  destruct (text_loop dir sub minify listing
              (filter (λ name, endsWith name ext = true) listing.*1)
              (set_entry sub (Dir old) d) old st1) as (st' & Hrun & Hok); try done.
  { apply entry_set_entry_eq. }
  { intros name [Hext _]%list_elem_of_filter. by apply Hfree. }
  exists st'. rewrite <-Hall. split; [exact Hrun|].
  intros Hyes. specialize (Hok Hyes). by rewrite Hnames, set_entry_twice in Hok.
Qed.

(** *** Copying a directory to a place that is free *)

Lemma copyDirectory_fresh n :
  wf_node n = true → ∀ p k st d,
  lookup p (tree st) = Some (Dir d) → entry k d = None →
  ∃ st',
    copyDirectory n (p ++ [k]) st =
      (match n with Dir _ => inr () | File _ => inl "ENOTDIR: not a directory" end, st') ∧
    tree st' =
      update p (λ d, d ++ [(k, match n with Dir files => Dir files | File _ => Dir [] end)])
        (tree st).
Proof.
  induction n as [c|files IH] using node_ind; intros Hwf p k st d Hp Hk;
    rewrite copyDirectory_unfold, run_bind, (mkdirSync_snoc p k st d Hp), Hk.
  { eexists. split; [done|]. cbn [tree].
    apply (update_ext p _ _ _ d Hp). by apply set_entry_fresh. }
  set (st0 := {| tree := update p (set_entry k (Dir [])) (tree st); ops := _ |}).
  assert (lookup (p ++ [k]) (tree st0) = Some (Dir [])) as Hdest.
  { unfold st0; cbn [tree]. rewrite (lookup_update_app p [k] _ _ d Hp).
    by rewrite lookup_singleton, entry_set_entry_eq. }
  apply wf_node_Dir in Hwf as [Hnd Hall].
  (* the loop, from any point of the listing on *)
  assert (∀ rest done st1,
            Forall (λ e, wf_node e.2 = true →
                         ∀ p k st d, lookup p (tree st) = Some (Dir d) → entry k d = None →
                         ∃ st', copyDirectory e.2 (p ++ [k]) st =
                                  (match e.2 with
                                   | Dir _ => inr ()
                                   | File _ => inl "ENOTDIR: not a directory"
                                   end, st') ∧
                                tree st' =
                                  update p (λ d, d ++ [(k, match e.2 with
                                                           | Dir files => Dir files
                                                           | File _ => Dir []
                                                           end)]) (tree st)) rest →
            Forall (λ e, has_slash e.1 = false ∧ wf_node e.2 = true) rest →
            NoDup (done.*1 ++ rest.*1) →
            lookup (p ++ [k]) (tree st1) = Some (Dir done) →
            ∃ st', for_each rest (λ file,
                     match file.2 with
                     | Dir _ => copyDirectory file.2 ((p ++ [k]) ++ [file.1])
                     | File content => writeFileSync ((p ++ [k]) ++ [file.1]) content
                     end) st1 = (inr (), st') ∧
                   tree st' = update (p ++ [k]) (λ _, done ++ rest) (tree st1)) as Hloop.
  { clear. induction rest as [|[k' m] rest IHrest]; intros done st1 IH Hall Hnd Hdone.
    { exists st1. split; [done|]. rewrite app_nil_r.
      symmetry. rewrite (update_ext _ _ (λ d, d) _ done Hdone) by done.
      clear. revert st1. generalize (p ++ [k]). intros q st1.
      generalize (tree st1). induction q as [|x q IHq]; intros es; [done|].
      rewrite update_cons. destruct (entry x es) as [[c|sub]|] eqn:Hx; try done.
      by rewrite IHq, set_entry_same. }
    apply Forall_cons in IH as [IHm IH]. apply Forall_cons in Hall as [[_ Hm] Hall].
    cbn [fst snd] in *. rewrite run_for_each_cons. cbn [fst snd].
    assert (entry k' done = None) as Hfresh.
    { apply entry_None. intros Hin. apply NoDup_app in Hnd as (_ & Hdis & _).
      apply (Hdis k' Hin). rewrite fmap_cons. by left. }
    assert (∃ st2, match m with
                   | Dir _ => copyDirectory m ((p ++ [k]) ++ [k'])
                   | File content => writeFileSync ((p ++ [k]) ++ [k']) content
                   end st1 = (inr (), st2) ∧
                   tree st2 = update (p ++ [k]) (λ d, d ++ [(k', m)]) (tree st1))
      as (st2 & -> & Hst2).
    { destruct m as [c|sub].
      - rewrite (writeFileSync_snoc _ _ _ _ done Hdone), Hfresh. cbn [is_dir].
        eexists. split; [done|]. cbn [tree].
        apply (update_ext _ _ _ _ done Hdone). by apply set_entry_fresh.
      - by apply (IHm Hm (p ++ [k]) k' st1 done). }
    destruct (IHrest (done ++ [(k', m)]) st2) as (st' & Hrun & Hst'); try done.
    { rewrite fmap_app, <-app_assoc. done. }
    { rewrite Hst2. apply (lookup_update _ (λ d, d ++ [(k', m)]) _ done Hdone). }
    exists st'. split; [done|].
    rewrite Hst', Hst2, update_update.
    apply (update_ext (p ++ [k]) _ (λ _, done ++ (k', m) :: rest) (tree st1) done Hdone).
    by rewrite <-app_assoc. }
  destruct (Hloop files [] st0) as (st' & Hrun & Hst'); try done.
  exists st'. split; [done|].
  rewrite Hst'. unfold st0; cbn [tree].
  rewrite update_app, update_update. apply (update_ext p _ _ _ d Hp).
  rewrite (update_singleton k _ _ []) by apply entry_set_entry_eq.
  by rewrite set_entry_twice, set_entry_fresh.
Qed.

(** *** The steps on the way of a clean build *)

Lemma dist_is_tree d st st' q f :
  dist_is fs d st → tree st' = update (distDir ++ q) f (tree st) →
  dist_is fs (update q f d) st'.
Proof.
  intros Hd Ht. destruct st' as [t l]. cbn [tree] in Ht. subst t.
  by apply dist_is_update.
Qed.

Lemma dist_is_record d st m :
  dist_is fs d st → dist_is fs d {| tree := tree st; ops := ops st ++ [Call m] |}.
Proof. done. Qed.

Lemma run_step (prefix m : string) (body : M ()) st :
  (record (Call m) ≫= λ _, rethrow prefix body) st =
    match body {| tree := tree st; ops := ops st ++ [Call m] |} with
    | (inl e, st') => (inl (prefix +:+ ": " +:+ e), st')
    | ok => ok
    end.
Proof. done. Qed.

Lemma omap_names {A B} (f : A → option (string * B)) (g : A → string) l :
  (∀ x y, f x = Some y → y.1 = g x) →
  (omap f l).*1 ⊆ g <$> l ∧ (NoDup (g <$> l) → NoDup (omap f l).*1).
Proof.
  intros Hfg. induction l as [|x l [IH1 IH2]].
  { split; [done|]. intros _. constructor. }
  rewrite omap_cons_eq, fmap_cons. destruct (f x) as [y|] eqn:Hx.
  - rewrite fmap_cons, (Hfg x y Hx). split.
    + intros z [->|Hz]%elem_of_cons; [by left|right; by apply IH1].
    + intros [Hnotin Hnd]%NoDup_cons. apply NoDup_cons. split; [|by apply IH2].
      intros Hin. by apply Hnotin, IH1.
  - split.
    + intros z Hz. right. by apply IH1.
    + intros [_ Hnd]%NoDup_cons. by apply IH2.
Qed.

Lemma copies_names files :
  (copies fs files).*1 ⊆ files.*2 ∧ (NoDup files.*2 → NoDup (copies fs files).*1).
Proof.
  apply omap_names. intros [src dest] y. cbn [fst snd].
  destruct (lookup src fs) as [[c|s]|]; [|done..]. by intros [= <-].
Qed.

Lemma text_entry_names ext minify listing :
  NoDup listing.*1 → NoDup (omap (text_entry this ext minify) listing).*1.
Proof.
  apply omap_names. intros [k n] y. unfold text_entry. cbn [fst snd].
  destruct (endsWith k ext); [|done]. destruct n; [|done]. by intros [= <-].
Qed.

Lemma copyStaticFiles_exact st :
  dist_is fs [] st →
  ∃ st',
    copyStaticFiles st =
      (if forallb (λ file, negb (is_dir (lookup file.1 fs))) staticFiles
       then inr ()
       else inl "Failed to copy static files: EISDIR: illegal operation on a directory",
       st') ∧
    (forallb (λ file, negb (is_dir (lookup file.1 fs))) staticFiles = true →
     dist_is fs (copies fs staticFiles) st').
Proof.
  intros Hd. unfold copyStaticFiles. rewrite run_step.
  destruct (copy_existing_exact staticFiles []
              {| tree := tree st; ops := ops st ++ [Call "copyStaticFiles"] |})
    as (st' & -> & Hok); [done| |done|].
  { intros file Hin. unfold staticFiles in Hin.
    repeat (apply elem_of_cons in Hin as [->|Hin]; [by eexists _, _|]).
    by apply elem_of_nil in Hin. }
  exists st'. destruct (forallb _ staticFiles); [|by split].
  split; [done|]. intros _. specialize (Hok eq_refl).
  rewrite merge_entries_fresh in Hok; [done|].
  apply copies_names, staticFiles_distinct.
Qed.

Lemma process_step_exact (m prefix dir sub ext : string) minify d st :
  dir ≠ "dist" → wf fs → dist_is fs d st → sub ∉ d.*1 →
  ∃ e st',
    (record (Call m) ≫= λ _,
       rethrow prefix (process_text this [dir] sub ext minify)) st =
      (if text_source_ok fs [dir] ext then inr () else inl e, st') ∧
    (text_source_ok fs [dir] ext = true →
     dist_is fs (d ++ text_part this fs [dir] sub ext minify) st').
Proof.
  intros Hdir Hwf Hd Hsub. rewrite run_step. apply entry_None in Hsub.
  destruct (process_text_exact dir sub ext minify d
              {| tree := tree st; ops := ops st ++ [Call m] |})
    as (st' & -> & Hok); [done..|by rewrite Hsub| |].
  { by rewrite Hsub. }
  eexists _, st'. destruct (text_source_ok fs [dir] ext) eqn:Hsrc; [|by split].
  split; [done|]. intros _. specialize (Hok eq_refl). rewrite Hsub in Hok.
  unfold text_part. unfold text_source_ok in Hsrc.
  destruct (lookup [dir] fs) as [[c|listing]|] eqn:Hl; [done| |by rewrite app_nil_r].
  rewrite merge_entries_fresh, set_entry_fresh in Hok; [done..|].
  apply text_entry_names.
  apply (wf_lookup _ _ _ Hwf) in Hl. by apply wf_node_Dir in Hl as [? _].
Qed.

Lemma processSrcFiles_exact d st :
  wf fs → dist_is fs d st → "src" ∉ d.*1 →
  ∃ e st',
    processSrcFiles st = (if is_file (lookup srcDir fs) then inl e else inr (), st') ∧
    (is_file (lookup srcDir fs) = false → dist_is fs (d ++ src_part fs) st').
Proof.
  intros Hwf Hd Hsrc. unfold processSrcFiles. rewrite run_step. cbn [tree].
  apply entry_None in Hsrc. unfold src_part, srcDir.
  rewrite (dist_is_source fs d st "src" [] Hd) by done.
  destruct (lookup ["src"] fs) as [n|] eqn:Hn.
  2:{ eexists "", _. split; [reflexivity|]. intros _. by rewrite app_nil_r. }
  destruct (copyDirectory_fresh n (wf_lookup _ _ _ Hwf Hn) distDir "src"
              {| tree := tree st; ops := ops st ++ [Call "processSrcFiles"] |} d)
    as (st' & -> & Htree); [apply Hd|done|].
  destruct n as [c|files]; cbn [is_file].
  - by eexists _, st'.
  - eexists "", st'. split; [done|]. intros _.
    by apply (dist_is_tree d st st' [] (λ d, d ++ [("src", Dir files)])).
Qed.

Lemma generateHashes_exact d st :
  dist_is fs d st → wf d → "hashes.json" ∉ d.*1 →
  ∃ st',
    generateHashes this st = (inr (), st') ∧
    dist_is fs
      (d ++ if isProduction this
            then [("hashes.json",
                   File (JSON_stringify (hash_entry <$> asset_files [] (Dir d))))]
            else []) st'.
Proof.
  intros Hd Hwf Hfresh. apply entry_None in Hfresh.
  destruct (isProduction this) eqn:Hprod.
  - unfold generateHashes. rewrite Hprod. cbn [negb]. rewrite run_step, run_bind.
    cbn [tree]. destruct Hd as [Hdist Hout]. rewrite Hdist. cbn [ret].
    unfold hashesPath.
    rewrite (writeFileSync_snoc distDir "hashes.json" _ _ d) by done.
    rewrite Hfresh. cbn [is_dir]. eexists. split; [done|].
    rewrite (hashFiles_wf d Hwf), <-(set_entry_fresh _ _ _ Hfresh).
    by apply (dist_is_update fs d {| tree := tree st; ops := _ |} []).
  - rewrite (generateHashes_dev this st Hprod). eexists. split; [done|].
    by rewrite app_nil_r.
Qed.

(** *** The whole run *)

Lemma not_in_names (x : string) (l : list (string * node)) K :
  l.*1 ⊆ K → x ∉ K → x ∉ l.*1.
Proof. intros Hsub Hx Hin. by apply Hx, Hsub. Qed.

Lemma names_app (d part : list (string * node)) K S :
  d.*1 ⊆ K → part.*1 ⊆ S → (d ++ part).*1 ⊆ K ++ S.
Proof.
  intros Hd Hp x. rewrite fmap_app, !elem_of_app.
  intros [?|?]; [left; by apply Hd|right; by apply Hp].
Qed.

Lemma text_part_names dir sub ext minify :
  (text_part this fs dir sub ext minify).*1 ⊆ [sub].
Proof.
  unfold text_part. destruct (lookup dir fs) as [[c|l]|]; try done.
  all: by intros x ?%elem_of_nil.
Qed.

Lemma src_part_names : (src_part fs).*1 ⊆ ["src"].
Proof.
  unfold src_part. destruct (lookup srcDir fs) as [[c|l]|]; try done.
  all: by intros x ?%elem_of_nil.
Qed.

Lemma hashes_part_names : (hashes_part this fs).*1 ⊆ ["hashes.json"].
Proof.
  unfold hashes_part. destruct (isProduction this); [done|].
  by intros x ?%elem_of_nil.
Qed.

Lemma index_in_dist (X : list (string * node)) :
  X.*1 ⊆ ["css"; "js"; "src"; "hashes.json"] →
  bool_decide (is_Some (entry "index.html" (copies fs staticFiles ++ X))) =
    is_file (lookup ["index.html"] fs).
Proof.
  intros HX. rewrite entry_app. unfold staticFiles. rewrite copies_cons.
  destruct (lookup ["index.html"] fs) as [[c|s]|]; [done|..].
  all: set (others := [(["article.html"], "article.html"); _; _; _; _; _]).
  all: assert (entry "index.html" (copies fs others) = None) as ->
         by (apply entry_None, (not_in_names _ _ others.*2);
             [apply copies_names|unfold others; cbn;
              rewrite !elem_of_cons, elem_of_nil; intuition discriminate]).
  all: assert (entry "index.html" X = None) as ->
         by (apply entry_None, (not_in_names _ _ _ HX);
             rewrite !elem_of_cons, elem_of_nil; intuition discriminate).
  all: apply bool_decide_eq_false; by intros [? ?].
Qed.

(** Refutes [buildable] from one of its parts. *)
Ltac not_buildable :=
  let Hb := fresh in
  unfold buildable; intros Hb;
  repeat (let H := fresh in apply andb_true_iff in Hb as [Hb H]);
  congruence.

Lemma steps_exact :
  wf fs → clean this = true →
  ∃ r st',
    steps this {| tree := fs; ops := [] |} = (r, st') ∧
    (buildable fs = true → r = inr () ∧ dist_is fs (expected_dist this fs) st') ∧
    (buildable fs = false → ∃ e, r = inl e).
Proof.
  intros Hwf Hclean. set (st0 := {| tree := fs; ops := [] |}).
  assert (invariant st0) as Hinv0 by (by split).
  unfold steps. rewrite run_bind.
  (* cleanBuild *)
  destruct (cleanBuild_tree this st0 Hclean) as [Hr1 Ht1].
  pose proof (keeps_cleanBuild this st0 Hinv0) as Hinv1.
  destruct (cleanBuild this st0) as [r1 st1]. cbn [fst snd] in *. subst r1.
  assert (dist_is fs [] st1) as Hd1.
  { unfold dist_is, distDir. rewrite Ht1. split.
    - by rewrite lookup_set_entry_eq.
    - intros z q Hz. by rewrite lookup_set_entry_ne, lookup_remove_entry_ne. }
  (* copyStaticFiles *)
  rewrite run_bind.
  destruct (copyStaticFiles_exact st1 Hd1) as (st2 & Hrun2 & Hd2).
  pose proof (keeps_copyStaticFiles st1 Hinv1) as Hinv2.
  rewrite Hrun2 in *. cbn [snd] in Hinv2. clear Hrun2.
  destruct (forallb _ staticFiles) eqn:Hstatic.
  2:{ eexists _, st2. split; [reflexivity|]. split; [not_buildable|by eexists]. }
  specialize (Hd2 eq_refl).
  pose proof (proj1 (copies_names staticFiles)) as Hn2.
  (* processCSS *)
  rewrite run_bind.
  destruct (process_step_exact "processCSS" "Failed to process CSS" "css" "css" ".css"
              minifyCSS _ st2 ltac:(done) Hwf Hd2) as (e3 & st3 & Hrun3 & Hd3).
  { apply (not_in_names _ _ _ Hn2). cbn.
    rewrite !elem_of_cons, elem_of_nil. intuition discriminate. }
  pose proof (keeps_processCSS this st2 Hinv2) as Hinv3.
  change (processCSS this st2) with
    ((record (Call "processCSS") ≫= λ _,
        rethrow "Failed to process CSS"
          (process_text this ["css"] "css" ".css" minifyCSS)) st2) in *.
  rewrite Hrun3 in *. cbn [snd] in Hinv3. clear Hrun3.
  change ["css"] with cssDir in *.
  destruct (text_source_ok fs cssDir ".css") eqn:Hcss.
  2:{ eexists _, st3. split; [reflexivity|]. split; [not_buildable|by eexists]. }
  specialize (Hd3 eq_refl).
  pose proof (names_app _ _ _ _ Hn2 (text_part_names cssDir "css" ".css" minifyCSS)) as Hn3.
  (* processJS *)
  rewrite run_bind.
  destruct (process_step_exact "processJS" "Failed to process JavaScript" "js" "js" ".js"
              minifyJS _ st3 ltac:(done) Hwf Hd3) as (e4 & st4 & Hrun4 & Hd4).
  { apply (not_in_names _ _ _ Hn3). cbn.
    rewrite !elem_of_cons, elem_of_nil. intuition discriminate. }
  pose proof (keeps_processJS this st3 Hinv3) as Hinv4.
  change (processJS this st3) with
    ((record (Call "processJS") ≫= λ _,
        rethrow "Failed to process JavaScript"
          (process_text this ["js"] "js" ".js" minifyJS)) st3) in *.
  rewrite Hrun4 in *. cbn [snd] in Hinv4. clear Hrun4.
  change ["js"] with jsDir in *.
  destruct (text_source_ok fs jsDir ".js") eqn:Hjs.
  2:{ eexists _, st4. split; [reflexivity|]. split; [not_buildable|by eexists]. }
  specialize (Hd4 eq_refl).
  pose proof (names_app _ _ _ _ Hn3 (text_part_names jsDir "js" ".js" minifyJS)) as Hn4.
  (* processSrcFiles *)
  rewrite run_bind.
  destruct (processSrcFiles_exact _ st4 Hwf Hd4) as (e5 & st5 & Hrun5 & Hd5).
  { apply (not_in_names _ _ _ Hn4). cbn.
    rewrite !elem_of_cons, elem_of_nil. intuition discriminate. }
  pose proof (keeps_processSrcFiles st4 Hinv4) as Hinv5.
  rewrite Hrun5 in *. cbn [snd] in Hinv5. clear Hrun5.
  destruct (is_file (lookup srcDir fs)) eqn:Hsrc.
  { eexists _, st5. split; [reflexivity|]. split; [|by eexists].
    unfold buildable. rewrite Hsrc. by rewrite andb_false_r. }
  specialize (Hd5 eq_refl).
  pose proof (names_app _ _ _ _ Hn4 src_part_names) as Hn5.
  (* generateHashes *)
  rewrite run_bind.
  destruct (generateHashes_exact _ st5 Hd5) as (st6 & Hrun6 & Hd6).
  { destruct Hinv5 as [Hwf5 _]. destruct Hd5 as [Hdist5 _]. by eapply wf_lookup. }
  { apply (not_in_names _ _ _ Hn5). cbn.
    rewrite !elem_of_cons, elem_of_nil. intuition discriminate. }
  rewrite Hrun6. clear Hrun6.
  (* validateBuild *)
  assert (((copies fs staticFiles ++ text_part this fs cssDir "css" ".css" minifyCSS) ++
           text_part this fs jsDir "js" ".js" minifyJS) ++ src_part fs = assets this fs)
    as Hassets.
  { unfold assets. by rewrite <-!app_assoc. }
  rewrite Hassets in Hd6. fold (hashes_part this fs) in Hd6.
  fold (expected_dist this fs) in Hd6.
  pose proof (validateBuild_result st6) as Hv.
  destruct (validateBuild st6) as [r7 st7] eqn:Hrun7. cbn [fst] in Hv.
  assert (tree st7 = tree st6) as Ht7.
  { pose proof (validateBuild_state st6) as Hs. rewrite Hrun7 in Hs. cbn [snd] in Hs.
    by rewrite Hs. }
  pose proof Hd6 as [Hdist6 Hout6].
  rewrite lookup_app, Hdist6, lookup_singleton in Hv.
  unfold expected_dist, assets in Hv. rewrite <-!app_assoc in Hv.
  rewrite index_in_dist in Hv.
  2:{ repeat apply (names_app _ _ [_] _); try apply text_part_names;
        try apply src_part_names. apply hashes_part_names. }
  exists r7, st7. split; [done|]. unfold buildable.
  rewrite Hstatic, Hcss, Hjs, Hsrc, !andb_true_r.
  destruct (is_file (lookup ["index.html"] fs)); subst r7.
  - split; [|done]. intros _. split; [done|]. unfold dist_is. by rewrite Ht7.
  - split; [done|]. intros _. by eexists.
Qed.

(** A clean build succeeds exactly on a buildable project: with
    cleaning on, a run on a well-formed tree ends with status 0 if and
    only if [index.html] is a regular file, no other static file is a
    directory, [css] and [js] are missing or directories in which no
    [.css] or [.js] name is a directory, and [src] is no regular file. *)
Theorem clean_build_succeeds_iff :
  wf fs → clean this = true →
  (exit_code (build this fs) = 0 ↔ buildable fs = true).
Proof.
  intros Hwf Hclean. rewrite build_eq. cbn [exit_code].
  destruct (steps_exact Hwf Hclean) as (r & st' & -> & Hyes & Hno). cbn [fst].
  destruct (buildable fs).
  - by destruct (Hyes eq_refl) as [-> _].
  - by destruct (Hno eq_refl) as [e ->].
Qed.

(* The listing of the output directory after a successful clean build. *)
Lemma clean_build_listing :
  wf fs → clean this = true →
  exit_code (build this fs) = 0 →
  lookup distDir (final (build this fs)) = Some (Dir (expected_dist this fs)).
Proof.
  intros Hwf Hclean. rewrite build_eq. cbn [exit_code final].
  destruct (steps_exact Hwf Hclean) as (r & st' & -> & Hyes & Hno). cbn [fst snd].
  destruct (buildable fs).
  - destruct (Hyes eq_refl) as [_ [Hdist _]]. done.
  - by destruct (Hno eq_refl) as [e ->].
Qed.

Lemma assets_names :
  (assets this fs).*1 ⊆
    staticFiles.*2 ++ ["css"] ++ ["js"] ++ ["src"].
Proof.
  unfold assets.
  repeat apply names_app; try apply text_part_names; try apply src_part_names.
  apply copies_names.
Qed.

Lemma no_hashes_among_assets : entry "hashes.json" (assets this fs) = None.
Proof.
  apply entry_None, (not_in_names _ _ _ assets_names).
  cbn. rewrite !elem_of_cons, elem_of_nil. intuition discriminate.
Qed.

Lemma view_expected p :
  p ≠ ["hashes.json"] →
  view (lookup p (expected_dist this fs)) = view (lookup p (assets this fs)).
Proof.
  intros Hp. destruct p as [|x q]; [done|]. cbn [lookup].
  unfold expected_dist. rewrite entry_app.
  destruct (entry x (assets this fs)) as [n|] eqn:Hx; [done|].
  unfold hashes_part. destruct (isProduction this); [|done]. cbn [entry].
  destruct (String.eqb_spec "hashes.json" x) as [<-|_]; [|done].
  destruct q; [done|done].
Qed.

(** The output of a successful clean build is a function of the
    project: below the output directory there are then the static files
    that exist, [css] and [js] with their [.css] and [.js] files
    (minified in production, passed through otherwise) and a copy of
    [src], each path holding what it holds there and no other path
    holding anything; and [hashes.json] is there in production only,
    with one digest for each of these files that is an asset, in some
    order of the keys. *)
Theorem clean_build_output :
  wf fs → clean this = true →
  exit_code (build this fs) = 0 →
  (∀ p, p ≠ ["hashes.json"] →
     view (lookup (distDir ++ p) (final (build this fs))) =
       view (lookup p (assets this fs))) ∧
  (if isProduction this
   then ∃ hashMap,
          hashMap ≡ₚ hash_entry <$> asset_files [] (Dir (assets this fs)) ∧
          lookup hashesPath (final (build this fs)) =
            Some (File (JSON_stringify hashMap))
   else lookup hashesPath (final (build this fs)) = None).
Proof.
  intros Hwf Hclean Hok.
  pose proof (clean_build_listing Hwf Hclean Hok) as Hdist.
  split.
  - intros p Hp. rewrite lookup_app, Hdist. by apply view_expected.
  - unfold hashesPath. rewrite lookup_app, Hdist. cbn [lookup].
    unfold expected_dist. rewrite entry_app, no_hashes_among_assets.
    unfold hashes_part. destruct (isProduction this); [|done].
    eexists. split; [reflexivity|]. cbn [entry]. by rewrite String.eqb_refl.
Qed.

End Steps.

(** *** The steps on their own *)

Lemma dist_is_refl st d :
  lookup distDir (tree st) = Some (Dir d) → dist_is (tree st) d st.
Proof. by split. Qed.


Section Text.
Context `{Runtime}.
Variable this : manager.





End Text.

(** [processSrcFiles] copies a tree: when [src] is a directory and
    the output directory has no [src] yet, the step succeeds and every
    path below [dist/src] then holds what the same path below [src]
    holds, a directory for a directory and a file of the same bytes for
    a file; the other entries of the output directory and everything
    outside it are unchanged. *)
Theorem processSrcFiles_copies_tree (st : state) :
  wf (tree st) →
  is_dir (lookup distDir (tree st)) = true →
  lookup (distDir ++ ["src"]) (tree st) = None →
  is_dir (lookup srcDir (tree st)) = true →
  (processSrcFiles st).1 = inr () ∧
  (∀ q, view (lookup (distDir ++ "src" :: q) (tree (processSrcFiles st).2)) =
        view (lookup (srcDir ++ q) (tree st))) ∧
  (∀ k q, k ≠ "src" →
     lookup (distDir ++ k :: q) (tree (processSrcFiles st).2) =
       lookup (distDir ++ k :: q) (tree st)) ∧
  (∀ z q, z ≠ "dist" →
     lookup (z :: q) (tree (processSrcFiles st).2) = lookup (z :: q) (tree st)).
Proof.
  intros Hwf Hdir Hnone Hsrcdir.
  destruct (lookup distDir (tree st)) as [[c|d]|] eqn:Hdist; [done| |done].
  destruct (lookup srcDir (tree st)) as [[c|files]|] eqn:Hsrc; [done| |done].
  assert (entry "src" d = None) as Hfree.
  { rewrite lookup_app, Hdist in Hnone. cbn [lookup] in Hnone.
    by destruct (entry "src" d) as [[c|sub]|]. }
  destruct (processSrcFiles_exact (tree st) d st Hwf (dist_is_refl st d Hdist))
    as (e & st' & Hrun & Hd').
  { by apply entry_None. }
  rewrite Hsrc in Hrun, Hd'. cbn [is_file] in *. rewrite Hrun. cbn [fst snd].
  destruct (Hd' eq_refl) as [Hdist' Hout']. unfold src_part in Hdist'.
  rewrite Hsrc in Hdist'.
  split; [done|]. split; [|split; [|done]].
  - intros q. rewrite !lookup_app, Hdist', Hsrc.
    cbn [lookup]. rewrite entry_app, Hfree. cbn [entry]. by rewrite String.eqb_refl.
  - intros k q Hk. rewrite !lookup_app, Hdist', Hdist. cbn [lookup].
    rewrite entry_app. destruct (entry k d) as [n|]; [done|]. cbn [entry].
    by destruct (String.eqb_spec "src" k) as [Heq|_]; [destruct Hk|].
Qed.

End OutputProofs.

(** * The shape of minified text *)
Module ShapeProofs.
Import JsString Build TextProofs TextSpec.

Lemma no_pair_cons bad a t :
  no_pair bad (a :: t) = negb (starts_with (bad a) t) && no_pair bad t.
Proof. by destruct t. Qed.

Lemma no_pair_tail bad a t : no_pair bad (a :: t) = true → no_pair bad t = true.
Proof. rewrite no_pair_cons. by intros [_ ?]%andb_true_iff. Qed.

Lemma no_pair_drop bad k s : no_pair bad s = true → no_pair bad (drop k s) = true.
Proof.
  revert s. induction k as [|k IH]; intros [|c t]; try done.
  intros Hs. apply IH. by eapply no_pair_tail.
Qed.

Lemma trimEnd_cons c t :
  trimEnd (c :: t) =
    match trimEnd t with
    | [] => if isWhiteSpace c then [] else [c]
    | t' => c :: t'
    end.
Proof. done. Qed.

Lemma trimEnd_starts p t : starts_with p (trimEnd t) = true → starts_with p t = true.
Proof.
  destruct t as [|c t]; [done|]. rewrite trimEnd_cons.
  destruct (trimEnd t); [by destruct (isWhiteSpace c)|done].
Qed.

Lemma no_pair_trimEnd bad s : no_pair bad s = true → no_pair bad (trimEnd s) = true.
Proof.
  induction s as [|c t IH]; [done|]. rewrite no_pair_cons, trimEnd_cons.
  intros [Hc Ht]%andb_true_iff. specialize (IH Ht).
  pose proof (trimEnd_starts (bad c) t) as Hstart.
  destruct (trimEnd t) as [|d t'] eqn:Ht'; [by destruct (isWhiteSpace c)|].
  rewrite no_pair_cons, IH, andb_true_r.
  apply negb_true_iff. apply negb_true_iff in Hc.
  destruct (starts_with (bad c) (d :: t')) eqn:Hd; [|done].
  by rewrite Hstart in Hc.
Qed.

Lemma no_pair_trim bad s : no_pair bad s = true → no_pair bad (trim s) = true.
Proof. intros Hs. by apply no_pair_trimEnd, no_pair_drop. Qed.

(** *** Trimming *)

Lemma trimStart_starts s : starts_with isWhiteSpace (trimStart s) = false.
Proof.
  unfold trimStart. pose proof (span_drop_head isWhiteSpace s) as Hhead.
  by destruct (drop _ s).
Qed.

Lemma trimEnd_ends s : ends_with isWhiteSpace (trimEnd s) = false.
Proof.
  unfold ends_with. induction s as [|c t IH]; [done|]. rewrite trimEnd_cons.
  destruct (trimEnd t) as [|d t'] eqn:Ht.
  - by destruct (isWhiteSpace c) eqn:Hc; [|cbn; rewrite Hc].
  - by rewrite last_cons_cons.
Qed.

Lemma trim_trimmed s :
  starts_with isWhiteSpace (trim s) = false ∧ ends_with isWhiteSpace (trim s) = false.
Proof.
  split; [|apply trimEnd_ends]. unfold trim.
  destruct (starts_with isWhiteSpace (trimEnd (trimStart s))) eqn:Hs; [|done].
  apply trimEnd_starts in Hs. by rewrite trimStart_starts in Hs.
Qed.

(** *** One line *)

Lemma LineTerminator_WhiteSpace c :
  isLineTerminator c = true → isWhiteSpace c = true ∧ c ≠ SPACE.
Proof.
  unfold isLineTerminator. rewrite !orb_true_iff, !N.eqb_eq.
  intros [[[->| ->]| ->]| ->]; by split.
Qed.

Lemma squeezed_from_chars b s :
  squeezed_from b s = true → Forall (λ c, isLineTerminator c = false) s.
Proof.
  revert b. induction s as [|c t IH]; intros b; [by constructor|].
  cbn [squeezed_from]. destruct (isWhiteSpace c) eqn:Hc.
  - intros [[Hsp _]%andb_true_iff Ht]%andb_true_iff. apply N.eqb_eq in Hsp as ->.
    constructor; [done|by eapply IH].
  - intros Ht. constructor; [|by eapply IH].
    destruct (isLineTerminator c) eqn:Hlt; [|done].
    apply LineTerminator_WhiteSpace in Hlt as [? _]. congruence.
Qed.

(** *** Substitutions that put in one code unit *)

(** A substitution whose replacement is one code unit that is in no
    bad pair makes no bad pair, whatever its pattern. *)
Lemma replace_g_no_pair m x bad s :
  (∀ a, bad a x = false) → (∀ b, bad x b = false) →
  no_pair bad s = true →
  no_pair bad (replace_g m [x] s) = true ∧
  ∀ a, starts_with (bad a) (replace_g m [x] s) = true → starts_with (bad a) s = true.
Proof.
  intros Hl Hr. remember (length s) as k eqn:Hk.
  revert s Hk. induction (lt_wf k) as [k _ IH]. intros s -> Hs.
  destruct s as [|c t].
  { rewrite replace_g_nil. destruct (m []); [|done].
    split; [done|]. intros a. cbn. by rewrite Hl. }
  rewrite replace_g_cons. rewrite no_pair_cons in Hs.
  apply andb_true_iff in Hs as [Hc Ht]. apply negb_true_iff in Hc.
  destruct (IH (length t) ltac:(simpl; lia) t eq_refl Ht) as [IHt IHhd].
  assert (no_pair bad (c :: replace_g m [x] t) = true) as Hcopy.
  { rewrite no_pair_cons, IHt, andb_true_r. apply negb_true_iff.
    destruct (starts_with (bad c) (replace_g m [x] t)) eqn:Hd; [|done].
    by rewrite (IHhd c Hd) in Hc. }
  destruct (m (c :: t)) as [[|n]|].
  - cbn [app]. split; [|intros a; cbn; by rewrite Hl].
    rewrite no_pair_cons, Hcopy, andb_true_r. cbn. by rewrite Hr.
  - cbn [app]. split; [|intros a; cbn; by rewrite Hl].
    destruct (IH (length (drop n t)) ltac:(rewrite length_drop; simpl; lia) _ eq_refl)
      as [IHd _]; [by apply no_pair_drop|].
    rewrite no_pair_cons, IHd, andb_true_r.
    destruct (replace_g m [x] (drop n t)); [done|]. cbn. by rewrite Hr.
  - by split.
Qed.

(** *** Line comments *)

Lemma strip_line_cons c t :
  replace_g re_line_comment [] (c :: t) =
    match scan_line_comment (c :: t) with
    | Some n => replace_g re_line_comment [] (drop (n - 1) t)
    | None => c :: replace_g re_line_comment [] t
    end.
Proof.
  rewrite replace_g_cons, re_line_comment_scan.
  destruct (scan_line_comment (c :: t)) as [[|n]|] eqn:Hn;
    [|cbn [Nat.sub app]; by rewrite Nat.sub_0_r|done].
  destruct t as [|d t]; [done|]. cbn in Hn. by destruct (_ && _)%N.
Qed.

Lemma scan_line_comment_cons c t :
  scan_line_comment (c :: t) =
    if (c =? SLASH)%N && starts_with (λ d, d =? SLASH)%N t
    then Some (2 + span notLineTerminator (drop 1 t))
    else None.
Proof.
  destruct t as [|d t]; cbn; [by rewrite andb_false_r|]. by rewrite drop_0.
Qed.

(** Behind a line comment the text goes on with a line terminator, or
    ends. *)
Lemma strip_line_starts s :
  starts_with (λ d, d =? SLASH)%N (replace_g re_line_comment [] s) = true →
  starts_with (λ d, d =? SLASH)%N s = true ∧ scan_line_comment s = None.
Proof.
  destruct s as [|c t]; [by rewrite replace_g_nil|].
  rewrite strip_line_cons, scan_line_comment_cons.
  destruct ((c =? SLASH)%N && _) eqn:Hm; [|done].
  cbn [Nat.add Nat.sub].
  destruct t as [|d t]; [by rewrite andb_false_r in Hm|].
  cbn [drop]. rewrite drop_0.
  pose proof (span_drop_head notLineTerminator t) as Hhead.
  destruct (drop (span notLineTerminator t) t) as [|x r]; [by rewrite replace_g_nil|].
  rewrite strip_line_cons, scan_line_comment_cons.
  apply negb_false_iff in Hhead.
  assert ((x =? SLASH)%N = false) as Hx.
  { destruct (N.eqb_spec x SLASH) as [->|]; [done|done]. }
  rewrite Hx. cbn. by rewrite Hx.
Qed.

Lemma strip_line_no_pair s :
  no_pair double_slash (replace_g re_line_comment [] s) = true.
Proof.
  remember (length s) as k eqn:Hk.
  revert s Hk. induction (lt_wf k) as [k _ IH]. intros s ->.
  destruct s as [|c t]; [by rewrite replace_g_nil|].
  rewrite strip_line_cons.
  destruct (scan_line_comment (c :: t)) as [n|] eqn:Hn.
  - apply (IH (length (drop (n - 1) t))); [|done]. rewrite length_drop. simpl. lia.
  - rewrite no_pair_cons, (IH (length t) ltac:(simpl; lia) t eq_refl), andb_true_r.
    apply negb_true_iff.
    destruct (starts_with (double_slash c) (replace_g re_line_comment [] t)) eqn:Hd;
      [|done].
    rewrite scan_line_comment_cons in Hn.
    assert ((c =? SLASH)%N = true ∧
            starts_with (λ d, (d =? SLASH)%N) (replace_g re_line_comment [] t) = true)
      as [Hc Hs].
    { destruct (replace_g re_line_comment [] t) as [|d r]; [done|].
      cbn in Hd. unfold double_slash in Hd. by apply andb_true_iff in Hd. }
    apply strip_line_starts in Hs as [Hs _]. by rewrite Hc, Hs in Hn.
Qed.

(** After [minifyJS] no [//] is left anywhere in the text, not even
    where the input had one inside a string literal, and the text is a
    single line: it contains no line terminator, and it neither starts
    nor ends with white space. *)
Theorem minifyJS_leaves_one_line_without_slashes (s : list N) :
  no_pair double_slash (minifyJS s) = true ∧
  Forall (λ c, isLineTerminator c = false) (minifyJS s) ∧
  starts_with isWhiteSpace (minifyJS s) = false ∧
  ends_with isWhiteSpace (minifyJS s) = false.
Proof.
  split; [|split; [|apply trim_trimmed]].
  - unfold minifyJS. apply no_pair_trim.
    apply replace_g_no_pair; [intros a; unfold double_slash; by rewrite andb_false_r|done|].
    apply replace_g_no_pair; [intros a; unfold double_slash; by rewrite andb_false_r|done|].
    apply strip_line_no_pair.
  - eapply squeezed_from_chars, minifyJS_squeezed.
Qed.

(** *** Braces *)

Lemma tidy_brace_cons c t :
  replace_g re_open_brace [LBRACE] (c :: t) =
    match scan_open_brace (c :: t) with
    | Some n => LBRACE :: replace_g re_open_brace [LBRACE] (drop n (c :: t))
    | None => c :: replace_g re_open_brace [LBRACE] t
    end.
Proof.
  rewrite replace_g_cons, re_open_brace_scan.
  destruct (scan_open_brace (c :: t)) as [[|n]|] eqn:Hn; [|done..].
  destruct (scan_open_brace_bounded _ _ Hn) as [? _]. lia.
Qed.

Lemma tidy_brace_nil : replace_g re_open_brace [LBRACE] [] = [].
Proof. by rewrite replace_g_nil, re_open_brace_scan. Qed.

(** Behind a match the text does not go on with white space. *)
Lemma scan_open_brace_rest s n :
  scan_open_brace s = Some n → starts_with isWhiteSpace (drop n s) = false.
Proof.
  unfold scan_open_brace.
  destruct (drop (span isWhiteSpace s) s) as [|d t] eqn:Hd; [done|].
  destruct (d =? LBRACE)%N; [|done]. intros [= <-].
  rewrite <-Nat.add_assoc, <-drop_drop, Hd. cbn [Nat.add drop].
  pose proof (span_drop_head isWhiteSpace t) as Hhead.
  by destruct (drop _ t).
Qed.

Lemma scan_open_brace_space c t :
  isWhiteSpace c = true → scan_open_brace (c :: t) = S <$> scan_open_brace t.
Proof.
  intros Hc. unfold scan_open_brace. cbn [span]. rewrite Hc. cbn [drop].
  destruct (drop _ t) as [|d r]; [done|]. by destruct (d =? LBRACE)%N.
Qed.

Lemma scan_open_brace_brace t : is_Some (scan_open_brace (LBRACE :: t)).
Proof. by eexists. Qed.

Lemma tidy_brace_starts s :
  (starts_with isWhiteSpace (replace_g re_open_brace [LBRACE] s) = true →
   starts_with isWhiteSpace s = true ∧ scan_open_brace s = None) ∧
  (starts_with (λ d, d =? LBRACE)%N (replace_g re_open_brace [LBRACE] s) = true →
   is_Some (scan_open_brace s)).
Proof.
  destruct s as [|c t]; [by rewrite tidy_brace_nil|]. rewrite tidy_brace_cons.
  destruct (scan_open_brace (c :: t)) as [n|] eqn:Hn; [done|].
  split; [done|]. cbn. intros ->%N.eqb_eq.
  rewrite <-Hn. apply scan_open_brace_brace.
Qed.

Lemma tidy_brace_no_pair s :
  no_pair space_before_brace (replace_g re_open_brace [LBRACE] s) = true ∧
  no_pair space_after_brace (replace_g re_open_brace [LBRACE] s) = true.
Proof.
  remember (length s) as k eqn:Hk.
  revert s Hk. induction (lt_wf k) as [k _ IH]. intros s ->.
  destruct s as [|c t]; [by rewrite tidy_brace_nil|].
  rewrite tidy_brace_cons.
  destruct (scan_open_brace (c :: t)) as [n|] eqn:Hn.
  - pose proof (scan_open_brace_rest _ _ Hn) as Hrest.
    destruct (scan_open_brace_bounded _ _ Hn) as [Hn1 _].
    destruct (IH (length (drop n (c :: t)))
                ltac:(rewrite length_drop; simpl; lia) _ eq_refl) as [IH1 IH2].
    rewrite !no_pair_cons, IH1, IH2, !andb_true_r.
    split; [by destruct (replace_g _ _ _)|].
    apply negb_true_iff.
    destruct (starts_with (space_after_brace LBRACE) _) eqn:Hd; [|done].
    destruct (tidy_brace_starts (drop n (c :: t))) as [Hws _].
    destruct (Hws Hd) as [Hhead _]. congruence.
  - destruct (IH (length t) ltac:(simpl; lia) t eq_refl) as [IH1 IH2].
    destruct (tidy_brace_starts t) as [_ Hbrace].
    rewrite !no_pair_cons, IH1, IH2, !andb_true_r. split; apply negb_true_iff.
    + destruct (starts_with (space_before_brace c) _) eqn:Hd; [|done].
      assert (isWhiteSpace c = true ∧
              starts_with (λ d, (d =? LBRACE)%N)
                (replace_g re_open_brace [LBRACE] t) = true) as [Hc Hb].
      { destruct (replace_g re_open_brace [LBRACE] t); [done|].
        cbn in Hd. unfold space_before_brace in Hd. by apply andb_true_iff in Hd. }
      destruct (Hbrace Hb) as [m Hm].
      by rewrite (scan_open_brace_space c t Hc), Hm in Hn.
    + destruct (starts_with (space_after_brace c) _) eqn:Hd; [|done].
      assert ((c =? LBRACE)%N = true) as ->%N.eqb_eq.
      { destruct (replace_g re_open_brace [LBRACE] t); [done|].
        cbn in Hd. unfold space_after_brace in Hd. by apply andb_true_iff in Hd as [? _]. }
      destruct (scan_open_brace_brace t) as [m Hm]. congruence.
Qed.

(** *** Semicolons *)

Lemma tidy_semicolon_cons c t :
  replace_g re_semicolon [SEMICOLON] (c :: t) =
    if (c =? SEMICOLON)%N
    then SEMICOLON :: replace_g re_semicolon [SEMICOLON] (drop (span isWhiteSpace t) t)
    else c :: replace_g re_semicolon [SEMICOLON] t.
Proof.
  rewrite replace_g_cons, re_semicolon_scan. cbn [scan_semicolon].
  by destruct (c =? SEMICOLON)%N.
Qed.

Lemma tidy_semicolon_nil : replace_g re_semicolon [SEMICOLON] [] = [].
Proof. by rewrite replace_g_nil, re_semicolon_scan. Qed.

Lemma tidy_semicolon_starts s :
  starts_with isWhiteSpace (replace_g re_semicolon [SEMICOLON] s) = true →
  starts_with isWhiteSpace s = true.
Proof.
  destruct s as [|c t]; [by rewrite tidy_semicolon_nil|]. rewrite tidy_semicolon_cons.
  by destruct (c =? SEMICOLON)%N.
Qed.

Lemma tidy_semicolon_no_pair s :
  no_pair space_after_semicolon (replace_g re_semicolon [SEMICOLON] s) = true.
Proof.
  remember (length s) as k eqn:Hk.
  revert s Hk. induction (lt_wf k) as [k _ IH]. intros s ->.
  destruct s as [|c t]; [by rewrite tidy_semicolon_nil|].
  rewrite tidy_semicolon_cons. destruct (c =? SEMICOLON)%N eqn:Hc.
  - rewrite no_pair_cons,
      (IH (length (drop (span isWhiteSpace t) t))
         ltac:(rewrite length_drop; simpl; lia) _ eq_refl), andb_true_r.
    apply negb_true_iff.
    destruct (starts_with (space_after_semicolon SEMICOLON) _) eqn:Hd; [|done].
    apply tidy_semicolon_starts in Hd.
    pose proof (span_drop_head isWhiteSpace t) as Hhead.
    destruct (drop _ t); [done|]. cbn in Hd. congruence.
  - rewrite no_pair_cons, (IH (length t) ltac:(simpl; lia) t eq_refl), andb_true_r.
    apply negb_true_iff.
    destruct (replace_g re_semicolon [SEMICOLON] t); [done|].
    cbn. unfold space_after_semicolon. by rewrite Hc.
Qed.

(** After [minifyCSS] no opening brace has white space before or
    after it and no semicolon has white space after it; the text is a
    single line and neither starts nor ends with white space. *)
Theorem minifyCSS_tidies_braces_and_semicolons (s : list N) :
  no_pair space_before_brace (minifyCSS s) = true ∧
  no_pair space_after_brace (minifyCSS s) = true ∧
  no_pair space_after_semicolon (minifyCSS s) = true ∧
  Forall (λ c, isLineTerminator c = false) (minifyCSS s) ∧
  starts_with isWhiteSpace (minifyCSS s) = false ∧
  ends_with isWhiteSpace (minifyCSS s) = false.
Proof.
  unfold minifyCSS.
  set (t := replace_g re_semicolon_brace [RBRACE] _).
  destruct (tidy_brace_no_pair t) as [Hbefore Hafter].
  split; [|split; [|split; [|split; [|apply trim_trimmed]]]].
  - apply no_pair_trim, replace_g_no_pair; [|done..].
    intros a. unfold space_before_brace. by rewrite andb_false_r.
  - apply no_pair_trim, replace_g_no_pair; [|done..].
    intros a. unfold space_after_brace.
    change (isWhiteSpace SEMICOLON) with false. by rewrite andb_false_r.
  - apply no_pair_trim, tidy_semicolon_no_pair.
  - eapply squeezed_from_chars, minifyCSS_squeezed.
Qed.

(** *** Block comments *)

Lemma strip_block_cons c t :
  replace_g re_block_comment [] (c :: t) =
    match scan_block_comment (c :: t) with
    | Some n => replace_g re_block_comment [] (drop n (c :: t))
    | None => c :: replace_g re_block_comment [] t
    end.
Proof.
  rewrite replace_g_cons, re_block_comment_scan.
  destruct (scan_block_comment (c :: t)) as [[|n]|] eqn:Hn; [|done..].
  destruct t as [|d t]; [done|]. cbn in Hn. destruct (_ && _)%N; [|done].
  by destruct (comment_end t).
Qed.

Lemma scan_block_comment_cons c t :
  scan_block_comment (c :: t) =
    if starts_with (comment_open c) t
    then (λ n, 2 + n) <$> comment_end (drop 1 t)
    else None.
Proof. destruct t as [|d t]; [done|]. cbn. by rewrite drop_0. Qed.

Lemma comment_end_cons c t :
  comment_end (c :: t) =
    match t with
    | [] => None
    | _ :: _ => if starts_with (comment_shut c) t then Some 2 else S <$> comment_end t
    end.
Proof. by destruct t. Qed.

(** Without a [*/] no comment ends. *)
Lemma comment_end_None s : no_pair comment_shut s = true → comment_end s = None.
Proof.
  induction s as [|c t IH]; [done|]. rewrite no_pair_cons, comment_end_cons.
  intros [Hc Ht]%andb_true_iff. apply negb_true_iff in Hc.
  destruct t as [|d t]; [done|]. by rewrite Hc, IH.
Qed.

(** The first [*/] behind a body that holds none is the one that
    follows it. *)
Lemma comment_end_body body post :
  no_pair comment_shut body = true →
  comment_end (body ++ STAR :: SLASH :: post) = Some (length body + 2).
Proof.
  induction body as [|c b IH]; [done|]. rewrite no_pair_cons.
  intros [Hc Hb]%andb_true_iff. apply negb_true_iff in Hc.
  cbn [app length]. rewrite comment_end_cons, (IH Hb).
  assert (starts_with (comment_shut c) (b ++ STAR :: SLASH :: post) = false) as ->.
  { destruct b as [|d' b']; [|done]. cbn. unfold comment_shut. by rewrite andb_false_r. }
  by destruct b.
Qed.

(** Text without a [/*] passes unchanged up to the next slash. *)
Lemma strip_block_prefix pre rest :
  no_pair comment_open pre = true →
  replace_g re_block_comment [] (pre ++ SLASH :: rest) =
    pre ++ replace_g re_block_comment [] (SLASH :: rest).
Proof.
  induction pre as [|c pre IH]; [done|]. rewrite no_pair_cons.
  intros [Hc Hpre]%andb_true_iff. apply negb_true_iff in Hc.
  cbn [app]. rewrite strip_block_cons, scan_block_comment_cons.
  assert (starts_with (comment_open c) (pre ++ SLASH :: rest) = false) as ->.
  { destruct pre as [|d pre']; [|done]. cbn. unfold comment_open. by rewrite andb_false_r. }
  by rewrite IH.
Qed.

(** The comment pass of both minifiers removes each complete block
    comment, from its [/*] up to the first [*/] behind it, and goes on
    behind it; text in which no [*/] occurs, an unterminated comment
    included, is left as it is. *)
Theorem block_comments_are_removed_whole (pre body post s : list N) :
  (no_pair comment_open pre = true → no_pair comment_shut body = true →
   replace_g re_block_comment []
     (pre ++ [SLASH; STAR] ++ body ++ [STAR; SLASH] ++ post) =
   pre ++ replace_g re_block_comment [] post) ∧
  (no_pair comment_shut s = true → replace_g re_block_comment [] s = s).
Proof.
  split.
  - intros Hpre Hbody. cbn [app]. rewrite (strip_block_prefix _ _ Hpre). f_equal.
    rewrite strip_block_cons, scan_block_comment_cons. cbn [starts_with drop].
    rewrite drop_0, (comment_end_body _ _ Hbody). cbn [fmap option_fmap option_map].
    change (comment_open SLASH STAR) with true. cbn iota. f_equal.
    cbn [Nat.add drop]. by rewrite drop_app_add.
  - induction s as [|c t IH]; [by rewrite replace_g_nil, re_block_comment_scan|].
    intros Hs. rewrite strip_block_cons, scan_block_comment_cons.
    pose proof (no_pair_tail _ _ _ Hs) as Ht.
    rewrite (comment_end_None (drop 1 t)) by (by apply no_pair_drop).
    rewrite IH by done. by destruct (starts_with _ t).
Qed.

End ShapeProofs.

(** * Production mode: what switches it on and what it does to a run *)
Module ProductionProofs.
Import FS Build FSProofs BuildProofs StepProofs Surgery SurgeryProofs BuildSpec FrameProofs.

Lemma lookup_put_same p n es es' : put p n es = Some es' → lookup p es' = Some n.
Proof.
  revert es es'. induction p as [|x p IH]; intros es es' Hput; [done|].
  apply put_cons in Hput as [[-> ->]|[Hp (sub & sub' & Hx & Hput & ->)]].
  - by rewrite lookup_singleton, entry_set_entry_eq.
  - rewrite lookup_set_entry_eq. by apply (IH sub).
Qed.

(** *** What stands at a path that the mutations of a step part ways with *)

Lemma frame_mutation q v p :
  diverge p q = true →
  preserves (λ st, lookup q (tree st) = v) (rmSync p) ∧
  preserves (λ st, lookup q (tree st) = v) (mkdirSync p) ∧
  ∀ content, preserves (λ st, lookup q (tree st) = v) (writeFileSync p content).
Proof.
  intros Hd. apply preserves_mutation. intros st t o Hst Hframe _.
  cbn [tree]. by rewrite Hframe.
Qed.

Lemma frame_record q v m : preserves (λ st, lookup q (tree st) = v) (record (Call m)).
Proof. by intros st. Qed.

Section Frame.
Context `{Runtime}.
Variable this : manager.
Variable q : list string.
Variable v : option node.

Lemma frame_cleanBuild :
  diverge distDir q = true →
  preserves (λ st, lookup q (tree st) = v) (cleanBuild this).
Proof.
  intros Hd. apply preserves_cleanBuild; [apply frame_record|..];
    by apply frame_mutation.
Qed.

Lemma frame_copyStaticFiles :
  diverge distDir q = true →
  preserves (λ st, lookup q (tree st) = v) copyStaticFiles.
Proof.
  intros Hd. unfold copyStaticFiles.
  apply preserves_bind; [apply frame_record|]. intros _.
  apply preserves_rethrow, preserves_copy_existing. intros file content _.
  apply frame_mutation. by apply diverge_app_l.
Qed.

Lemma frame_process_text sourceDir sub ext minify :
  diverge (distDir ++ [sub]) q = true →
  preserves (λ st, lookup q (tree st) = v) (process_text this sourceDir sub ext minify).
Proof.
  intros Hd. apply preserves_process_text.
  - by apply frame_mutation.
  - intros name content. apply frame_mutation. by apply diverge_app_l.
Qed.

Lemma frame_processCSS :
  diverge (distDir ++ ["css"]) q = true →
  preserves (λ st, lookup q (tree st) = v) (processCSS this).
Proof.
  intros Hd. unfold processCSS.
  apply preserves_bind; [apply frame_record|]. intros _.
  by apply preserves_rethrow, frame_process_text.
Qed.

Lemma frame_processJS :
  diverge (distDir ++ ["js"]) q = true →
  preserves (λ st, lookup q (tree st) = v) (processJS this).
Proof.
  intros Hd. unfold processJS.
  apply preserves_bind; [apply frame_record|]. intros _.
  by apply preserves_rethrow, frame_process_text.
Qed.

Lemma frame_processSrcFiles :
  diverge (distDir ++ ["src"]) q = true →
  preserves (λ st, lookup q (tree st) = v) processSrcFiles.
Proof.
  intros Hd. apply preserves_processSrcFiles; [apply frame_record|..].
  - intros rest. apply frame_mutation. by apply diverge_app_l.
  - intros rest name content. apply frame_mutation. by do 2 apply diverge_app_l.
Qed.

Lemma frame_generateHashes :
  diverge hashesPath q = true →
  preserves (λ st, lookup q (tree st) = v) (generateHashes this).
Proof.
  intros Hd. apply preserves_generateHashes; [apply frame_record|].
  by apply frame_mutation.
Qed.

Lemma frame_validateBuild : preserves (λ st, lookup q (tree st) = v) validateBuild.
Proof. apply preserves_validateBuild, frame_record. Qed.

End Frame.

(** *** What a text step writes *)

Section Text.
Context `{Runtime}.
Variable this : manager.

(** The loop of [processCSS] and [processJS] over the names it
    filtered: when it completes, the output holds the processed bytes
    of every named regular file of the source directory. *)
Lemma text_loop_written (dir sub : string) minify names : ∀ st,
  dir ≠ "dist" →
  let body := λ name : string,
    readFileSync ([dir] ++ [name]) ≫= λ bytes,
      writeFileSync ((distDir ++ [sub]) ++ [name]) (processed this minify bytes) in
  (for_each names body st).1 = inr () →
  ∀ name bytes, name ∈ names →
    lookup [dir; name] (tree st) = Some (File bytes) →
    lookup (distDir ++ [sub; name]) (tree (for_each names body st).2) =
      Some (File (processed this minify bytes)).
Proof.
  induction names as [|n0 rest IH]; intros st Hdir body Hok name bytes Hin Hl.
  { by apply elem_of_nil in Hin. }
  revert Hok. rewrite run_for_each_cons. unfold body at 1 3. rewrite run_bind.
  unfold readFileSync at 1 2. cbn [app].
  destruct (lookup [dir; n0] (tree st)) as [[c0|s0]|] eqn:Hc0; [|done..].
  destruct (writeFileSync_cases ((distDir ++ [sub]) ++ [n0]) (processed this minify c0) st)
    as [[e ->]|(t & Ht & ->)]; [done|].
  set (st2 := {| tree := t; ops := _ |}). intros Hok.
  assert (∀ k, lookup [dir; k] (tree st2) = lookup [dir; k] (tree st)) as Hsame.
  { intros k. unfold st2; cbn [tree]. apply (lookup_put_diverge _ _ _ _ _ Ht).
    cbn [distDir app]. rewrite diverge_cons.
    by destruct (String.eqb_spec "dist" dir) as [Heq|]; [destruct Hdir|]. }
  destruct (decide (name ∈ rest)) as [Hrest|Hrest].
  - apply (IH st2 Hdir Hok name bytes Hrest). by rewrite Hsame.
  - apply elem_of_cons in Hin as [->|Hin]; [|done].
    rewrite Hc0 in Hl. injection Hl as ->.
    apply (preserves_for_each
             (λ s, lookup (distDir ++ [sub; n0]) (tree s) =
                     Some (File (processed this minify bytes)))).
    + intros x Hx. apply preserves_bind; [apply preserves_readFileSync|].
      intros content. apply frame_mutation. cbn [distDir app].
      rewrite !diverge_cons, !String.eqb_refl.
      destruct (String.eqb_spec x n0) as [->|]; done.
    + unfold st2; cbn [tree]. apply lookup_put_same in Ht. revert Ht.
      cbn [distDir app]. done.
Qed.

Lemma process_text_written (dir sub ext : string) minify st :
  dir ≠ "dist" →
  (process_text this [dir] sub ext minify st).1 = inr () →
  ∀ name bytes, lookup [dir; name] (tree st) = Some (File bytes) →
    endsWith name ext = true →
    lookup (distDir ++ [sub; name]) (tree (process_text this [dir] sub ext minify st).2) =
      Some (File (processed this minify bytes)).
Proof.
  intros Hdir Hok name bytes Hl Hext. revert Hok.
  assert (∃ listing, entry dir (tree st) = Some (Dir listing) ∧
                     entry name listing = Some (File bytes)) as (listing & Hlist & Hname).
  { rewrite lookup_cons in Hl.
    destruct (entry dir (tree st)) as [[c|listing]|]; [done| |done].
    exists listing. split; [done|]. by rewrite lookup_singleton in Hl. }
  unfold process_text. rewrite run_bind, run_existsSync.
  rewrite bool_decide_true
    by (rewrite lookup_singleton, Hlist; by eexists).
  cbn [negb]. rewrite run_bind.
  destruct (mkdirSync_cases (distDir ++ [sub]) st) as [[e ->]|(t & Ht & ->)]; [done|].
  set (st1 := {| tree := t; ops := _ |}).
  assert (∀ p, lookup (dir :: p) (tree st1) = lookup (dir :: p) (tree st)) as Hsame.
  { intros p. unfold st1; cbn [tree]. apply (lookup_mkdirp_diverge _ _ _ _ Ht).
    cbn [distDir app]. rewrite diverge_cons.
    by destruct (String.eqb_spec "dist" dir) as [Heq|]; [destruct Hdir|]. }
  rewrite run_bind. unfold readdirSync.
  rewrite (Hsame []), lookup_singleton, Hlist.
  intros Hok. apply (text_loop_written dir sub minify _ st1 Hdir Hok).
  - apply list_elem_of_filter. split; [done|].
    apply list_elem_of_fmap. exists (name, File bytes). split; [done|].
    by apply entry_elem_of.
  - by rewrite (Hsame [name]), lookup_cons, Hlist, lookup_singleton.
Qed.

Lemma text_step_written (m prefix dir sub ext : string) minify st :
  dir ≠ "dist" →
  let step := record (Call m) ≫= λ _,
                rethrow prefix (process_text this [dir] sub ext minify) in
  (step st).1 = inr () →
  ∀ name bytes, lookup [dir; name] (tree st) = Some (File bytes) →
    endsWith name ext = true →
    lookup (distDir ++ [sub; name]) (tree (step st).2) =
      Some (File (processed this minify bytes)).
Proof.
  intros Hdir step Hok name bytes Hl Hext. revert Hok. unfold step.
  rewrite run_bind. cbn [record]. unfold rethrow.
  set (st0 := {| tree := tree st; ops := _ |}).
  pose proof (process_text_written dir sub ext minify st0 Hdir) as Hw.
  destruct (process_text this [dir] sub ext minify st0) as [[e|[]] st'];
    [done|]. intros _. by apply Hw.
Qed.

Lemma processCSS_written st :
  (processCSS this st).1 = inr () →
  ∀ name bytes, lookup (cssDir ++ [name]) (tree st) = Some (File bytes) →
    endsWith name ".css" = true →
    lookup (distDir ++ ["css"; name]) (tree (processCSS this st).2) =
      Some (File (processed this minifyCSS bytes)).
Proof.
  by apply (text_step_written "processCSS" "Failed to process CSS" "css" "css" ".css").
Qed.

Lemma processJS_written st :
  (processJS this st).1 = inr () →
  ∀ name bytes, lookup (jsDir ++ [name]) (tree st) = Some (File bytes) →
    endsWith name ".js" = true →
    lookup (distDir ++ ["js"; name]) (tree (processJS this st).2) =
      Some (File (processed this minifyJS bytes)).
Proof.
  by apply (text_step_written "processJS" "Failed to process JavaScript" "js" "js" ".js").
Qed.

End Text.

(** *** No write of [hashes.json] outside hash generation *)

Lemma unhashed_mutation p :
  p ≠ hashesPath →
  preserves (λ st, ¬ wrote hashesPath (ops st)) (rmSync p) ∧
  preserves (λ st, ¬ wrote hashesPath (ops st)) (mkdirSync p) ∧
  ∀ content, preserves (λ st, ¬ wrote hashesPath (ops st)) (writeFileSync p content).
Proof.
  intros Hp. apply preserves_mutation. intros st t o Hst _ Ho [content Hin].
  cbn [ops] in Hin. apply elem_of_app in Hin as [Hin|Hin]; [apply Hst; by eexists|].
  apply list_elem_of_singleton in Hin. subst o.
  destruct Ho as [Ho|[c [= Heq _]]]; [|by destruct Hp].
  rewrite !elem_of_cons, elem_of_nil in Ho. by destruct Ho as [?|[?|[]]].
Qed.

Lemma unhashed_record m : preserves (λ st, ¬ wrote hashesPath (ops st)) (record (Call m)).
Proof.
  intros st Hst [content Hin]. cbn [snd record ops] in Hin.
  apply elem_of_app in Hin as [Hin|Hin]; [apply Hst; by eexists|].
  by apply list_elem_of_singleton in Hin.
Qed.

Section Run.
Context `{Runtime}.
Variable this : manager.

(** Outside production mode a run writes no [hashes.json], however it
    ends. *)
Lemma development_run_writes_no_hashes fs :
  isProduction this = false → ¬ wrote hashesPath (log (build this fs)).
Proof.
  intros Hdev. rewrite build_eq. cbn [log].
  assert (preserves (λ st, ¬ wrote hashesPath (ops st)) (steps this)) as Hsteps.
  { pose proof unhashed_record as Hrec. unfold steps.
    apply preserves_bind.
    { apply preserves_cleanBuild; [done|by apply unhashed_mutation..]. }
    intros _. apply preserves_bind.
    { unfold copyStaticFiles. apply preserves_bind; [apply Hrec|]. intros _.
      apply preserves_rethrow, preserves_copy_existing.
      intros file content Hin. apply unhashed_mutation.
      unfold staticFiles in Hin.
      repeat (apply elem_of_cons in Hin as [->|Hin]; [done|]).
      by apply elem_of_nil in Hin. }
    intros _. apply preserves_bind.
    { unfold processCSS. apply preserves_bind; [apply Hrec|]. intros _.
      apply preserves_rethrow, preserves_process_text;
        [|intros name content]; by apply unhashed_mutation. }
    intros _. apply preserves_bind.
    { unfold processJS. apply preserves_bind; [apply Hrec|]. intros _.
      apply preserves_rethrow, preserves_process_text;
        [|intros name content]; by apply unhashed_mutation. }
    intros _. apply preserves_bind.
    { apply preserves_processSrcFiles; [done|..].
      - intros rest. apply unhashed_mutation. unfold hashesPath, distDir.
        cbn [app]. by intros [= ?].
      - intros rest name content. apply unhashed_mutation. unfold hashesPath, distDir.
        cbn [app]. by intros [= ?]. }
    intros _. apply preserves_bind.
    { intros st Hst. rewrite generateHashes_dev by done.
      apply (Hrec "generateHashes" st Hst). }
    intros _. by apply preserves_validateBuild. }
  apply (Hsteps {| tree := fs; ops := [] |}). intros [content Hin].
  by apply elem_of_nil in Hin.
Qed.

(** What a run that ends with status 0 has written: for every regular
    file of [css] whose name ends in [.css], and of [js] whose name ends
    in [.js], the output holds the processed bytes under that name; and
    in production mode the output holds the [hashes.json] the run
    wrote. *)
Lemma successful_build_output fs :
  exit_code (build this fs) = 0 →
  (∀ name bytes, lookup (cssDir ++ [name]) fs = Some (File bytes) →
     endsWith name ".css" = true →
     lookup (distDir ++ ["css"; name]) (final (build this fs)) =
       Some (File (processed this minifyCSS bytes))) ∧
  (∀ name bytes, lookup (jsDir ++ [name]) fs = Some (File bytes) →
     endsWith name ".js" = true →
     lookup (distDir ++ ["js"; name]) (final (build this fs)) =
       Some (File (processed this minifyJS bytes))) ∧
  (isProduction this = true →
     ∃ content, lookup hashesPath (final (build this fs)) = Some (File content) ∧
                Wrote hashesPath content ∈ log (build this fs)).
Proof.
  rewrite build_eq. cbn [exit_code final log].
  set (st0 := {| tree := fs; ops := [] |}). unfold steps. rewrite run_bind.
  pose proof (λ q v Hd, frame_cleanBuild this q v Hd st0) as F1.
  destruct (cleanBuild this st0) as [[e|[]] st1]; [done|].
  rewrite run_bind.
  pose proof (λ q v Hd, frame_copyStaticFiles q v Hd st1) as F2.
  destruct (copyStaticFiles st1) as [[e|[]] st2]; [done|].
  rewrite run_bind.
  pose proof (processCSS_written this st2) as W3.
  pose proof (λ q v Hd, frame_processCSS this q v Hd st2) as F3.
  destruct (processCSS this st2) as [[e|[]] st3]; [done|].
  rewrite run_bind.
  pose proof (processJS_written this st3) as W4.
  pose proof (λ q v Hd, frame_processJS this q v Hd st3) as F4.
  destruct (processJS this st3) as [[e|[]] st4]; [done|].
  rewrite run_bind.
  pose proof (λ q v Hd, frame_processSrcFiles q v Hd st4) as F5.
  destruct (processSrcFiles st4) as [[e|[]] st5]; [done|].
  rewrite run_bind.
  pose proof (λ q v Hd, frame_generateHashes this q v Hd st5) as F6.
  pose proof (generateHashes_prod this st5) as G6.
  destruct (generateHashes this st5) as [[e|[]] st6]; [done|].
  pose proof (validateBuild_state st6) as V7.
  destruct (validateBuild st6) as [[e|[]] st7]; [done|].
  cbn [fst snd] in *. subst st7. cbn [tree ops]. intros _.
  split; [|split].
  - intros name bytes Hl Hext.
    apply F6; [done|]. apply F5; [done|]. apply F4; [done|].
    apply (W3 eq_refl); [|done]. apply F2; [done|]. by apply F1.
  - intros name bytes Hl Hext.
    apply F6; [done|]. apply F5; [done|].
    apply (W4 eq_refl); [|done]. apply F3; [done|]. apply F2; [done|]. by apply F1.
  - intros Hprod. destruct (G6 Hprod) as [[e [=]]|(d & Hd & _ & Hrun)].
    cbn zeta in Hrun. injection Hrun as Hrun. subst st6. cbn [tree ops].
    eexists. split.
    + unfold hashesPath, distDir. cbn [app].
      by rewrite lookup_set_entry_eq, lookup_singleton, entry_set_entry_eq.
    + rewrite !elem_of_app. left. right. by apply list_elem_of_singleton.
Qed.

End Run.

(** Claim C9.  The build is in production mode exactly when
    [--production] or [-p] is given or [NODE_ENV] is [production].
    With [NODE_ENV] set to [production], whatever the flags, a run that
    ends with status 0 has minified the text: every regular [.css] file
    of [css] and [.js] file of [js] is in the output as the minified
    form of its text, and the run has written [hashes.json], which the
    output then holds.  Without the flags and without that value of
    [NODE_ENV] such a run writes the text as it decodes, not minified,
    and no run writes [hashes.json].  The run with [NODE_ENV] set and no
    flag is the run of [--production], and of [-p]. *)
Theorem NODE_ENV_enables_production `{Runtime} (args : list string)
    (NODE_ENV : option string) (fs : list (string * node)) :
  (isProduction (new_BuildManager (options_of args) NODE_ENV) = true ↔
     "--production" ∈ args ∨ "-p" ∈ args ∨ NODE_ENV = Some "production") ∧
  (NODE_ENV = Some "production" →
   exit_code (main args NODE_ENV fs) = 0 →
     (∀ name bytes, lookup (cssDir ++ [name]) fs = Some (File bytes) →
        endsWith name ".css" = true →
        lookup (distDir ++ ["css"; name]) (final (main args NODE_ENV fs)) =
          Some (File (utf8_encode (minifyCSS (utf8_decode bytes))))) ∧
     (∀ name bytes, lookup (jsDir ++ [name]) fs = Some (File bytes) →
        endsWith name ".js" = true →
        lookup (distDir ++ ["js"; name]) (final (main args NODE_ENV fs)) =
          Some (File (utf8_encode (minifyJS (utf8_decode bytes))))) ∧
     (∃ content,
        lookup hashesPath (final (main args NODE_ENV fs)) = Some (File content) ∧
        Wrote hashesPath content ∈ log (main args NODE_ENV fs))) ∧
  ("--production" ∉ args → "-p" ∉ args → NODE_ENV ≠ Some "production" →
     ¬ wrote hashesPath (log (main args NODE_ENV fs)) ∧
     (exit_code (main args NODE_ENV fs) = 0 →
        (∀ name bytes, lookup (cssDir ++ [name]) fs = Some (File bytes) →
           endsWith name ".css" = true →
           lookup (distDir ++ ["css"; name]) (final (main args NODE_ENV fs)) =
             Some (File (utf8_encode (utf8_decode bytes)))) ∧
        (∀ name bytes, lookup (jsDir ++ [name]) fs = Some (File bytes) →
           endsWith name ".js" = true →
           lookup (distDir ++ ["js"; name]) (final (main args NODE_ENV fs)) =
             Some (File (utf8_encode (utf8_decode bytes)))))) ∧
  main [] (Some "production") fs = main ["--production"] None fs ∧
  main [] (Some "production") fs = main ["-p"] None fs.
Proof.
  destruct (production_trigger args NODE_ENV fs) as (Hiff & Hlong & Hshort).
  split; [done|]. split; [|split; [|done]].
  - intros Henv Hok. unfold main in *.
    set (this := new_BuildManager (options_of args) NODE_ENV) in *.
    assert (isProduction this = true) as Hprod by (apply Hiff; auto).
    destruct (successful_build_output this fs Hok) as (Hcss & Hjs & Hhash).
    unfold processed in Hcss, Hjs. rewrite Hprod in Hcss, Hjs. auto.
  - intros Hlong' Hshort' Henv. unfold main in *.
    set (this := new_BuildManager (options_of args) NODE_ENV) in *.
    assert (isProduction this = false) as Hdev.
    { destruct (isProduction this); [|done].
      destruct Hiff as [Hiff _]. by destruct (Hiff eq_refl) as [?|[?|?]]. }
    split; [by apply development_run_writes_no_hashes|].
    intros Hok.
    destruct (successful_build_output this fs Hok) as (Hcss & Hjs & _).
    unfold processed in Hcss, Hjs. rewrite Hdev in Hcss, Hjs. auto.
Qed.

End ProductionProofs.

(** * The setup script: what a run does and leaves *)
Module SetupProofs.
Import FS Setup SetupSpec FSProofs Surgery SurgeryProofs.

Lemma run_mbind {A B} (m : M A) (f : A → M B) st :
  (m ≫= f) st = match m st with
                | (inl e, st') => (inl e, st')
                | (inr a, st') => f a st'
                end.
Proof. done. Qed.

(** *** Rules for [adds] *)

Section Adds.
Variable P : event → bool.

Lemma adds_ret {A} (a : A) : adds P (ret a).
Proof. intros st. exists []. by rewrite app_nil_r. Qed.

Lemma adds_mret {A} (a : A) : adds P (mret a : M A).
Proof. apply adds_ret. Qed.

Lemma adds_throw {A} msg : adds P (@throw A msg).
Proof. intros st. exists []. by rewrite app_nil_r. Qed.

Lemma adds_bind {A B} (m : M A) (f : A → M B) :
  adds P m → (∀ a, adds P (f a)) → adds P (m ≫= f).
Proof.
  intros Hm Hf st. rewrite run_mbind. destruct (Hm st) as (tr & Htr & HP).
  destruct (m st) as [[e|a] st']; [by exists tr|].
  destruct (Hf a st') as (tr' & Htr' & HP'). exists (tr ++ tr').
  cbn [snd] in *. rewrite Htr', Htr, forallb_app, HP, HP'. by rewrite (assoc_L (++)).
Qed.

Lemma adds_try_catch {A} (m : M A) h :
  adds P m → (∀ e, adds P (h e)) → adds P (try_catch m h).
Proof.
  intros Hm Hh st. unfold try_catch. destruct (Hm st) as (tr & Htr & HP).
  destruct (m st) as [[e|a] st']; [|by exists tr].
  destruct (Hh e st') as (tr' & Htr' & HP'). exists (tr ++ tr').
  cbn [snd] in *. rewrite Htr', Htr, forallb_app, HP, HP'. by rewrite (assoc_L (++)).
Qed.

Lemma adds_for_each {A} (xs : list A) body :
  (∀ x, adds P (body x)) → adds P (for_each xs body).
Proof.
  intros Hb. induction xs as [|x xs IH]; [apply adds_ret|].
  apply (adds_bind (body x)); [done|]. intros _. apply IH.
Qed.

Lemma adds_emit e : P e = true → adds P (emit e).
Proof. intros He st. exists [e]. cbn. by rewrite He. Qed.

Lemma adds_log this msg l :
  (verbose this = false ∧ l = Verbose) ∨ P (Say l msg) = true → adds P (log this msg l).
Proof.
  intros [[Hq ->]|HP].
  - unfold log. rewrite Hq. apply adds_ret.
  - destruct l; try by apply adds_emit.
    unfold log. destruct (verbose this); [by apply adds_emit|apply adds_ret].
Qed.

Lemma adds_execSync w cmd : P (Exec cmd) = true → adds P (execSync w cmd).
Proof.
  intros He st. exists [Exec cmd]. unfold execSync.
  destruct (command w cmd (tree st)) as [[o|] t]; cbn; by rewrite He.
Qed.

Lemma adds_existsSync p : adds P (existsSync p).
Proof. intros st. exists []. by rewrite app_nil_r. Qed.

Lemma adds_readFileSync p : adds P (readFileSync p).
Proof.
  intros st. exists []. rewrite app_nil_r. unfold readFileSync.
  by destruct (lookup p (tree st)) as [[]|].
Qed.

Lemma adds_mkdirSync p : P (MadeDir p) = true → adds P (mkdirSync p).
Proof.
  intros He st. unfold mkdirSync. destruct (mkdirp p (tree st)).
  - exists [MadeDir p]. cbn. by rewrite He.
  - exists []. by rewrite app_nil_r.
Qed.

Lemma adds_writeFileSync p c : P (Wrote p c) = true → adds P (writeFileSync p c).
Proof.
  intros He st. unfold writeFileSync.
  assert (∃ tr, trace st = trace st ++ tr ∧ forallb P tr = true) as Hnil
    by (exists []; by rewrite app_nil_r).
  destruct (lookup p (tree st)) as [[]|]; try done;
    (destruct (put p _ (tree st)); [|done]); exists [Wrote p c]; cbn; by rewrite He.
Qed.

Lemma adds_chmodSync p mode : P (Chmod p mode) = true → adds P (chmodSync p mode).
Proof.
  intros He st. unfold chmodSync. destruct (lookup p (tree st)).
  - exists [Chmod p mode]. cbn. by rewrite He.
  - exists []. by rewrite app_nil_r.
Qed.

Lemma adds_if {A} (b : bool) (m1 m2 : M A) :
  adds P m1 → adds P m2 → adds P (if b then m1 else m2).
Proof. by destruct b. Qed.

End Adds.

(** *** Rules for [moves] *)

Section Moves.
Variable R : relation (list (string * node)).
Context `{!PreOrder R}.

Lemma moves_ret {A} (a : A) : moves R (ret a).
Proof. by intros st. Qed.

Lemma moves_mret {A} (a : A) : moves R (mret a : M A).
Proof. by intros st. Qed.

Lemma moves_throw {A} msg : moves R (@throw A msg).
Proof. by intros st. Qed.

Lemma moves_bind {A B} (m : M A) (f : A → M B) :
  moves R m → (∀ a, moves R (f a)) → moves R (m ≫= f).
Proof.
  intros Hm Hf st. rewrite run_mbind. specialize (Hm st).
  destruct (m st) as [[e|a] st']; [done|].
  etrans; [exact Hm|apply Hf].
Qed.

Lemma moves_try_catch {A} (m : M A) h :
  moves R m → (∀ e, moves R (h e)) → moves R (try_catch m h).
Proof.
  intros Hm Hh st. unfold try_catch. specialize (Hm st).
  destruct (m st) as [[e|a] st']; [|done].
  etrans; [exact Hm|apply Hh].
Qed.

Lemma moves_for_each {A} (xs : list A) body :
  (∀ x, moves R (body x)) → moves R (for_each xs body).
Proof.
  intros Hb. induction xs as [|x xs IH]; [apply moves_ret|].
  apply (moves_bind (body x)); [done|]. intros _. apply IH.
Qed.

Lemma moves_emit e : moves R (emit e).
Proof. by intros st. Qed.

Lemma moves_log this msg l : moves R (log this msg l).
Proof. intros st. unfold log. by destruct l, (verbose this). Qed.

Lemma moves_existsSync p : moves R (existsSync p).
Proof. by intros st. Qed.

Lemma moves_readFileSync p : moves R (readFileSync p).
Proof. intros st. unfold readFileSync. by destruct (lookup p (tree st)) as [[]|]. Qed.

Lemma moves_chmodSync p mode : moves R (chmodSync p mode).
Proof. intros st. unfold chmodSync. by destruct (lookup p (tree st)). Qed.

Lemma moves_if {A} (b : bool) (m1 m2 : M A) :
  moves R m1 → moves R m2 → moves R (if b then m1 else m2).
Proof. by destruct b. Qed.

End Moves.

Ltac adds_step :=
  lazymatch goal with
  | |- adds _ (log _ _ _) =>
      apply adds_log; first [right; reflexivity | left; split; [eassumption|reflexivity]]
  | |- adds _ (for_each _ _) => apply adds_for_each; intros ?
  | |- adds _ (try_catch _ _) => apply adds_try_catch; [|intros ?]
  | |- adds _ (emit _) => apply adds_emit; reflexivity
  | |- adds _ (execSync _ _) => apply adds_execSync; reflexivity
  | |- adds _ (mkdirSync _) => apply adds_mkdirSync; reflexivity
  | |- adds _ (writeFileSync _ _) => apply adds_writeFileSync; reflexivity
  | |- adds _ (chmodSync _ _) => apply adds_chmodSync; reflexivity
  | |- adds _ (existsSync _) => apply adds_existsSync
  | |- adds _ (readFileSync _) => apply adds_readFileSync
  | |- adds _ (mret _) => apply adds_mret
  | |- adds _ (ret _) => apply adds_ret
  | |- adds _ (throw _) => apply adds_throw
  | |- adds _ (mbind _ _) => apply adds_bind; [|intros ?]
  | |- adds _ (if _ then _ else _) => apply adds_if
  | |- adds _ (let _ := _ in _) => cbv zeta
  | |- adds _ (match ?x with _ => _ end) => destruct x
  end.

Ltac moves_step :=
  lazymatch goal with
  | |- moves _ (log _ _ _) => apply moves_log; exact _
  | |- moves _ (for_each _ _) => apply moves_for_each; [exact _|intros ?]
  | |- moves _ (try_catch _ _) => apply moves_try_catch; [exact _| |intros ?]
  | |- moves _ (existsSync _) => apply moves_existsSync; exact _
  | |- moves _ (readFileSync _) => apply moves_readFileSync; exact _
  | |- moves _ (chmodSync _ _) => apply moves_chmodSync; exact _
  | |- moves _ (emit _) => apply moves_emit; exact _
  | |- moves _ (mret _) => apply moves_mret; exact _
  | |- moves _ (ret _) => apply moves_ret; exact _
  | |- moves _ (throw _) => apply moves_throw; exact _
  | |- moves _ (mbind _ _) => apply moves_bind; [exact _| |intros ?]
  | |- moves _ (if _ then _ else _) => apply moves_if
  | |- moves _ (let _ := _ in _) => cbv zeta
  | |- moves _ (match ?x with _ => _ end) => destruct x
  end.

Section Run.
Context `{Runtime}.
Variable w : world.
Variable this : manager.

Lemma adds_check_files P files checks :
  (∀ msg, (verbose this = false) ∨ P (Say Verbose msg) = true) →
  adds P (check_files this files checks).
Proof.
  intros HP. revert checks. induction files as [|[[file p] required] files IH]; intros checks.
  - apply adds_ret.
  - cbn [check_files]. apply adds_bind; [apply adds_existsSync|]. intros found.
    assert (∀ msg, adds P (log this msg Verbose)) as Hlog.
    { intros msg. apply adds_log. destruct (HP msg); [by left|by right]. }
    destruct found; [|destruct required].
    + apply adds_bind; [apply Hlog|]. intros _. apply IH.
    + apply adds_throw.
    + apply adds_bind; [apply Hlog|]. intros _. apply IH.
Qed.

Lemma moves_check_files R `{!PreOrder R} files checks :
  moves R (check_files this files checks).
Proof.
  revert checks. induction files as [|[[file p] required] files IH]; intros checks.
  - by apply moves_ret.
  - cbn [check_files]. apply moves_bind; [done|by apply moves_existsSync|]. intros found.
    destruct found; [|destruct required].
    + apply moves_bind; [done|by apply moves_log|]. intros _. apply IH.
    + by apply moves_throw.
    + apply moves_bind; [done|by apply moves_log|]. intros _. apply IH.
Qed.

(** Without [--verbose] no step prints a line of the verbose level. *)
Lemma quiet_steps : verbose this = false → adds (λ e, negb (is_verbose e)) (steps w this).
Proof.
  intros Hq. unfold steps, checkSystemRequirements, createDirectories,
    ensure_directory, installDependencies, initializeGitHooks, createConfigFiles, runHealthChecks,
    displayNextSteps.
  repeat first
    [ apply adds_check_files; intros ?; by left
    | adds_step ].
Qed.

End Run.

(** *** Directories made on the way *)

Lemma lookup_nil_cons x (q : list string) : lookup (x :: q) [] = None.
Proof. done. Qed.

Lemma exists_not_blocked p es : is_Some (lookup p es) → file_on_path p es = false.
Proof.
  revert es. induction p as [|x p IH]; intros es; [done|].
  rewrite lookup_cons. cbn [file_on_path].
  destruct (entry x es) as [[c|sub]|]; [|apply IH|done].
  destruct p; [done|]. by intros [? ?].
Qed.

Lemma mkdirp_blocked p es :
  lookup p es = None → (is_Some (mkdirp p es) ↔ file_on_path p es = false).
Proof.
  revert es. induction p as [|x p IH]; intros es; [done|].
  rewrite lookup_cons. cbn [file_on_path mkdirp].
  destruct (entry x es) as [[c|sub]|] eqn:Hx.
  - destruct p; [done|]. intros _. split; [by intros [? ?]|done].
  - intros Hl. rewrite <-(IH sub Hl).
    destruct (mkdirp p sub); split; intros [? ?]; done || by eexists.
  - intros _. split; [done|]. intros _.
    assert (∀ q, is_Some (mkdirp q [])) as Hfresh.
    { clear. intros q. induction q as [|y q IHq]; [by eexists|].
      destruct IHq as [sub Hq]. cbn [mkdirp entry]. rewrite Hq. by eexists. }
    destruct (Hfresh p) as [sub ->]. by eexists.
Qed.

Lemma mkdirp_self p es es' : mkdirp p es = Some es' → ∃ d, lookup p es' = Some (Dir d).
Proof.
  revert es es'. induction p as [|x p IH]; intros es es'.
  - intros [= <-]. by eexists.
  - cbn [mkdirp]. destruct (entry x es) as [[c|sub]|]; [done|..].
    + destruct (mkdirp p sub) as [sub'|] eqn:Hm; [|done]. intros [= <-].
      rewrite lookup_set_entry_eq. by apply (IH sub).
    + destruct (mkdirp p []) as [sub'|] eqn:Hm; [|done]. intros [= <-].
      rewrite lookup_set_entry_eq. by apply (IH []).
Qed.

#[local] Instance only_new_directories_preorder : PreOrder only_new_directories.
Proof.
  split.
  - by intros t.
  - intros t1 t2 t3 [Hf12 He12] [Hf23 He23]. split.
    + intros q c. by rewrite Hf12, Hf23.
    + intros q Hq. by apply He23, He12.
Qed.

Lemma mkdirp_only_new p es es' : mkdirp p es = Some es' → only_new_directories es es'.
Proof.
  revert es es'. induction p as [|x p IH]; intros es es'.
  { by intros [= <-]. }
  cbn [mkdirp].
  assert (∀ sub sub', only_new_directories sub sub' →
            (entry x es = Some (Dir sub) ∨ (entry x es = None ∧ sub = [])) →
            only_new_directories es (set_entry x (Dir sub') es)) as Hstep.
  { intros sub sub' [Hf He] Hx. split.
    - intros [|y q] c; [done|].
      destruct (decide (y = x)) as [->|Hne]; [|by rewrite lookup_set_entry_ne].
      rewrite lookup_set_entry_eq, <-Hf, lookup_cons.
      destruct Hx as [->|[-> ->]]; [done|]. by destruct q.
    - intros [|y q]; [by eexists|].
      destruct (decide (y = x)) as [->|Hne]; [|by rewrite lookup_set_entry_ne].
      rewrite lookup_set_entry_eq, lookup_cons.
      destruct Hx as [->|[-> ->]]; [apply He|by intros [? ?]]. }
  destruct (entry x es) as [[c|sub]|] eqn:Hx; [done|..].
  - destruct (mkdirp p sub) as [sub'|] eqn:Hm; [|done]. intros [= <-].
    apply (Hstep sub sub'); [by apply IH|by left].
  - destruct (mkdirp p []) as [sub'|] eqn:Hm; [|done]. intros [= <-].
    apply (Hstep [] sub'); [by apply IH|by right].
Qed.

(** A regular file stands in the way exactly when the node at a proper
    initial part of the path is one. *)
Lemma file_on_path_spec p es :
  file_on_path p es = true ↔
  ∃ p1 p2 c, p = p1 ++ p2 ∧ p2 ≠ [] ∧ lookup p1 es = Some (File c).
Proof.
  revert es. induction p as [|x p IH]; intros es.
  { split; [done|]. intros (p1 & p2 & c & Hp & Hne & Hl).
    symmetry in Hp. apply app_eq_nil in Hp as [-> ->]. done. }
  cbn [file_on_path]. split.
  - destruct (entry x es) as [[c|sub]|] eqn:Hx; [| |done].
    + destruct p as [|y p]; [done|]. intros _.
      exists [x], (y :: p), c. by rewrite lookup_singleton.
    + intros (p1 & p2 & c & -> & Hne & Hl)%IH.
      exists (x :: p1), p2, c. by rewrite lookup_cons, Hx.
  - intros (p1 & p2 & c & Hp & Hne & Hl). destruct p1 as [|y p1]; [done|].
    injection Hp as <- ->. rewrite lookup_cons in Hl.
    destruct (entry x es) as [[c'|sub]|]; [| |done].
    + destruct p1; [|done]. by destruct p2.
    + apply IH. by exists p1, p2, c.
Qed.

Lemma file_on_path_only_new p t t' :
  only_new_directories t t' → file_on_path p t' = file_on_path p t.
Proof.
  intros [Hf _]. apply eq_true_iff_eq. rewrite !file_on_path_spec.
  by setoid_rewrite Hf.
Qed.

(** *** Running the primitives *)

Lemma run_emit e st :
  emit e st = (inr (), {| tree := tree st; trace := trace st ++ [e] |}).
Proof. done. Qed.

Lemma run_log this msg l st :
  log this msg l st =
    (inr (), {| tree := tree st; trace := trace st ++ said this l msg |}).
Proof.
  destruct st as [t tr]. unfold log, said.
  destruct l; try reflexivity.
  destruct (verbose this); [reflexivity|].
  cbn [tree trace]. rewrite app_nil_r. reflexivity.
Qed.

Lemma commands_said this l msg : commands (said this l msg) = [].
Proof. unfold said. by destruct l, (verbose this). Qed.


Lemma commands_app_eq (t1 t2 : list event) :
  commands (t1 ++ t2) = commands t1 ++ commands t2.
Proof. unfold commands. by rewrite omap_app. Qed.


Lemma run_try_catch {A} (m : M A) h st :
  try_catch m h st = match m st with
                     | (inl e, st') => h e st'
                     | (inr a, st') => (inr a, st')
                     end.
Proof. unfold try_catch. by destruct (m st) as [[e|a] st']. Qed.

Lemma run_for_each {A} (x : A) xs body st :
  for_each (x :: xs) body st =
    match body x st with
    | (inl e, st') => (inl e, st')
    | (inr _, st') => for_each xs body st'
    end.
Proof. done. Qed.

(** *** [createDirectories] *)

Section Directories.
Variable this : manager.

Lemma ensure_directory_run dir st :
  ∃ tr, ensure_directory this dir st =
    match lookup dir.2 (tree st) with
    | Some _ => (inr (), {| tree := tree st; trace := trace st ++ tr |})
    | None =>
        match mkdirp dir.2 (tree st) with
        | Some t => (inr (), {| tree := t; trace := trace st ++ tr |})
        | None => (inl "ENOTDIR: not a directory", st)
        end
    end.
Proof.
  unfold ensure_directory. rewrite run_mbind. unfold existsSync.
  destruct (lookup dir.2 (tree st)) as [n|] eqn:Hl.
  - rewrite bool_decide_true by done. cbn [negb]. rewrite run_log. by eexists.
  - rewrite bool_decide_false by (by intros [? ?]). cbn [negb].
    rewrite run_mbind. unfold mkdirSync. rewrite Hl.
    destruct (mkdirp dir.2 (tree st)) as [t|]; [|by exists []].
    rewrite (run_log this ("Created directory: " +:+ dir.1) Verbose).
  set (tr := said this Verbose ("Created directory: " +:+ dir.1)).
    exists ([MadeDir dir.2] ++ tr). cbn [tree trace]. by rewrite (assoc_L (++)).
Qed.

Lemma ensure_directory_spec dir st :
  let r := ensure_directory this dir st in
  (r.1 = inr () ↔ file_on_path dir.2 (tree st) = false) ∧
  (∀ e, r.1 = inl e → e = "ENOTDIR: not a directory") ∧
  only_new_directories (tree st) (tree r.2) ∧
  (r.1 = inr () → is_Some (lookup dir.2 (tree r.2))) ∧
  (is_Some (lookup dir.2 (tree st)) → tree r.2 = tree st).
Proof.
  destruct (ensure_directory_run dir st) as [tr ->]. cbn zeta.
  destruct (lookup dir.2 (tree st)) as [n|] eqn:Hl.
  - cbn [fst snd tree].
    split; [|split; [done|split; [done|split; [by rewrite Hl|done]]]].
    split; [|done]. intros _. apply exists_not_blocked. by rewrite Hl.
  - pose proof (mkdirp_blocked dir.2 (tree st) Hl) as Hblocked.
    destruct (mkdirp dir.2 (tree st)) as [t|] eqn:Hm; cbn [fst snd tree].
    + split; [split; [intros _; by apply Hblocked|done]|].
      split; [done|]. split; [by apply (mkdirp_only_new dir.2)|].
      split; [|by intros [? ?]].
      intros _. destruct (mkdirp_self _ _ _ Hm) as [d ->]. by eexists.
    + split.
      { split; [done|]. intros Hfree. apply Hblocked in Hfree. by destruct Hfree. }
      split; [by intros e [= <-]|]. split; [done|]. split; [done|by intros [? ?]].
Qed.

Lemma ensure_directories_spec dirs : ∀ st,
  let r := for_each dirs (ensure_directory this) st in
  (r.1 = inr () ↔ ∀ dir, dir ∈ dirs → file_on_path dir.2 (tree st) = false) ∧
  (∀ e, r.1 = inl e → e = "ENOTDIR: not a directory") ∧
  only_new_directories (tree st) (tree r.2) ∧
  (r.1 = inr () → ∀ dir, dir ∈ dirs → is_Some (lookup dir.2 (tree r.2))) ∧
  ((∀ dir, dir ∈ dirs → is_Some (lookup dir.2 (tree st))) → tree r.2 = tree st).
Proof.
  induction dirs as [|dir dirs IH]; intros st.
  { cbn. split; [split; [by intros _ ? ?%elem_of_nil|done]|].
    split; [done|]. split; [done|]. split; [by intros _ ? ?%elem_of_nil|done]. }
  cbn zeta. rewrite run_for_each.
  destruct (ensure_directory_spec dir st) as (Hok & Herr & Hnew & Hthere & Hsame).
  destruct (ensure_directory this dir st) as [[e|[]] st1]; cbn [fst snd] in *.
  - split.
    { split; [done|]. intros Hall. apply Hok. apply Hall. by left. }
    split; [by intros e' [= <-]; apply Herr|]. split; [done|]. split; [done|].
    intros Hall. apply Hsame, Hall. by left.
  - destruct (IH st1) as (IHok & IHerr & IHnew & IHthere & IHsame).
    split; [|split; [done|split; [by etrans|split]]].
    + rewrite IHok. split.
      * intros Hall d [->|Hd]%elem_of_cons; [by apply Hok|].
        rewrite <-(file_on_path_only_new _ _ _ Hnew). by apply Hall.
      * intros Hall d Hd. rewrite (file_on_path_only_new _ _ _ Hnew).
        apply Hall. by right.
    + intros Hr d [->|Hd]%elem_of_cons; [|by apply IHthere].
      destruct IHnew as [_ Hkeep]. by apply Hkeep, Hthere.
    + intros Hall. rewrite IHsame.
      * apply Hsame, Hall. by left.
      * intros d Hd. rewrite Hsame by (apply Hall; by left). apply Hall. by right.
Qed.


Lemma createDirectories_run st :
  ∃ tr tr',
    createDirectories this st =
      match for_each directories (ensure_directory this)
              {| tree := tree st; trace := trace st ++ tr |} with
      | (inl e, st') => (inl ("Failed to create directories: " +:+ e), st')
      | (inr _, st') => (inr (), {| tree := tree st'; trace := trace st' ++ tr' |})
      end.
Proof.
  unfold createDirectories. rewrite run_mbind, run_emit, run_mbind.
  rewrite (run_log this "Creating necessary directories..." Info).
  set (tr1 := said this Info "Creating necessary directories...").
  cbn [tree trace]. rewrite run_try_catch, run_mbind.
  exists ([Call "createDirectories"] ++ tr1). rewrite (assoc_L (++)).
  destruct (for_each directories _ _) as [[e|[]] st1]; [by eexists|].
  rewrite (run_log this "Directory structure created" Success).
  set (tr2 := said this Success "Directory structure created").
  by exists tr2.
Qed.


(** Running [createDirectories] again changes nothing: after a
    successful run a second one succeeds and leaves the tree as it is. *)
Theorem createDirectories_twice (st : state) :
  (createDirectories this st).1 = inr () →
  (createDirectories this (createDirectories this st).2).1 = inr () ∧
  tree (createDirectories this (createDirectories this st).2).2 =
    tree (createDirectories this st).2.
Proof.
  intros Hfirst.
  assert (∀ dir, dir ∈ directories →
            is_Some (lookup dir.2 (tree (createDirectories this st).2))) as Hall.
  { destruct (createDirectories_run st) as (tr & tr' & Hrun).
    rewrite Hrun in Hfirst |- *.
    destruct (ensure_directories_spec directories
                {| tree := tree st; trace := trace st ++ tr |}) as (_ & _ & _ & Hthere & _).
    destruct (for_each directories _ _) as [[e|[]] st1]; [done|].
    cbn [fst snd tree] in *. by apply Hthere. }
  set (st' := (createDirectories this st).2) in *.
  destruct (createDirectories_run st') as (tr & tr' & ->).
  set (st0 := {| tree := tree st'; trace := trace st' ++ tr |}).
  destruct (ensure_directories_spec directories st0) as (Hok & _ & _ & _ & Hsame).
  change (tree st0) with (tree st') in *.
  assert ((for_each directories (ensure_directory this) st0).1 = inr ()) as Hsecond.
  { apply Hok. intros dir Hdir. by apply exists_not_blocked, Hall. }
  specialize (Hsame Hall).
  destruct (for_each directories _ st0) as [[e|[]] st1]; [done|].
  cbn [fst snd tree] in *. done.
Qed.

End Directories.

(** *** [createConfigFiles] *)

Lemma lookup_add_file_other name content t x q :
  x ≠ name → lookup (x :: q) (add_file name content t) = lookup (x :: q) t.
Proof.
  intros Hne. unfold add_file.
  destruct (lookup [name] t), content; try done. by apply lookup_set_entry_ne.
Qed.

Lemma lookup_add_file_same name content t q :
  lookup (name :: q) (add_file name content t) =
    match lookup [name] t, q with
    | None, [] => File <$> content
    | _, _ => lookup (name :: q) t
    end.
Proof.
  unfold add_file. destruct (lookup [name] t) as [m|] eqn:Hl; [done|].
  rewrite lookup_singleton in Hl. destruct content as [c|].
  - rewrite lookup_cons, entry_set_entry_eq. destruct q; [done|].
    by rewrite lookup_cons, Hl.
  - destruct q; [|done]. by rewrite lookup_singleton, Hl.
Qed.

Section Config.
Variable this : manager.

(** One of the three blocks of [createConfigFiles], before what
    follows it: the file is written when the test [B] on [existsSync]
    says so, which it only does when the name is free. *)
Lemma config_block (B : bool → bool) (name content msg : string) st :
  (∀ found, B found = true → found = false) →
  ∃ tr, ∀ (k : M ()),
    (existsSync [name] ≫= λ found,
       (if B found
        then writeFileSync [name] content ≫= λ _, log this msg Verbose
        else ret ()) ≫= λ _, k) st =
    k {| tree := add_file name
                   (if B false then Some (Digest.bytes_of_string content) else None)
                   (tree st);
         trace := trace st ++ tr |}.
Proof.
  intros HB. unfold add_file.
  destruct (lookup [name] (tree st)) as [n|] eqn:Hl.
  - exists []. intros k. rewrite run_mbind. unfold existsSync. rewrite Hl.
    rewrite bool_decide_true by done.
    destruct (B true) eqn:Hb; [by apply HB in Hb|].
    rewrite run_mbind. destruct st as [t tr]. cbn [ret tree trace].
    by rewrite app_nil_r.
  - destruct (B false) eqn:Hb.
    + exists ([Wrote [name] content] ++ said this Verbose msg). intros k.
      rewrite run_mbind. unfold existsSync. rewrite Hl.
      rewrite bool_decide_false by (by intros [? ?]). rewrite Hb.
      rewrite !run_mbind. unfold writeFileSync. rewrite Hl. cbn [put].
      rewrite run_log. cbn [tree trace]. by rewrite (assoc_L (++)).
    + exists []. intros k. rewrite run_mbind. unfold existsSync. rewrite Hl.
      rewrite bool_decide_false by (by intros [? ?]). rewrite Hb.
      rewrite run_mbind. destruct st as [t tr]. cbn [ret tree trace].
      by rewrite app_nil_r.
Qed.

Lemma createConfigFiles_run st :
  ∃ tr,
    createConfigFiles this st =
      (inr (),
       {| tree :=
            add_file "Makefile" (config_file this "Makefile")
              (add_file ".env" (config_file this ".env")
                 (add_file ".env.example" (config_file this ".env.example") (tree st)));
          trace := trace st ++ tr |}).
Proof.
  unfold createConfigFiles. rewrite run_mbind, run_emit, run_mbind.
  rewrite (run_log this "Creating configuration files..." Info).
  set (tr0 := said this Info "Creating configuration files...").
  cbn [tree trace]. rewrite run_try_catch.
  set (st0 := {| tree := tree st; trace := _ |}).
  destruct (config_block negb ".env.example" envExample "Created .env.example" st0)
    as [tr1 ->]; [by intros []|].
  set (st1 := {| tree := add_file ".env.example" _ _; trace := _ |}).
  destruct (config_block (λ found, negb found && dev this) ".env" envExample
              "Created .env for development" st1) as [tr2 ->]; [by intros []|].
  set (st2 := {| tree := add_file ".env" _ _; trace := _ |}).
  destruct (config_block negb "Makefile" makefileContent "Created Makefile" st2)
    as [tr3 ->]; [by intros []|].
  set (st3 := {| tree := add_file "Makefile" _ _; trace := _ |}).
  rewrite (run_log this "Configuration files created" Success).
  set (tr4 := said this Success "Configuration files created").
  exists ([Call "createConfigFiles"] ++ tr0 ++ tr1 ++ tr2 ++ tr3 ++ tr4).
  unfold st3, st2, st1, st0. cbn [tree trace negb andb].
  rewrite !(assoc_L (++)). reflexivity.
Qed.

Lemma createConfigFiles_lookup st name q :
  lookup (name :: q) (tree (createConfigFiles this st).2) =
    match lookup [name] (tree st), q with
    | None, [] => File <$> config_file this name
    | _, _ => lookup (name :: q) (tree st)
    end.
Proof.
  destruct (createConfigFiles_run st) as [tr ->]. cbn [snd tree].
  destruct (decide (name = "Makefile")) as [->|HM].
  { by rewrite lookup_add_file_same, !lookup_add_file_other. }
  rewrite lookup_add_file_other by done.
  destruct (decide (name = ".env")) as [->|HE].
  { by rewrite lookup_add_file_same, !lookup_add_file_other. }
  rewrite lookup_add_file_other by done.
  destruct (decide (name = ".env.example")) as [->|HX].
  { by rewrite lookup_add_file_same. }
  rewrite lookup_add_file_other by done.
  unfold config_file.
  rewrite (proj2 (String.eqb_neq _ _) HX), (proj2 (String.eqb_neq _ _) HE),
    (proj2 (String.eqb_neq _ _) HM).
  destruct q; [|by destruct (lookup [name] (tree st))].
  by destruct (lookup [name] (tree st)).
Qed.


End Config.

(** *** [installDependencies] *)

Section Commands.
Context `{Runtime}.
Variable w : world.
Variable this : manager.

Lemma run_execSync cmd st :
  execSync w cmd st =
    (match (command w cmd (tree st)).1 with
     | Some out => inr out
     | None => inl ("Command failed: " +:+ cmd)
     end,
     {| tree := (command w cmd (tree st)).2; trace := trace st ++ [Exec cmd] |}).
Proof. unfold execSync. by destruct (command w cmd (tree st)) as [[out|] t]. Qed.

Ltac settle :=
  repeat split; intros; try done;
  try match goal with
      | Hne : [] ≠ [] |- _ => by destruct Hne
      | Hin : _ ∈ [] |- _ => by apply elem_of_nil in Hin
      | Hin : _ ∈ [_] |- _ => by apply list_elem_of_singleton in Hin
      end.

(** [installDependencies] starts npm only on a manifest.  The
    commands of the step are an initial part of the production install
    and the full install; none is started with [--skip-install], which
    always succeeds, and none when [package.json] is missing, which
    fails the step; the full install is started only with [--dev] and
    only after the production install has succeeded.  A step that
    starts no command leaves the tree as it is. *)
Theorem installDependencies_needs_manifest (st : state) :
  ∃ tr,
    trace (installDependencies w this st).2 = trace st ++ tr ∧
    commands tr `prefix_of` ["npm ci --only=production"; "npm ci"] ∧
    (commands tr ≠ [] →
       skipInstall this = false ∧ is_Some (lookup ["package.json"] (tree st))) ∧
    ("npm ci" ∈ commands tr →
       dev this = true ∧
       is_Some (command w "npm ci --only=production" (tree st)).1) ∧
    (commands tr = [] → tree (installDependencies w this st).2 = tree st) ∧
    (skipInstall this = true → (installDependencies w this st).1 = inr ()) ∧
    (skipInstall this = false → lookup ["package.json"] (tree st) = None →
       (installDependencies w this st).1 =
         inl "Failed to install dependencies: package.json not found").
Proof.
  remember (installDependencies w this st) as r eqn:Hr.
  unfold installDependencies in Hr. rewrite run_mbind, run_emit in Hr.
  destruct (skipInstall this).
  { rewrite run_log in Hr. subst r. eexists. cbn [fst snd tree trace].
    split; [by rewrite <-(assoc_L (++))|].
    rewrite commands_app_eq, commands_said. cbn -[lookup].
    split; [apply prefix_nil|]. settle. }
  rewrite run_mbind, run_log, run_try_catch, run_mbind in Hr. cbn [tree trace] in Hr.
  unfold existsSync in Hr. cbn [tree] in Hr.
  destruct (lookup ["package.json"] (tree st)) as [n|] eqn:Hpkg.
  2:{ rewrite bool_decide_false in Hr by (by intros [? ?]). cbn [negb] in Hr.
      rewrite run_mbind in Hr. cbn [throw] in Hr. subst r. cbn [fst snd tree trace].
      eexists. split; [by rewrite <-(assoc_L (++))|].
      rewrite commands_app_eq, commands_said. cbn -[lookup].
      split; [apply prefix_nil|]. settle. }
  rewrite bool_decide_true in Hr by done. cbn [negb] in Hr.
  rewrite run_mbind in Hr. cbn [ret] in Hr.
  rewrite run_mbind, run_log, run_mbind, run_execSync in Hr. cbn [tree trace] in Hr.
  destruct (command w "npm ci --only=production" (tree st)) as [[out|] t1] eqn:Hprod;
    cbn [fst snd] in Hr.
  2:{ subst r. cbn [fst snd tree trace].
      eexists. split; [by rewrite <-!(assoc_L (++))|].
      rewrite !commands_app_eq, !commands_said. cbn -[lookup].
      split; [by exists ["npm ci"]|]. settle. }
  rewrite run_mbind in Hr. destruct (dev this).
  - rewrite run_mbind, run_log, !run_mbind, run_execSync in Hr. cbn [tree trace] in Hr.
    destruct (command w "npm ci" t1) as [[out2|] t2]; cbn [fst snd] in Hr.
    + cbn [ret] in Hr. rewrite run_log in Hr.
      subst r. cbn [fst snd tree trace].
      eexists. split; [by rewrite <-!(assoc_L (++))|].
      rewrite !commands_app_eq, !commands_said. cbn -[lookup]. settle.
    + subst r. cbn [fst snd tree trace].
      eexists. split; [by rewrite <-!(assoc_L (++))|].
      rewrite !commands_app_eq, !commands_said. cbn -[lookup]. settle.
  - cbn [ret] in Hr. rewrite run_log in Hr. subst r. cbn [fst snd tree trace].
    eexists. split; [by rewrite <-!(assoc_L (++))|].
    rewrite !commands_app_eq, !commands_said. cbn -[lookup].
    split; [by exists ["npm ci"]|]. settle.
Qed.

(** *** [initializeGitHooks] *)

Lemma file_on_path_prefix p q t :
  file_on_path (p ++ q) t = false → file_on_path p t = false.
Proof.
  intros Hfree. destruct (file_on_path p t) eqn:Hp; [|done].
  apply file_on_path_spec in Hp as (p1 & p2 & c & -> & Hne & Hl).
  rewrite <-Hfree. symmetry. apply file_on_path_spec.
  exists p1, (p2 ++ q), c. rewrite (assoc_L (++)). split; [done|].
  split; [by destruct p2|done].
Qed.

Lemma file_on_path_below p k t c :
  lookup p t = Some (File c) → file_on_path (p ++ [k]) t = true.
Proof. intros Hl. apply file_on_path_spec. by exists p, [k], c. Qed.

Lemma mkdirp_new_below p : ∀ es es' k q,
  mkdirp p es = Some es' → lookup p es = None → lookup (p ++ k :: q) es' = None.
Proof.
  induction p as [|x p IH]; intros es es' k q; [done|].
  cbn [mkdirp app]. rewrite (lookup_cons x p es).
  destruct (entry x es) as [[c|sub]|]; [done|..].
  - destruct (mkdirp p sub) as [sub'|] eqn:Hm; [|done]. intros [= <-] Hl.
    rewrite lookup_set_entry_eq. by apply (IH sub).
  - destruct (mkdirp p []) as [sub'|] eqn:Hm; [|done]. intros [= <-] _.
    rewrite lookup_set_entry_eq. destruct p as [|y p].
    + by injection Hm as <-.
    + by apply (IH []).
Qed.

Lemma try_catch_log (body : M ()) msg l st :
  (try_catch body (λ _, log this msg l) st).1 = inr ().
Proof.
  rewrite run_try_catch. destruct (body st) as [[e|[]] st']; [|done].
  by rewrite run_log.
Qed.

Lemma initializeGitHooks_result st : (initializeGitHooks w this st).1 = inr ().
Proof.
  unfold initializeGitHooks. rewrite run_mbind, run_emit. apply try_catch_log.
Qed.

(** The hooks directory after its check: where nothing stands in the
    way of the hook, the directory exists afterwards, nothing that is
    no directory is under the name of the hook, and only the hooks
    directory has changed. *)
Lemma hooks_directory (k : M ()) st :
  file_on_path (hooksDir ++ ["pre-commit"]) (tree st) = false →
  BuildSpec.is_dir (lookup (hooksDir ++ ["pre-commit"]) (tree st)) = false →
  ∃ t1 d1 tr,
    (existsSync hooksDir ≫= λ found,
       (if negb found then mkdirSync hooksDir else ret ()) ≫= λ _, k) st =
      k {| tree := t1; trace := trace st ++ tr |} ∧
    lookup hooksDir t1 = Some (Dir d1) ∧
    BuildSpec.is_dir (lookup (hooksDir ++ ["pre-commit"]) t1) = false ∧
    (∀ q, diverge hooksDir q = true → lookup q t1 = lookup q (tree st)).
Proof.
  intros Hfree Hnodir. rewrite run_mbind. unfold existsSync.
  destruct (lookup hooksDir (tree st)) as [[c|d]|] eqn:Hl.
  - by rewrite (file_on_path_below _ _ _ _ Hl) in Hfree.
  - rewrite bool_decide_true by done. cbn [negb]. rewrite run_mbind.
    exists (tree st), d, []. destruct st as [t tr]. cbn [ret tree trace] in *.
    by rewrite app_nil_r.
  - rewrite bool_decide_false by (by intros [? ?]). cbn [negb]. rewrite run_mbind.
    unfold mkdirSync. rewrite Hl.
    pose proof (proj2 (mkdirp_blocked hooksDir (tree st) Hl)
                  (file_on_path_prefix _ _ _ Hfree)) as [t1 Hm].
    rewrite Hm. destruct (mkdirp_self _ _ _ Hm) as [d1 Hd1].
    exists t1, d1, [MadeDir hooksDir]. split; [done|]. split; [done|]. split.
    + by rewrite (mkdirp_new_below _ _ _ _ _ Hm Hl).
    + intros q Hq. by apply (lookup_mkdirp_diverge _ _ _ _ Hm).
Qed.

(** [initializeGitHooks] never stops a setup, and in a repository it
    replaces the hook.  The step returns whatever happens in it.  When
    the git probe fails, nothing but what that command did happens to
    the tree.  When it succeeds and no regular file stands where
    [.git] or [.git/hooks] must be a directory and no directory where
    the hook must be a file, then [.git/hooks/pre-commit] holds the hook
    of the script afterwards, whether a hook was there before or not,
    and everything outside [.git/hooks] is as the probe left it. *)
Theorem initializeGitHooks_never_fails (st : state) :
  (initializeGitHooks w this st).1 = inr () ∧
  ((command w "git rev-parse --git-dir" (tree st)).1 = None →
     tree (initializeGitHooks w this st).2 =
       (command w "git rev-parse --git-dir" (tree st)).2) ∧
  (is_Some (command w "git rev-parse --git-dir" (tree st)).1 →
   file_on_path (hooksDir ++ ["pre-commit"])
     (command w "git rev-parse --git-dir" (tree st)).2 = false →
   BuildSpec.is_dir (lookup (hooksDir ++ ["pre-commit"])
                       (command w "git rev-parse --git-dir" (tree st)).2) = false →
     lookup (hooksDir ++ ["pre-commit"]) (tree (initializeGitHooks w this st).2) =
       Some (File (Digest.bytes_of_string preCommitHook)) ∧
     ∀ q, diverge hooksDir q = true →
       lookup q (tree (initializeGitHooks w this st).2) =
         lookup q (command w "git rev-parse --git-dir" (tree st)).2).
Proof.
  split; [apply initializeGitHooks_result|].
  remember (initializeGitHooks w this st) as r eqn:Hr.
  unfold initializeGitHooks in Hr.
  rewrite run_mbind, run_emit, run_try_catch, run_mbind, run_execSync in Hr.
  cbn [tree trace] in Hr.
  destruct (command w "git rev-parse --git-dir" (tree st)) as [[out|] t] eqn:Hgit;
    cbn [fst snd] in *.
  2:{ rewrite run_log in Hr. subst r. split; [done|]. by intros [? ?]. }
  split; [done|]. intros _ Hfree Hnodir.
  rewrite run_mbind, run_log in Hr. cbn [tree trace] in Hr.
  set (st0 := {| tree := t; trace := _ |}) in Hr.
  destruct (hooks_directory
              (writeFileSync (hooksDir ++ ["pre-commit"]) preCommitHook ≫= λ _,
               (if negb (String.eqb (platform w) "win32")
                then chmodSync (hooksDir ++ ["pre-commit"]) "755" else ret ()) ≫= λ _,
               log this "Git hooks initialized" Success) st0 Hfree Hnodir)
    as (t1 & d1 & tr1 & Hrun & Hd1 & Hnodir1 & Hframe1).
  rewrite Hrun in Hr. clear Hrun. rewrite run_mbind in Hr.
  unfold writeFileSync in Hr. cbn [tree trace] in Hr.
  assert (put (hooksDir ++ ["pre-commit"])
            (File (Digest.bytes_of_string preCommitHook)) t1 =
          Some (update hooksDir
                  (set_entry "pre-commit" (File (Digest.bytes_of_string preCommitHook)))
                  t1)) as Hput by (by rewrite put_snoc, Hd1).
  rewrite Hput in Hr.
  set (t2 := update hooksDir _ t1) in *.
  assert (lookup (hooksDir ++ ["pre-commit"]) t2 =
          Some (File (Digest.bytes_of_string preCommitHook))) as Hhook.
  { by apply (ProductionProofs.lookup_put_same _ _ t1). }
  assert (∀ q, diverge hooksDir q = true → lookup q t2 = lookup q t) as Hframe.
  { intros q Hq. etrans; [|apply (Hframe1 q Hq)].
    apply (lookup_put_diverge _ _ _ _ _ Hput). by apply diverge_app_l. }
  assert (r.2 = r.2 → tree r.2 = t2) as Htree.
  { intros _.
    destruct (lookup (hooksDir ++ ["pre-commit"]) t1) as [[c|d]|]; [|done|];
      rewrite run_mbind in Hr;
      (destruct (negb (String.eqb (platform w) "win32"));
       [unfold chmodSync in Hr; cbn [tree trace] in Hr; rewrite Hhook in Hr|
        cbn [ret] in Hr]);
      rewrite run_log in Hr; by subst r. }
  rewrite (Htree eq_refl). by split.
Qed.

(** *** [runHealthChecks] *)

Lemma run_for_each_emit {A} (f : A → event) xs : ∀ st,
  for_each xs (λ x, emit (f x)) st =
    (inr (), {| tree := tree st; trace := trace st ++ (f <$> xs) |}).
Proof.
  induction xs as [|x xs IH]; intros st.
  - destruct st as [t tr]. cbn. by rewrite app_nil_r.
  - rewrite run_for_each, run_emit, IH. cbn [tree trace fmap list_fmap].
    by rewrite <-(assoc_L (++)).
Qed.

Lemma check_files_run files : ∀ checks st,
  ∃ tr checks',
    check_files this files checks st =
      (match first_missing (tree st) files with
       | Some file => inl ("Required file missing: " +:+ file)
       | None => inr checks'
       end,
       {| tree := tree st; trace := trace st ++ tr |}).
Proof.
  induction files as [|[[file p] required] files IH]; intros checks st.
  { exists [], checks. destruct st as [t tr]. cbn. by rewrite app_nil_r. }
  cbn [check_files first_missing]. rewrite run_mbind. unfold existsSync.
  destruct (bool_decide (is_Some (lookup p (tree st)))).
  - rewrite andb_false_r, run_mbind, run_log.
    destruct (IH (checks ++ [(Found, file)])
                {| tree := tree st;
                   trace := trace st ++ said this Verbose ("Found: " +:+ file) |})
      as (tr & checks' & ->).
    cbn [tree trace]. eexists _, checks'. by rewrite <-(assoc_L (++)).
  - destruct required; cbn [andb negb].
    + exists [], checks. destruct st as [t tr]. cbn. by rewrite app_nil_r.
    + rewrite run_mbind, run_log.
      destruct (IH (checks ++ [(Optional, file +:+ " (optional)")])
                  {| tree := tree st;
                     trace := trace st ++
                       said this Verbose ("Missing optional file: " +:+ file) |})
        as (tr & checks' & ->).
      cbn [tree trace]. eexists _, checks'. by rewrite <-(assoc_L (++)).
Qed.

Lemma first_missing_criticalFiles t :
  first_missing t criticalFiles =
    if bool_decide (is_Some (lookup ["package.json"] t)) then
      if bool_decide (is_Some (lookup ["index.html"] t)) then None
      else Some "index.html"
    else Some "package.json".
Proof.
  unfold criticalFiles. cbn [first_missing andb].
  by destruct (bool_decide _), (bool_decide _).
Qed.

Lemma runHealthChecks_tree st : tree (runHealthChecks this st).2 = tree st.
Proof.
  symmetry. revert st. change (moves eq (runHealthChecks this)).
  unfold runHealthChecks.
  repeat first [ apply moves_check_files; exact _ | moves_step ].
Qed.

Lemma runHealthChecks_result st :
  (runHealthChecks this st).1 =
    match first_missing (tree st) criticalFiles with
    | Some file => inl ("Health checks failed: Required file missing: " +:+ file)
    | None =>
        match lookup ["package.json"] (tree st) with
        | Some (File bytes) =>
            match JSON_parse bytes with
            | SyntaxError msg => inl ("Health checks failed: " +:+ msg)
            | Null =>
                inl "Health checks failed: Cannot read properties of null (reading 'scripts')"
            | Value _ _ _ => inr ()
            end
        | Some (Dir _) =>
            inl "Health checks failed: EISDIR: illegal operation on a directory"
        | None => inr ()
        end
    end.
Proof.
  unfold runHealthChecks.
  rewrite run_mbind, run_emit, run_mbind, run_log, run_try_catch, run_mbind.
  cbn [tree trace].
  set (st0 := {| tree := tree st; trace := _ |}).
  destruct (check_files_run criticalFiles [] st0) as (tr & checks & ->).
  change (tree st0) with (tree st).
  destruct (first_missing (tree st) criticalFiles) as [file|]; [done|].
  rewrite run_mbind. unfold existsSync. cbn [tree trace].
  destruct (lookup ["package.json"] (tree st)) as [[bytes|d]|] eqn:Hpkg.
  - rewrite bool_decide_true by done. rewrite !run_mbind.
    unfold readFileSync. cbn [tree trace]. rewrite Hpkg.
    destruct (JSON_parse bytes) as [msg| |scripts dependencies devDependencies];
      [done..|].
    rewrite !run_mbind.
    destruct scripts; [rewrite run_mbind, run_log|]; cbn [ret tree trace];
      rewrite run_mbind;
      (destruct (dependencies || devDependencies); [rewrite run_log|]);
      cbn [ret tree trace]; rewrite !run_mbind, run_emit, run_mbind, run_for_each_emit;
      by rewrite run_log.
  - rewrite bool_decide_true by done. rewrite !run_mbind.
    unfold readFileSync. cbn [tree trace]. by rewrite Hpkg.
  - rewrite bool_decide_false by (by intros [? ?]).
    rewrite run_mbind. cbn [ret]. rewrite run_mbind, run_emit, run_mbind, run_for_each_emit.
    by rewrite run_log.
Qed.

Lemma runHealthChecks_passes_iff st :
  (runHealthChecks this st).1 = inr () ↔
    is_Some (lookup ["index.html"] (tree st)) ∧
    ∃ bytes scripts dependencies devDependencies,
      lookup ["package.json"] (tree st) = Some (File bytes) ∧
      JSON_parse bytes = Value scripts dependencies devDependencies.
Proof.
  rewrite runHealthChecks_result, first_missing_criticalFiles.
  destruct (lookup ["package.json"] (tree st)) as [[bytes|d]|] eqn:Hpkg.
  - rewrite bool_decide_true by done.
    destruct (lookup ["index.html"] (tree st)) as [n|] eqn:Hindex.
    + rewrite bool_decide_true by done.
      destruct (JSON_parse bytes) as [msg| |s dd dv] eqn:Hparse.
      * split; [done|]. intros (_ & b & ? & ? & ? & [= <-] & Hp). congruence.
      * split; [done|]. intros (_ & b & ? & ? & ? & [= <-] & Hp). congruence.
      * split; [|done]. intros _. split; [done|]. by exists bytes, s, dd, dv.
    + rewrite bool_decide_false by (by intros [? ?]).
      split; [done|]. by intros [[? ?] _].
  - rewrite bool_decide_true by done.
    destruct (bool_decide _); (split; [done|]);
      by intros (_ & ? & ? & ? & ? & ? & _).
  - rewrite bool_decide_false by (by intros [? ?]).
    split; [done|]. by intros (_ & ? & ? & ? & ? & ? & _).
Qed.

(** The health checks pass exactly on a parsed manifest and an
    [index.html].  The step succeeds if and only if [index.html] exists
    and [package.json] is a regular file that [JSON.parse] turns into a
    value other than [null]; the three optional files, a manifest
    without scripts and a manifest without dependencies do not fail it.
    A missing required file is named in the error, [package.json]
    first.  The step changes nothing in the tree. *)
Theorem runHealthChecks_needs_manifest_and_index (st : state) :
  ((runHealthChecks this st).1 = inr () ↔
     is_Some (lookup ["index.html"] (tree st)) ∧
     ∃ bytes scripts dependencies devDependencies,
       lookup ["package.json"] (tree st) = Some (File bytes) ∧
       JSON_parse bytes = Value scripts dependencies devDependencies) ∧
  (lookup ["package.json"] (tree st) = None →
     (runHealthChecks this st).1 =
       inl "Health checks failed: Required file missing: package.json") ∧
  (is_Some (lookup ["package.json"] (tree st)) →
   lookup ["index.html"] (tree st) = None →
     (runHealthChecks this st).1 =
       inl "Health checks failed: Required file missing: index.html") ∧
  tree (runHealthChecks this st).2 = tree st.
Proof.
  split; [apply runHealthChecks_passes_iff|].
  split; [|split; [|apply runHealthChecks_tree]];
    rewrite runHealthChecks_result, first_missing_criticalFiles.
  - intros ->. by rewrite bool_decide_false by (by intros [? ?]).
  - intros Hpkg ->. rewrite bool_decide_true by done.
    by rewrite bool_decide_false by (by intros [? ?]).
Qed.

End Commands.

(** *** [parseInt] on decimal numerals *)

Lemma is_digit_not_space a : is_digit a = true → is_space_ascii a = false.
Proof. by destruct a as [[] [] [] [] [] [] [] []]. Qed.

Lemma is_digit_not_dot a : is_digit a = true → Ascii.eqb a "." = false.
Proof. by destruct a as [[] [] [] [] [] [] [] []]. Qed.

Lemma pretty_N_char_digit d : is_digit (pretty_N_char d) = true.
Proof. unfold pretty_N_char. by repeat case_match. Qed.

Lemma digit_value_char d :
  (d < 10)%N → digit_value 10 (pretty_N_char d) = Some (Z.of_N d).
Proof.
  intros Hd.
  assert (d = 0 ∨ d = 1 ∨ d = 2 ∨ d = 3 ∨ d = 4 ∨ d = 5 ∨ d = 6 ∨ d = 7 ∨ d = 8 ∨ d = 9)%N
    as Hcases by lia.
  by repeat (destruct Hcases as [->|Hcases]; [done|]); subst.
Qed.

Lemma pretty_N_go_digits n : ∀ s,
  (0 < n)%N → digits 10 (pretty_N_go n s) None = digits 10 s (Some (Z.of_N n)).
Proof.
  induction (N.lt_wf_0 n) as [n _ IH]. intros s Hn.
  rewrite pretty_N_go_step by done.
  assert (n `mod` 10 < 10)%N as Hmod by (by apply N.mod_lt).
  assert (n = 10 * (n `div` 10) + n `mod` 10)%N as Hn' by (by apply N.div_mod).
  destruct (decide (n `div` 10 = 0)%N) as [Hsmall|Hlarge].
  - rewrite Hsmall, pretty_N_go_0. cbn [digits]. rewrite digit_value_char by done.
    cbn [default]. f_equal. f_equal. lia.
  - rewrite IH; [|apply N.div_lt; lia|lia].
    cbn [digits]. rewrite digit_value_char by done. cbn [default].
    f_equal. f_equal. clear IH Hmod Hlarge.
    set (q := (n `div` 10)%N) in *. set (r := (n `mod` 10)%N) in *.
    clearbody q r. unfold id. lia.
Qed.

Lemma pretty_N_go_all_digits n : ∀ s,
  all_digits s = true → all_digits (pretty_N_go n s) = true.
Proof.
  induction (N.lt_wf_0 n) as [n _ IH]. intros s Hs.
  destruct (decide (n = 0)%N) as [->|Hn]; [done|].
  rewrite pretty_N_go_step by lia. apply IH; [apply N.div_lt; lia|].
  cbn [all_digits]. by rewrite pretty_N_char_digit.
Qed.

Lemma pretty_N_go_filled n : ∀ s, s ≠ EmptyString → pretty_N_go n s ≠ EmptyString.
Proof.
  induction (N.lt_wf_0 n) as [n _ IH]. intros s Hs.
  destruct (decide (n = 0)%N) as [->|Hn]; [done|].
  rewrite pretty_N_go_step by lia. apply IH; [apply N.div_lt; lia|done].
Qed.

Lemma pretty_N_numeral (n : N) :
  pretty n ≠ EmptyString ∧ all_digits (pretty n) = true ∧
  digits 10 (pretty n) None = Some (Z.of_N n).
Proof.
  unfold pretty, pretty_N. destruct (decide (n = 0)%N) as [->|Hn]; [done|].
  split; [|split].
  - rewrite pretty_N_go_step by lia. by apply pretty_N_go_filled.
  - by apply pretty_N_go_all_digits.
  - rewrite pretty_N_go_digits by lia. done.
Qed.

Lemma parseInt_numeral s :
  s ≠ EmptyString → all_digits s = true → parseInt s = digits 10 s None.
Proof.
  destruct s as [|c s]; [done|]. intros _. cbn [all_digits].
  intros [Hc Hs]%andb_true_iff. unfold parseInt. cbn [trim_left].
  rewrite (is_digit_not_space c Hc).
  assert (∀ o : option Z, (λ v, 1 * v)%Z <$> o = o) as Hone.
  { intros [v|]; [|done]. cbn. f_equal. lia. }
  destruct c as [[] [] [] [] [] [] [] []]; try discriminate Hc; try apply Hone.
  destruct s as [|c' s]; [apply Hone|].
  cbn [all_digits] in Hs. apply andb_true_iff in Hs as [Hc' _].
  destruct c' as [[] [] [] [] [] [] [] []]; try discriminate Hc'; apply Hone.
Qed.

Lemma before_dot_numeral s t :
  all_digits s = true → before_dot (s +:+ String "." t) = s.
Proof.
  induction s as [|a s IH]; [done|]. cbn [all_digits].
  intros [Ha Hs]%andb_true_iff.
  change (before_dot (String a (s +:+ String "." t)) = String a s).
  cbn [before_dot]. by rewrite (is_digit_not_dot a Ha), IH.
Qed.

Lemma major_of_node_version major minor patch :
  parseInt (before_dot (slice1 (node_version major minor patch))) =
    Some (Z.of_N major).
Proof.
  destruct (pretty_N_numeral major) as (Hfilled & Hdigits & Hvalue).
  change (slice1 (node_version major minor patch))
    with (pretty major +:+ String "." (pretty minor +:+ "." +:+ pretty patch)).
  rewrite before_dot_numeral by done. by rewrite parseInt_numeral.
Qed.

(** *** [checkSystemRequirements] *)

Section Requirements.
Context `{Runtime}.
Variable w : world.
Variable this : manager.

(** Node.js 16 is the oldest release the setup accepts.  For the
    version string of a release, [v] and three decimal numbers between
    dots: below major version 16 the step fails with the message that
    names the major version, before any command is started; from 16 on
    it succeeds if and only if [npm --version] does, whatever
    [git --version] answers. *)
Theorem checkSystemRequirements_wants_node_16 (st : state) (major minor patch : N) :
  version w = node_version major minor patch →
  ((major < 16)%N →
     (checkSystemRequirements w this st).1 =
       inl ("System requirements check failed: Node.js " +:+
            Number_toString (Z.of_N major) +:+
            " is not supported. Please upgrade to Node.js 16 or higher.") ∧
     tree (checkSystemRequirements w this st).2 = tree st ∧
     commands (trace (checkSystemRequirements w this st).2) = commands (trace st)) ∧
  ((16 ≤ major)%N →
     ((checkSystemRequirements w this st).1 = inr () ↔
        is_Some (command w "npm --version" (tree st)).1) ∧
     ((command w "npm --version" (tree st)).1 = None →
        (checkSystemRequirements w this st).1 =
          inl "System requirements check failed: npm is not available. Please install npm.")).
Proof.
  intros Hversion.
  remember (checkSystemRequirements w this st) as r eqn:Hr.
  unfold checkSystemRequirements in Hr.
  rewrite run_mbind, run_emit, run_mbind, run_log, run_try_catch in Hr.
  cbn zeta in Hr. rewrite Hversion, major_of_node_version in Hr.
  rewrite run_mbind in Hr. cbn [tree trace] in Hr.
  destruct (Z.of_N major <? 16)%Z eqn:Hlt.
  - cbn [throw] in Hr. subst r. cbn [throw fst snd tree trace]. split; [|lia].
    intros _. split; [done|]. split; [done|].
    rewrite !commands_app_eq, commands_said.
    change (commands [Call "checkSystemRequirements"]) with (@nil string).
    by rewrite !app_nil_r.
  - cbn [ret] in Hr. split; [lia|]. intros _.
    rewrite run_mbind, run_log, run_mbind, run_log in Hr. cbn [tree trace] in Hr.
    rewrite run_mbind, run_try_catch, run_mbind, run_execSync in Hr.
    cbn [tree trace] in Hr.
    destruct (command w "npm --version" (tree st)) as [[out|] t1]; cbn [fst snd] in *.
    + rewrite run_log, run_mbind, run_try_catch, run_mbind, run_execSync in Hr.
      cbn [tree trace] in Hr.
      destruct (command w "git --version" t1) as [[out'|] t2]; cbn [fst snd] in Hr;
        rewrite !run_log in Hr; subst r; by split.
    + cbn [throw] in Hr. subst r. cbn [fst]. split; [|done].
      split; [done|]. by intros [? ?].
Qed.

End Requirements.

(** *** The whole run *)




Section Setup.
Context `{Runtime}.
Variable w : world.
Variable this : manager.









Lemma setup_eq st :
  setup w this st =
    match (steps w this st).1 with
    | inr _ =>
        {| exit_code := 0; final := tree (steps w this st).2;
           events := trace (steps w this st).2 |}
    | inl msg =>
        {| exit_code := 1; final := tree (steps w this st).2;
           events := trace (steps w this st).2 ++ [Say Error ("Setup failed: " +:+ msg)] |}
    end.
Proof.
  unfold setup. destruct (steps w this st) as [[msg|[]] st']; [|done].
  by rewrite run_log.
Qed.


(** Without [--verbose] a setup prints no line of the verbose level,
    in no step and however it ends. *)
Theorem quiet_setup_prints_no_verbose_line (st : state) :
  verbose this = false →
  ∃ tr, events (setup w this st) = trace st ++ tr ∧
        forallb (λ e, negb (is_verbose e)) tr = true.
Proof.
  intros Hquiet. rewrite setup_eq.
  destruct (quiet_steps w this Hquiet st) as (tr & Htr & Hsilent).
  destruct (steps w this st) as [[msg|[]] st']; cbn [fst snd events] in *.
  - exists (tr ++ [Say Error ("Setup failed: " +:+ msg)]).
    rewrite Htr, forallb_app, Hsilent. by rewrite (assoc_L (++)).
  - by exists tr.
Qed.

(** A setup that ends with status 0 leaves a project that is ready:
    [package.json] is a regular file that parses to a value other than
    [null], [index.html] exists, and [.env.example] and [Makefile]
    exist, as does [.env] when [--dev] was given. *)
Theorem setup_success_leaves_project_ready (st : state) :
  exit_code (setup w this st) = 0 →
  (∃ bytes scripts dependencies devDependencies,
     lookup ["package.json"] (final (setup w this st)) = Some (File bytes) ∧
     JSON_parse bytes = Value scripts dependencies devDependencies) ∧
  is_Some (lookup ["index.html"] (final (setup w this st))) ∧
  is_Some (lookup [".env.example"] (final (setup w this st))) ∧
  is_Some (lookup ["Makefile"] (final (setup w this st))) ∧
  (dev this = true → is_Some (lookup [".env"] (final (setup w this st)))).
Proof.
  rewrite setup_eq.
  remember (steps w this st) as r eqn:Hr.
  assert (tree r.2 = tree r.2 → final
            match r.1 with
            | inl msg =>
                {| exit_code := 1; final := tree r.2;
                   events := trace r.2 ++ [Say Error ("Setup failed: " +:+ msg)] |}
            | inr _ => {| exit_code := 0; final := tree r.2; events := trace r.2 |}
            end = tree r.2) as -> by (by destruct r.1).
  2: done.
  intros Hok.
  assert (r.1 = inr ()) as Hsuccess by (by destruct r.1 as [?|[]]).
  clear Hok. unfold steps in Hr. rewrite run_mbind, run_log in Hr.
  set (st0 := {| tree := tree st; trace := _ |}) in Hr.
  rewrite run_mbind in Hr.
  destruct (checkSystemRequirements w this st0) as [[e|[]] st1];
    [by subst r|].
  rewrite run_mbind in Hr.
  destruct (createDirectories this st1) as [[e|[]] st2]; [by subst r|].
  rewrite run_mbind in Hr.
  destruct (installDependencies w this st2) as [[e|[]] st3]; [by subst r|].
  rewrite run_mbind in Hr.
  destruct (initializeGitHooks w this st3) as [[e|[]] st4]; [by subst r|].
  rewrite run_mbind in Hr.
  pose proof (createConfigFiles_lookup this st4) as Hfiles.
  assert ((createConfigFiles this st4).1 = inr ()) as Hconfig
    by (by destruct (createConfigFiles_run this st4) as [tr ->]).
  destruct (createConfigFiles this st4) as [[e|[]] st5]; [done|].
  cbn [fst snd] in Hfiles. rewrite run_mbind in Hr.
  pose proof (runHealthChecks_passes_iff this st5) as [Hhealth _].
  pose proof (runHealthChecks_tree this st5) as Htree.
  destruct (runHealthChecks this st5) as [[e|[]] st6]; [by subst r|].
  cbn [fst snd] in Hhealth, Htree.
  rewrite run_mbind in Hr. unfold displayNextSteps in Hr.
  rewrite run_for_each_emit, run_emit in Hr. subst r. cbn [fst snd tree].
  rewrite Htree. destruct (Hhealth eq_refl) as [Hindex Hpackage].
  split; [done|]. split; [done|].
  rewrite !(Hfiles _ []).
  split; [|split].
  - by destruct (lookup [".env.example"] (tree st4)).
  - by destruct (lookup ["Makefile"] (tree st4)).
  - intros Hdev.
    destruct (lookup [".env"] (tree st4)); [done|].
    unfold config_file. cbn [String.eqb Ascii.eqb Bool.eqb]. by rewrite Hdev.
Qed.

End Setup.

End SetupProofs.

(** * The properties of a run on the example project *)
Module RunWitnesses.
Import FS Build Example FSProofs BuildProofs StepProofs Witnesses.
Import BuildSpec FrameProofs OutputProofs ProductionProofs.

Lemma NODE_ENV_enables_production_witness :
  let run := @main ascii_runtime [] (Some "production") project in
  exit_code run = 0 ∧
  lookup (distDir ++ ["css"; "site.css"]) (final run) = Some (text "body{margin : 0 }") ∧
  lookup (distDir ++ ["js"; "app.js"]) (final run) = Some (text "var n = 1;") ∧
  ∃ content, lookup hashesPath (final run) = Some (File content) ∧
             Wrote hashesPath content ∈ log run.
Proof.
  intros run.
  destruct (@NODE_ENV_enables_production ascii_runtime [] (Some "production") project)
    as (_ & Hprod & _).
  assert (exit_code run = 0) as Hok by (vm_compute; reflexivity).
  destruct (Hprod eq_refl Hok) as (Hcss & Hjs & Hhash).
  split; [exact Hok|]. split; [|split; [|exact Hhash]].
  - etrans; [apply (Hcss "site.css"); reflexivity|]. vm_compute. reflexivity.
  - etrans; [apply (Hjs "app.js"); reflexivity|]. vm_compute. reflexivity.
Defined.

Lemma build_success_requires_index_witness :
  ∃ c, lookup ["index.html"] project = Some (File c).
Proof.
  destruct (@build_success_requires_index ascii_runtime production_manager project)
    as [Hroot|[Hclean _]].
  - vm_compute. reflexivity.
  - exact Hroot.
  - discriminate Hclean.
Defined.

Lemma no_clean_build_needs_output_directory_witness :
  exit_code (@build ascii_runtime (new_BuildManager (options_of ["--no-clean"]) None)
               [("index.html", text "<html></html>")]) = 1.
Proof.
  apply (@no_clean_build_needs_output_directory ascii_runtime); reflexivity.
Defined.

Lemma clean_build_succeeds_iff_witness :
  exit_code (@build ascii_runtime production_manager project) = 0.
Proof.
  apply (@clean_build_succeeds_iff ascii_runtime production_manager project project_wf);
    reflexivity.
Defined.

Lemma clean_build_output_witness :
  view (lookup (distDir ++ ["src"; "lib"; "util.js"])
          (final (@build ascii_runtime production_manager project))) =
    view (Some (text "export {}")) ∧
  view (lookup (distDir ++ ["stale.js"])
          (final (@build ascii_runtime production_manager project))) = None ∧
  is_Some (lookup hashesPath (final (@build ascii_runtime production_manager project))).
Proof.
  destruct (@clean_build_output ascii_runtime production_manager project project_wf)
    as [Hfiles Hhashes].
  - reflexivity.
  - vm_compute. reflexivity.
  - split; [|split].
    + etrans; [apply (Hfiles ["src"; "lib"; "util.js"]); discriminate|].
      vm_compute. reflexivity.
    + etrans; [apply (Hfiles ["stale.js"]); discriminate|].
      vm_compute. reflexivity.
    + destruct Hhashes as (hashMap & _ & ->). by eexists.
Defined.



Lemma processSrcFiles_copies_tree_witness :
  (processSrcFiles cleaned).1 = inr () ∧
  view (lookup (distDir ++ ["src"; "lib"; "util.js"]) (tree (processSrcFiles cleaned).2)) =
    view (Some (text "export {}")).
Proof.
  destruct (processSrcFiles_copies_tree cleaned) as (Hok & Hcopy & _).
  - vm_compute. reflexivity.
  - reflexivity.
  - reflexivity.
  - reflexivity.
  - split; [exact Hok|]. etrans; [apply (Hcopy ["lib"; "util.js"])|]. reflexivity.
Defined.

End RunWitnesses.

(** * The properties of a setup on the example project *)
Module SetupWitnesses.
Import FS Setup SetupSpec SetupExample SetupProofs.

Lemma createDirectories_twice_witness :
  (createDirectories developer (createDirectories developer start).2).1 = inr () ∧
  tree (createDirectories developer (createDirectories developer start).2).2 =
    tree (createDirectories developer start).2 ∧
  lookup ["assets"; "icons"] (tree (createDirectories developer start).2) =
    Some (Dir []).
Proof.
  destruct (createDirectories_twice developer start) as [Hok Hsame].
  - vm_compute. reflexivity.
  - split; [exact Hok|]. split; [exact Hsame|]. vm_compute. reflexivity.
Defined.

Lemma checkSystemRequirements_wants_node_16_witness :
  (∃ m, (@checkSystemRequirements plain_runtime (machine "v14.21.3") developer start).1 =
          inl m) ∧
  (@checkSystemRequirements plain_runtime (machine "v18.19.0") developer start).1 = inr ().
Proof.
  split.
  - destruct (@checkSystemRequirements_wants_node_16 plain_runtime (machine "v14.21.3")
                developer start 14 21 3) as [Hold _]; [vm_compute; reflexivity|].
    destruct Hold as [Hfail _]; [reflexivity|]. eexists. exact Hfail.
  - destruct (@checkSystemRequirements_wants_node_16 plain_runtime (machine "v18.19.0")
                developer start 18 19 0) as [_ Hnew]; [vm_compute; reflexivity|].
    destruct Hnew as [[_ Hok] _]; [discriminate|]. apply Hok. by eexists.
Defined.

Lemma quiet_setup_prints_no_verbose_line_witness :
  ∃ tr, events (@setup plain_runtime (machine "v18.19.0") developer start) = tr ∧
        forallb (λ e, negb (is_verbose e)) tr = true.
Proof.
  destruct (@quiet_setup_prints_no_verbose_line plain_runtime (machine "v18.19.0")
              developer start) as (tr & Htr & Hsilent); [reflexivity|].
  exists tr. split; [exact Htr|exact Hsilent].
Defined.

Lemma setup_success_leaves_project_ready_witness :
  is_Some (lookup ["Makefile"]
             (final (@setup plain_runtime (machine "v18.19.0") developer start))) ∧
  lookup [".env.example"]
    (final (@setup plain_runtime (machine "v18.19.0") developer start)) =
    Some (File (Digest.bytes_of_string "PORT=8080")).
Proof.
  destruct (@setup_success_leaves_project_ready plain_runtime (machine "v18.19.0")
              developer start) as (_ & _ & _ & Hmake & _).
  - vm_compute. reflexivity.
  - split; [exact Hmake|]. vm_compute. reflexivity.
Defined.

End SetupWitnesses.
